(** * Soft-alias namespaced properties: synchronisation core

    A shallow embedding of the synchronisation and scope-resolution engine of
    the plugin (class [SoftAliasNamespacedProperties] and the helpers above
    it), followed by the properties of its documentation that can be stated
    over that embedding.

    Modelling conventions.
    - A JavaScript string is a [string]; each character stands for one code
      unit below 256.
    - A frontmatter is the finite map from the own property names of a
      frontmatter object to their values ([gmap string JsValue]);
      [Object.prototype.hasOwnProperty.call] is membership and
      [delete fm[k]] is deletion.  A mutator runs on an object, the map
      together with its prototype ([JsObject]): an assignment [fm[k] = v]
      creates or updates an own property, except that assigning to
      ["__proto__"] on an object that has no such own property reaches the
      setter of [Object.prototype], which changes the prototype and creates
      no property.  The object handed to a mutator is an ordinary one, and
      what is persisted are its own properties.  The order in which a
      frontmatter lists its keys is not part of the model.
    - Logging ([this.log]) and notices have no effect on the state modelled
      here and are left out. *)

From Stdlib Require Import ZArith Ascii String DecimalString.
From stdpp Require Import gmap strings list fin_maps.

Local Open Scope string_scope.

(** ** Values *)

#[local] Set Warnings "-register-all".

(** The values a frontmatter property can hold.  The code only copies them,
    so a number's payload is never inspected.  An object value lists its own
    properties, each once, in the order they were created. *)
Inductive JsValue : Type :=
  | JUndefined : JsValue
  | JNull : JsValue
  | JBool (b : bool) : JsValue
  | JNum (z : Z) : JsValue
  | JStr (s : string) : JsValue
  | JArr (items : list JsValue) : JsValue
  | JObj (props : list (string * JsValue)) : JsValue.

Definition isNullish (v : JsValue) : bool :=
  match v with
  | JUndefined | JNull => true
  | _ => false
  end.

(** [typeof v === "object"] for a value that is not null. *)
Definition isObjectLike (v : JsValue) : bool :=
  match v with
  | JArr _ | JObj _ => true
  | _ => false
  end.

(** ** String helpers of the host language *)

Module Js.

(** White space and line terminators removed by [String.prototype.trim],
    among the code units below 256: TAB, LF, VT, FF, CR, SP and NBSP. *)
Definition isWhite (c : ascii) : bool :=
  let n := nat_of_ascii c in
  (n =? 9)%nat || (n =? 10)%nat || (n =? 11)%nat || (n =? 12)%nat
  || (n =? 13)%nat || (n =? 32)%nat || (n =? 160)%nat.

Definition isEmpty (s : string) : bool :=
  match s with
  | EmptyString => true
  | String _ _ => false
  end.

Fixpoint trimStart (s : string) : string :=
  match s with
  | EmptyString => EmptyString
  | String c rest => if isWhite c then trimStart rest else s
  end.

Fixpoint trimEnd (s : string) : string :=
  match s with
  | EmptyString => EmptyString
  | String c rest =>
      let t := trimEnd rest in
      if isWhite c && isEmpty t then EmptyString else String c t
  end.

Definition trim (s : string) : string := trimEnd (trimStart s).

(** [s.replace(/\\/g, "/")] *)
Fixpoint slashes (s : string) : string :=
  match s with
  | EmptyString => EmptyString
  | String c rest =>
      String (if Ascii.eqb c "\" then "/"%char else c) (slashes rest)
  end.

(** [s.startsWith(p)] *)
Definition startsWith (s p : string) : bool := String.prefix p s.

(** [s.endsWith("/")] *)
Fixpoint endsWithSlash (s : string) : bool :=
  match s with
  | EmptyString => false
  | String c EmptyString => Ascii.eqb c "/"
  | String _ rest => endsWithSlash rest
  end.

(** [s.split(",")]: never empty, the empty string gives one empty piece. *)
Fixpoint splitComma (s : string) : list string :=
  match s with
  | EmptyString => [EmptyString]
  | String c rest =>
      if Ascii.eqb c ","
      then EmptyString :: splitComma rest
      else match splitComma rest with
           | piece :: pieces => String c piece :: pieces
           | [] => [String c EmptyString]
           end
  end.

(** [String(i)] for an array index. *)
Definition indexName (i : nat) : string :=
  NilEmpty.string_of_uint (Nat.to_uint i).

(** The number a key stands for when it is an array index: a decimal
    numeral without leading zero, at most [2^32 - 2]. *)
Definition digitValue (c : ascii) : option N :=
  let n := N_of_ascii c in
  if (48 <=? n)%N && (n <=? 57)%N then Some (n - 48)%N else None.

Fixpoint numeralValue (acc : N) (s : string) : option N :=
  match s with
  | EmptyString => Some acc
  | String c rest =>
      match digitValue c with
      | Some d => numeralValue (acc * 10 + d)%N rest
      | None => None
      end
  end.

Definition arrayIndex (key : string) : option N :=
  match key with
  | EmptyString => None
  | String c rest =>
      if Ascii.eqb c "0" && negb (isEmpty rest) then None
      else
        match numeralValue 0 key with
        | Some n => if (n <=? 4294967294)%N then Some n else None
        | None => None
        end
  end.

(** The order in which an object lists its own properties: those whose key
    is an array index first, by ascending index, then the others in the order
    they were created. *)
Fixpoint insertIndexed (n : N) (entry : string * JsValue)
    (sorted : list (N * (string * JsValue))) : list (N * (string * JsValue)) :=
  match sorted with
  | [] => [(n, entry)]
  | (m, other) :: rest =>
      if (n <=? m)%N then (n, entry) :: sorted
      else (m, other) :: insertIndexed n entry rest
  end.

Fixpoint indexedEntries (props : list (string * JsValue)) : list (N * (string * JsValue)) :=
  match props with
  | [] => []
  | entry :: rest =>
      match arrayIndex (fst entry) with
      | Some n => insertIndexed n entry (indexedEntries rest)
      | None => indexedEntries rest
      end
  end.

Fixpoint namedEntries (props : list (string * JsValue)) : list (string * JsValue) :=
  match props with
  | [] => []
  | entry :: rest =>
      match arrayIndex (fst entry) with
      | Some _ => namedEntries rest
      | None => entry :: namedEntries rest
      end
  end.

(** [Object.entries(v)] for an object or an array. *)
Definition entries (v : JsValue) : list (string * JsValue) :=
  match v with
  | JObj props => (map snd (indexedEntries props) ++ namedEntries props)%list
  | JArr items => imap (fun i x => (indexName i, x)) items
  | _ => []
  end.

(** [s.endsWith(suffix)]: some tail of [s] is [suffix]. *)
Fixpoint endsWith (s suffix : string) : bool :=
  String.eqb s suffix
  || match s with
     | EmptyString => false
     | String _ rest => endsWith rest suffix
     end.

(** [s.replace(/\s+/g, " ")]: every run of white space becomes one space;
    [inRun] tells that the character before was white space. *)
Fixpoint collapseFrom (inRun : bool) (s : string) : string :=
  match s with
  | EmptyString => EmptyString
  | String c rest =>
      if isWhite c
      then if inRun then collapseFrom true rest
           else String " " (collapseFrom true rest)
      else String c (collapseFrom false rest)
  end.

Definition collapseSpaces (s : string) : string := collapseFrom false s.

(** [pieces.join(sep)] *)
Fixpoint join (sep : string) (pieces : list string) : string :=
  match pieces with
  | [] => EmptyString
  | [piece] => piece
  | piece :: rest => piece ++ sep ++ join sep rest
  end.

(** [s.includes(",")] *)
Fixpoint hasComma (s : string) : bool :=
  match s with
  | EmptyString => false
  | String c rest => Ascii.eqb c "," || hasComma rest
  end.

(** [s.includes("\\")] *)
Fixpoint hasBackslash (s : string) : bool :=
  match s with
  | EmptyString => false
  | String c rest => Ascii.eqb c "\" || hasBackslash rest
  end.

(** [v.name] for a property name that is not an array index or [length]:
    the object's own property, [undefined] otherwise.  An object lists each
    of its own properties once. *)
Fixpoint lookupProp (props : list (string * JsValue)) (name : string) : JsValue :=
  match props with
  | [] => JUndefined
  | (k, v) :: rest => if String.eqb k name then v else lookupProp rest name
  end.

Definition getField (v : JsValue) (name : string) : JsValue :=
  match v with
  | JObj props => lookupProp props name
  | _ => JUndefined
  end.

End Js.

(** ** Types *)

Inductive SyncReason : Type :=
  | ReasonOpen | ReasonModify | ReasonMetadataChanged | ReasonManual.

Record FolderRule : Type := {
  folderPrefix : string;
  namespaceSlug : string;
  templateEnabled : bool;
  templateYaml : string
}.

Record SoftAliasSettings : Type := {
  folderRules : list FolderRule;
  managedAliasKeys : string;
  removePlainAliasKeysOnSync : bool;
  storagePrefix : string;
  storageSeparator : string;
  deleteStorageKeysOnRestore : bool;
  hideStorageKeysInPropertyNameSuggest : bool;
  enableQuickAddManagedProperty : bool;
  enableAutoTemplateOnCreate : bool;
  applyTemplateOnlyIfNoFrontmatter : bool;
  debounceMs : Z;
  debugLogs : bool
}.

Definition DEFAULT_SETTINGS : SoftAliasSettings := {|
  folderRules := [];
  managedAliasKeys := "priority,status,owner";
  removePlainAliasKeysOnSync := true;
  storagePrefix := "";
  storageSeparator := "__";
  deleteStorageKeysOnRestore := false;
  hideStorageKeysInPropertyNameSuggest := true;
  enableQuickAddManagedProperty := true;
  enableAutoTemplateOnCreate := true;
  applyTemplateOnlyIfNoFrontmatter := true;
  debounceMs := 300;
  debugLogs := true
|}.

Abbreviation Frontmatter := (gmap string JsValue).

(** ** Helpers *)

Definition normalizePrefix (prefix : string) : string :=
  let p := Js.trim prefix in
  if Js.isEmpty p then ""
  else
    let normalized := Js.slashes p in
    if Js.endsWithSlash normalized then normalized else normalized ++ "/".

Definition parseManagedKeys (raw : string) : list string :=
  filter (fun s => Js.isEmpty s = false) (map Js.trim (Js.splitComma raw)).

(** ** Key logic *)

Definition getManagedAliasKeys (st : SoftAliasSettings) : list string :=
  parseManagedKeys (managedAliasKeys st).

(** The separator in effect:
    [(storageSeparator || "__").trim() || "__"]. *)
Definition separator (st : SoftAliasSettings) : string :=
  let raw := if Js.isEmpty (storageSeparator st) then "__" else storageSeparator st in
  let sep := Js.trim raw in
  if Js.isEmpty sep then "__" else sep.

Definition makeStorageKey (st : SoftAliasSettings) (slug aliasKey : string) : string :=
  let prefix := Js.trim (storagePrefix st) in
  let sep := separator st in
  prefix ++ slug ++ sep ++ aliasKey.

(** ** Scope helpers *)

(** The loop of [getNamespaceSlugForFile] over the rule list, for a path
    whose separators are already normalised. *)
Fixpoint slugOfRules (path : string) (rules : list FolderRule) : option string :=
  match rules with
  | [] => None
  | rule :: rest =>
      let prefix := normalizePrefix (folderPrefix rule) in
      let slug := Js.trim (namespaceSlug rule) in
      if Js.isEmpty prefix || Js.isEmpty slug then slugOfRules path rest
      else if Js.startsWith path prefix then Some slug
      else slugOfRules path rest
  end.

Definition getNamespaceSlugForFile (st : SoftAliasSettings) (filePath : string) : option string :=
  slugOfRules (Js.slashes filePath) (folderRules st).

Fixpoint ruleOfRules (path : string) (rules : list FolderRule) : option FolderRule :=
  match rules with
  | [] => None
  | rule :: rest =>
      let prefix := normalizePrefix (folderPrefix rule) in
      let slug := Js.trim (namespaceSlug rule) in
      if Js.isEmpty prefix || Js.isEmpty slug then ruleOfRules path rest
      else if Js.startsWith path prefix then Some rule
      else ruleOfRules path rest
  end.

Definition getRuleForFile (st : SoftAliasSettings) (filePath : string) : option FolderRule :=
  ruleOfRules (Js.slashes filePath) (folderRules st).

(** ** Frontmatter objects *)

Definition hasOwn (fm : Frontmatter) (key : string) : bool :=
  bool_decide (is_Some (fm !! key)).

(** The value read by [fm[key]] for an own property. *)
Definition getProp (fm : Frontmatter) (key : string) : JsValue :=
  default JUndefined (fm !! key).

(** The prototype of a frontmatter object: [Object.prototype], as for every
    object literal and parsed object, or what an assignment to ["__proto__"]
    has put in its place. *)
Inductive Proto : Type :=
  | ProtoObject : Proto
  | ProtoNull : Proto
  | ProtoValue (v : JsValue) : Proto.

Record JsObject : Type := {
  own : Frontmatter;
  proto : Proto
}.

(** The object the metadata collaborator hands to a mutator. *)
Definition ordinary (fm : Frontmatter) : JsObject :=
  {| own := fm; proto := ProtoObject |}.

Definition protoKey : string := "__proto__".

(** Whether an object value has an own property ["__proto__"]. *)
Definition hasOwnProtoKey (v : JsValue) : bool :=
  match v with
  | JObj props => existsb (fun entry => String.eqb (fst entry) protoKey) props
  | _ => false
  end.

(** Whether looking ["__proto__"] up along the prototype chain ends at the
    accessor of [Object.prototype]: not when the chain is empty, and not when
    the prototype is an object with a property of that name of its own. *)
Definition reachesProtoSetter (p : Proto) : bool :=
  match p with
  | ProtoObject => true
  | ProtoNull => false
  | ProtoValue v => negb (hasOwnProtoKey v)
  end.

(** What the setter of [Object.prototype.__proto__] does with the value
    assigned: an object or null becomes the prototype, anything else is
    ignored. *)
Definition setPrototypeOf (p : Proto) (v : JsValue) : Proto :=
  match v with
  | JNull => ProtoNull
  | JArr _ | JObj _ => ProtoValue v
  | _ => p
  end.

(** [o[key] = v] *)
Definition assign (o : JsObject) (key : string) (v : JsValue) : JsObject :=
  if negb (hasOwn (own o) key) && String.eqb key protoKey && reachesProtoSetter (proto o)
  then {| own := own o; proto := setPrototypeOf (proto o) v |}
  else {| own := <[key := v]> (own o); proto := proto o |}.

(** [delete o[key]] *)
Definition deleteProp (o : JsObject) (key : string) : JsObject :=
  {| own := delete key (own o); proto := proto o |}.

(** ** Frontmatter mutators *)

(** One turn of the loop in the mutator of [normalizeFileNow]. *)
Definition syncStep (st : SoftAliasSettings) (slug : string)
    (o : JsObject) (aliasKey : string) : JsObject :=
  let storageKey := makeStorageKey st slug aliasKey in
  let hasAlias := hasOwn (own o) aliasKey in
  let hasStorage := hasOwn (own o) storageKey in
  if hasStorage then
    if removePlainAliasKeysOnSync st && hasAlias then deleteProp o aliasKey else o
  else if hasAlias then
    let o1 := assign o storageKey (getProp (own o) aliasKey) in
    if removePlainAliasKeysOnSync st then deleteProp o1 aliasKey else o1
  else o.

(** The mutator that [normalizeFileNow] hands to [processFrontMatter], as a
    function from the frontmatter read to the frontmatter persisted. *)
Definition applySync (st : SoftAliasSettings) (slug : string)
    (managed : list string) (fm : Frontmatter) : Frontmatter :=
  own (foldl (syncStep st slug) (ordinary fm) managed).

Fixpoint computeNeedsNormalization (st : SoftAliasSettings) (fm : Frontmatter)
    (slug : string) (managed : list string) : bool :=
  match managed with
  | [] => false
  | aliasKey :: rest =>
      let storageKey := makeStorageKey st slug aliasKey in
      let hasAlias := hasOwn fm aliasKey in
      let hasStorage := hasOwn fm storageKey in
      if negb hasStorage && hasAlias then true
      else if hasStorage && hasAlias && removePlainAliasKeysOnSync st then true
      else computeNeedsNormalization st fm slug rest
  end.

(** One turn of the loop in the mutator of [restoreAliasesForFile]. *)
Definition restoreStep (st : SoftAliasSettings) (slug : string)
    (o : JsObject) (aliasKey : string) : JsObject :=
  let storageKey := makeStorageKey st slug aliasKey in
  if negb (hasOwn (own o) storageKey) then o
  else
    let o1 := assign o aliasKey (getProp (own o) storageKey) in
    if deleteStorageKeysOnRestore st then deleteProp o1 storageKey else o1.

Definition restoreAliases (st : SoftAliasSettings) (slug : string)
    (managed : list string) (fm : Frontmatter) : Frontmatter :=
  own (foldl (restoreStep st slug) (ordinary fm) managed).

(** One turn of the loop in the mutator of [applyTemplateToNewFile];
    [managed] stands for [managedSet]. *)
Definition templateStep (st : SoftAliasSettings) (slug : string)
    (managed : list string) (o : JsObject) (entry : string * JsValue) : JsObject :=
  let '(k, v) := entry in
  let aliasKey := Js.trim k in
  if Js.isEmpty aliasKey then o
  else if negb (bool_decide (managed = [])) && negb (bool_decide (aliasKey ∈ managed)) then o
  else
    let storageKey := makeStorageKey st slug aliasKey in
    if hasOwn (own o) storageKey then o
    else
      let o1 := assign o storageKey v in
      if negb (removePlainAliasKeysOnSync st) then
        if negb (hasOwn (own o1) aliasKey) then assign o1 aliasKey v else o1
      else o1.

Definition applyTemplate (st : SoftAliasSettings) (slug : string)
    (managed : list string) (obj : JsValue) (fm : Frontmatter) : Frontmatter :=
  own (foldl (templateStep st slug managed) (ordinary fm) (Js.entries obj)).

(** The mutator of [addManagedPropertyToFile]. *)
Definition addManagedProperty (aliasKey : string) (fm : Frontmatter) : Frontmatter :=
  if negb (hasOwn fm aliasKey) then own (assign (ordinary fm) aliasKey JNull) else fm.

(** ** The plugin and its host *)

(** How an awaited operation settles. *)
Inductive Settled (A : Type) : Type :=
  | Resolved (a : A) : Settled A
  | Rejected : Settled A.
Arguments Resolved {A} a.
Arguments Rejected {A}.

(** The plugin object together with the part of the host it talks to.
    [pendingTimers] and [inFlight] are the plugin's own tables; the first
    maps a path to the id of the timer set for it.  [armedTimers] are the
    timers of the host that have been set and have neither fired nor been
    cleared, each with the note and the reason its callback was created with,
    and [nextTimerId] is the id the next [window.setTimeout] returns (ids are
    positive).  [markdownFiles] is [vault.getMarkdownFiles()],
    [frontmatterOf] the metadata block each document really has, [cacheOf]
    the snapshot of the metadata cache (possibly stale), [contentOf] the raw
    text returned by [vault.read], [parseYaml] the external parser ([None]
    when it throws) and [rejecting] the documents whose read-modify-write the
    metadata collaborator rejects.  Delays are not part of the model: an
    armed timer may fire at any time. *)
Record World : Type := {
  settings : SoftAliasSettings;
  pendingTimers : gmap string nat;
  inFlight : gset string;
  armedTimers : gmap nat (string * SyncReason);
  nextTimerId : nat;
  markdownFiles : list string;
  frontmatterOf : gmap string Frontmatter;
  cacheOf : gmap string Frontmatter;
  contentOf : gmap string string;
  parseYaml : string -> option JsValue;
  rejecting : gset string
}.

Definition withInFlight (w : World) (s : gset string) : World :=
  {| settings := settings w; pendingTimers := pendingTimers w; inFlight := s;
     armedTimers := armedTimers w; nextTimerId := nextTimerId w;
     markdownFiles := markdownFiles w; frontmatterOf := frontmatterOf w;
     cacheOf := cacheOf w; contentOf := contentOf w; parseYaml := parseYaml w;
     rejecting := rejecting w |}.

Definition withPendingTimers (w : World) (t : gmap string nat) : World :=
  {| settings := settings w; pendingTimers := t; inFlight := inFlight w;
     armedTimers := armedTimers w; nextTimerId := nextTimerId w;
     markdownFiles := markdownFiles w; frontmatterOf := frontmatterOf w;
     cacheOf := cacheOf w; contentOf := contentOf w; parseYaml := parseYaml w;
     rejecting := rejecting w |}.

Definition withArmedTimers (w : World) (armed : gmap nat (string * SyncReason))
    (next : nat) : World :=
  {| settings := settings w; pendingTimers := pendingTimers w; inFlight := inFlight w;
     armedTimers := armed; nextTimerId := next;
     markdownFiles := markdownFiles w; frontmatterOf := frontmatterOf w;
     cacheOf := cacheOf w; contentOf := contentOf w; parseYaml := parseYaml w;
     rejecting := rejecting w |}.

Definition withFrontmatterOf (w : World) (d : gmap string Frontmatter) : World :=
  {| settings := settings w; pendingTimers := pendingTimers w; inFlight := inFlight w;
     armedTimers := armedTimers w; nextTimerId := nextTimerId w;
     markdownFiles := markdownFiles w; frontmatterOf := d;
     cacheOf := cacheOf w; contentOf := contentOf w; parseYaml := parseYaml w;
     rejecting := rejecting w |}.

(** The frontmatter a document has; a document without a metadata block
    has the empty one. *)
Definition docFrontmatter (w : World) (filePath : string) : Frontmatter :=
  default ∅ (frontmatterOf w !! filePath).

(** [fileManager.processFrontMatter(file, mutator)]: the collaborator reads
    the document's frontmatter, runs the mutator and persists the result,
    or rejects, in which case nothing is persisted. *)
Definition processFrontMatter (w : World) (filePath : string)
    (mutator : Frontmatter -> Frontmatter) : World * Settled unit :=
  if bool_decide (filePath ∈ rejecting w) then (w, Rejected)
  else
    (withFrontmatterOf w (<[filePath := mutator (docFrontmatter w filePath)]> (frontmatterOf w)),
     Resolved tt).

(** [this.inFlight.add(fileKey)] and the [finally] block
    [this.inFlight.delete(fileKey)]. *)
Definition acquire (fileKey : string) (w : World) : World :=
  withInFlight w ({[fileKey]} ∪ inFlight w).

Definition release (fileKey : string) (w : World) : World :=
  withInFlight w (inFlight w ∖ {[fileKey]}).

(** [try { body } finally { this.inFlight.delete(fileKey) }]: the flag is
    dropped however the body settles, and the body's outcome is passed on. *)
Definition tryFinallyRelease {A : Type} (fileKey : string)
    (body : World * Settled A) : World * Settled A :=
  (release fileKey (fst body), snd body).

(** [window.clearTimeout(id)] and [window.setTimeout(callback, ms)], the
    callback being the one [scheduleNormalize] builds for a note and a
    reason. *)
Definition clearTimeout (w : World) (id : nat) : World :=
  withArmedTimers w (delete id (armedTimers w)) (nextTimerId w).

Definition setTimeout (w : World) (filePath : string) (reason : SyncReason) : World * nat :=
  (withArmedTimers w (<[nextTimerId w := (filePath, reason)]> (armedTimers w))
     (S (nextTimerId w)),
   nextTimerId w).

Definition scheduleNormalize (w : World) (filePath : string) (reason : SyncReason) : World :=
  match getNamespaceSlugForFile (settings w) filePath with
  | None => w
  | Some _ =>
      let w1 :=
        match pendingTimers w !! filePath with
        | Some existing => if Nat.eqb existing 0 then w else clearTimeout w existing
        | None => w
        end in
      let '(w2, id) := setTimeout w1 filePath reason in
      withPendingTimers w2 (<[filePath := id]> (pendingTimers w2))
  end.

(** The guards of [normalizeFileNow] up to [this.inFlight.add(fileKey)]:
    the slug and managed keys the mutator will run with, when the operation
    gets as far as taking the flag. *)
Definition normalizeEnter (w : World) (filePath : string) : option (string * list string) :=
  match getNamespaceSlugForFile (settings w) filePath with
  | None => None
  | Some slug =>
      if bool_decide (filePath ∈ inFlight w) then None
      else
        let managed := getManagedAliasKeys (settings w) in
        if bool_decide (managed = []) then None
        else
          let fmPreview := default ∅ (cacheOf w !! filePath) in
          if negb (computeNeedsNormalization (settings w) fmPreview slug managed) then None
          else Some (slug, managed)
  end.

Definition normalizeFileNow (w : World) (filePath : string) (reason : SyncReason)
    : World * Settled unit :=
  match normalizeEnter w filePath with
  | None => (w, Resolved tt)
  | Some (slug, managed) =>
      let w1 := acquire filePath w in
      tryFinallyRelease filePath
        (processFrontMatter w1 filePath (applySync (settings w) slug managed))
  end.

Definition addManagedPropertyToFile (w : World) (filePath aliasKey : string)
    : World * Settled unit :=
  match getNamespaceSlugForFile (settings w) filePath with
  | None => (w, Resolved tt)
  | Some _ =>
      if bool_decide (filePath ∈ inFlight w) then (w, Resolved tt)
      else
        let w1 := acquire filePath w in
        tryFinallyRelease filePath
          (match processFrontMatter w1 filePath (addManagedProperty aliasKey) with
           | (w2, Resolved _) => (scheduleNormalize w2 filePath ReasonManual, Resolved tt)
           | (w2, Rejected) => (w2, Rejected)
           end)
  end.

Definition restoreAliasesForFile (w : World) (filePath : string) : World * Settled unit :=
  match getRuleForFile (settings w) filePath with
  | None => (w, Resolved tt)
  | Some rule =>
      let slug := Js.trim (namespaceSlug rule) in
      let managed := getManagedAliasKeys (settings w) in
      if bool_decide (managed = []) then (w, Resolved tt)
      else if bool_decide (filePath ∈ inFlight w) then (w, Resolved tt)
      else
        let w1 := acquire filePath w in
        tryFinallyRelease filePath
          (processFrontMatter w1 filePath (restoreAliases (settings w) slug managed))
  end.

(** The loop of [restoreAliasesForAllScopedFiles]: an awaited restore that
    rejects is not caught, so the loop ends there and the rejection is the
    outcome of the whole operation. *)
Fixpoint restoreAllLoop (w : World) (files : list string) (count : nat)
    : World * Settled nat :=
  match files with
  | [] => (w, Resolved count)
  | f :: rest =>
      match getRuleForFile (settings w) f with
      | None => restoreAllLoop w rest count
      | Some _ =>
          match restoreAliasesForFile w f with
          | (w1, Resolved _) => restoreAllLoop w1 rest (S count)
          | (w1, Rejected) => (w1, Rejected)
          end
      end
  end.

Definition restoreAliasesForAllScopedFiles (w : World) : World * Settled nat :=
  restoreAllLoop w (markdownFiles w) 0.

(** [applyTemplateToNewFile] runs in up to three stretches.  The first ends
    either with a return, or at [await this.app.vault.read(file)] when the
    template is only for notes without frontmatter, or goes straight on. *)
Inductive TemplateStart : Type :=
  | NoTemplate : TemplateStart
  | ReadsNote (rule : FolderRule) (yamlText : string) : TemplateStart
  | SkipsRead (rule : FolderRule) (yamlText : string) : TemplateStart.

Definition applyTemplateStart (w : World) (filePath : string) : TemplateStart :=
  match getRuleForFile (settings w) filePath with
  | None => NoTemplate
  | Some rule =>
      if negb (templateEnabled rule) then NoTemplate
      else
        let yamlText := Js.trim (templateYaml rule) in
        if Js.isEmpty yamlText then NoTemplate
        else if applyTemplateOnlyIfNoFrontmatter (settings w) then ReadsNote rule yamlText
        else SkipsRead rule yamlText
  end.

(** From [parseYaml] on, in the world as it is then: the parse, the
    in-flight test and the read-modify-write. *)
Definition applyTemplateParsed (w : World) (filePath : string) (rule : FolderRule)
    (yamlText : string) : World * Settled unit :=
  match parseYaml w yamlText with
  | None => (w, Resolved tt)
  | Some obj =>
      if negb (isObjectLike obj) then (w, Resolved tt)
      else
        let slug := Js.trim (namespaceSlug rule) in
        let managed := getManagedAliasKeys (settings w) in
        if bool_decide (filePath ∈ inFlight w) then (w, Resolved tt)
        else
          let w1 := acquire filePath w in
          tryFinallyRelease filePath
            (match processFrontMatter w1 filePath
                     (applyTemplate (settings w) slug managed obj) with
             | (w2, Resolved _) =>
                 (scheduleNormalize w2 filePath ReasonManual, Resolved tt)
             | (w2, Rejected) => (w2, Rejected)
             end)
  end.

(** What follows the read, in the world as it is when the read completes. *)
Definition applyTemplateAfterRead (w : World) (filePath : string) (rule : FolderRule)
    (yamlText content : string) : World * Settled unit :=
  if Js.startsWith content "---" then (w, Resolved tt)
  else applyTemplateParsed w filePath rule yamlText.

(** The whole operation when nothing else runs while it waits for the
    read. *)
Definition applyTemplateToNewFile (w : World) (filePath : string) : World * Settled unit :=
  match applyTemplateStart w filePath with
  | NoTemplate => (w, Resolved tt)
  | ReadsNote rule yamlText =>
      applyTemplateAfterRead w filePath rule yamlText (default "" (contentOf w !! filePath))
  | SkipsRead rule yamlText => applyTemplateParsed w filePath rule yamlText
  end.

(** ** Notions used in the statements *)

(** The test [computeNeedsNormalization] makes for one alias key. *)
Definition needsKey (st : SoftAliasSettings) (slug : string)
    (fm : Frontmatter) (aliasKey : string) : bool :=
  let hasAlias := hasOwn fm aliasKey in
  let hasStorage := hasOwn fm (makeStorageKey st slug aliasKey) in
  (negb hasStorage && hasAlias) || (hasStorage && hasAlias && removePlainAliasKeysOnSync st).

(** The total length of the keys of a frontmatter object. *)
Definition keyWeight (fm : Frontmatter) : nat :=
  sum_list_with (fun kv => String.length (fst kv)) (map_to_list fm).

(** [advanced r fm fm'] orders the states a sync pass goes through: with
    removal off a turn that acts adds a property; with removal on it either
    drops a property or renames one to a longer key. *)
Definition advanced (r : bool) (fm fm' : Frontmatter) : Prop :=
  if r then size fm' < size fm ∨ (size fm' = size fm ∧ keyWeight fm < keyWeight fm')
  else size fm < size fm'.

(** What a pass sees of one managed key: the value of the alias key and the
    value of its storage key. *)
Definition view (st : SoftAliasSettings) (slug : string) (fm : Frontmatter) (a : string)
    : option JsValue * option JsValue :=
  (fm !! a, fm !! makeStorageKey st slug a).

(** The effect of a sync turn on the pair (alias value, storage value). *)
Definition syncView (r : bool) (p : option JsValue * option JsValue)
    : option JsValue * option JsValue :=
  match p with
  | (al, Some v) => (if r then None else al, Some v)
  | (Some v, None) => (if r then None else Some v, Some v)
  | (None, None) => (None, None)
  end.

(** The effect of a restore turn on the pair (alias value, storage value). *)
Definition restoreView (d : bool) (p : option JsValue * option JsValue)
    : option JsValue * option JsValue :=
  match p with
  | (_, Some v) => (Some v, if d then None else Some v)
  | (al, None) => (al, None)
  end.

(** The effect of a sync turn on the pair (alias value, storage value) and
    the prototype, for the one alias key whose storage key is ["__proto__"]. *)
Definition syncProtoView (r : bool) (s : option JsValue * option JsValue * Proto)
    : option JsValue * option JsValue * Proto :=
  match s with
  | (al, Some v, p) => (if r then None else al, Some v, p)
  | (Some v, None, p) =>
      if reachesProtoSetter p
      then (if r then None else Some v, None, setPrototypeOf p v)
      else (if r then None else Some v, Some v, p)
  | (None, None, p) => (None, None, p)
  end.

(** The effect of a restore turn on the pair (alias value, storage value) and
    the prototype, for the alias key ["__proto__"]. *)
Definition restoreProtoView (d : bool) (s : option JsValue * option JsValue * Proto)
    : option JsValue * option JsValue * Proto :=
  match s with
  | (Some _, Some v, p) => (Some v, if d then None else Some v, p)
  | (None, Some v, p) =>
      if reachesProtoSetter p
      then (None, if d then None else Some v, setPrototypeOf p v)
      else (Some v, if d then None else Some v, p)
  | (al, None, p) => (al, None, p)
  end.

(** No managed key is the storage key of a managed key. *)
Definition keysApart (st : SoftAliasSettings) (slug : string) (managed : list string) : Prop :=
  ∀ a, a ∈ managed → makeStorageKey st slug a ∉ managed.

(** A rule is complete when neither its folder prefix nor its namespace slug
    is blank. *)
Definition ruleIsComplete (rule : FolderRule) : bool :=
  negb (Js.isEmpty (Js.trim (folderPrefix rule)))
  && negb (Js.isEmpty (Js.trim (namespaceSlug rule))).

(** Rule resolution as the documentation words it: normalise the path's
    separators, set the incomplete rules aside, and take the first of the
    remaining rules whose normalised folder prefix is a literal prefix of
    the path. *)
Definition resolveRule (filePath : string) (rules : list FolderRule) : option FolderRule :=
  List.find
    (fun rule => Js.startsWith (Js.slashes filePath) (normalizePrefix (folderPrefix rule)))
    (List.filter ruleIsComplete rules).

(** A rule matches a path when it is complete and its prefix fits. *)
Definition ruleMatches (filePath : string) (rule : FolderRule) : bool :=
  ruleIsComplete rule
  && Js.startsWith (Js.slashes filePath) (normalizePrefix (folderPrefix rule)).

(** A note is scoped when some rule governs it. *)
Definition isScoped (st : SoftAliasSettings) (filePath : string) : bool :=
  match getRuleForFile st filePath with
  | Some _ => true
  | None => false
  end.

(** ** Concrete configurations *)

(** Settings with one field replaced. *)
Definition setManagedAliasKeys (st : SoftAliasSettings) (raw : string) : SoftAliasSettings :=
  {| folderRules := folderRules st;
     managedAliasKeys := raw;
     removePlainAliasKeysOnSync := removePlainAliasKeysOnSync st;
     storagePrefix := storagePrefix st;
     storageSeparator := storageSeparator st;
     deleteStorageKeysOnRestore := deleteStorageKeysOnRestore st;
     hideStorageKeysInPropertyNameSuggest := hideStorageKeysInPropertyNameSuggest st;
     enableQuickAddManagedProperty := enableQuickAddManagedProperty st;
     enableAutoTemplateOnCreate := enableAutoTemplateOnCreate st;
     applyTemplateOnlyIfNoFrontmatter := applyTemplateOnlyIfNoFrontmatter st;
     debounceMs := debounceMs st;
     debugLogs := debugLogs st |}.

Definition setFolderRules (st : SoftAliasSettings) (rules : list FolderRule) : SoftAliasSettings :=
  {| folderRules := rules;
     managedAliasKeys := managedAliasKeys st;
     removePlainAliasKeysOnSync := removePlainAliasKeysOnSync st;
     storagePrefix := storagePrefix st;
     storageSeparator := storageSeparator st;
     deleteStorageKeysOnRestore := deleteStorageKeysOnRestore st;
     hideStorageKeysInPropertyNameSuggest := hideStorageKeysInPropertyNameSuggest st;
     enableQuickAddManagedProperty := enableQuickAddManagedProperty st;
     enableAutoTemplateOnCreate := enableAutoTemplateOnCreate st;
     applyTemplateOnlyIfNoFrontmatter := applyTemplateOnlyIfNoFrontmatter st;
     debounceMs := debounceMs st;
     debugLogs := debugLogs st |}.

Definition setDeleteStorageKeysOnRestore (st : SoftAliasSettings) (d : bool) : SoftAliasSettings :=
  {| folderRules := folderRules st;
     managedAliasKeys := managedAliasKeys st;
     removePlainAliasKeysOnSync := removePlainAliasKeysOnSync st;
     storagePrefix := storagePrefix st;
     storageSeparator := storageSeparator st;
     deleteStorageKeysOnRestore := d;
     hideStorageKeysInPropertyNameSuggest := hideStorageKeysInPropertyNameSuggest st;
     enableQuickAddManagedProperty := enableQuickAddManagedProperty st;
     enableAutoTemplateOnCreate := enableAutoTemplateOnCreate st;
     applyTemplateOnlyIfNoFrontmatter := applyTemplateOnlyIfNoFrontmatter st;
     debounceMs := debounceMs st;
     debugLogs := debugLogs st |}.

(** The rule and template of the documentation's running example. *)
Definition projectsRule : FolderRule :=
  {| folderPrefix := "index/projects/";
     namespaceSlug := "projects";
     templateEnabled := true;
     templateYaml := "priority: medium, status: draft, owner:" |}.

Definition projectsTemplate : JsValue :=
  JObj [("priority", JStr "medium"); ("status", JStr "draft"); ("owner", JNull)].

Definition projectsSettings : SoftAliasSettings :=
  setFolderRules DEFAULT_SETTINGS [projectsRule].

(** Default settings with storage keys deleted on restore. *)
Definition fullRevertSettings : SoftAliasSettings :=
  setDeleteStorageKeysOnRestore DEFAULT_SETTINGS true.

(** A managed-key list in which the second key has the first as its
    storage key under the slug ["projects"], in either order. *)
Definition storageFirstSettings : SoftAliasSettings :=
  setManagedAliasKeys DEFAULT_SETTINGS "projects__priority,priority".

Definition aliasFirstSettings : SoftAliasSettings :=
  setManagedAliasKeys fullRevertSettings "priority,projects__priority".

(** A document whose alias key and storage key disagree. *)
Definition divergedFrontmatter : Frontmatter :=
  <["projects__priority" := JStr "high"]> (<["priority" := JStr "low"]> ∅).

Definition highPriorityFrontmatter : Frontmatter :=
  <["priority" := JStr "high"]> ∅.

Definition nullPriorityFrontmatter : Frontmatter :=
  <["priority" := JNull]> ∅.

(** Two overlapping rules, the broader one listed first. *)
Definition broadRule : FolderRule :=
  {| folderPrefix := "a/"; namespaceSlug := "outer";
     templateEnabled := false; templateYaml := "" |}.

Definition narrowRule : FolderRule :=
  {| folderPrefix := "a/b/"; namespaceSlug := "inner";
     templateEnabled := false; templateYaml := "" |}.

Definition overlappingSettings : SoftAliasSettings :=
  setFolderRules DEFAULT_SETTINGS [broadRule; narrowRule].

(** A freshly created, empty note under the projects rule; the parser
    returns the template of the running example. *)
Definition newNoteWorld (st : SoftAliasSettings) : World :=
  {| settings := st;
     pendingTimers := ∅;
     armedTimers := ∅;
     nextTimerId := 1;
     inFlight := ∅;
     markdownFiles := ["index/projects/a.md"];
     frontmatterOf := ∅;
     cacheOf := ∅;
     contentOf := <["index/projects/a.md" := ""]> ∅;
     parseYaml := fun _ => Some projectsTemplate;
     rejecting := ∅ |}.

(** The same note in a vault whose settings manage no alias key at all. *)
Definition noManagedKeysWorld : World :=
  newNoteWorld (setManagedAliasKeys projectsSettings "").

(** Two notes under the projects rule that both carry a storage key; the
    metadata collaborator rejects the read-modify-write of the first. *)
Definition firstNoteRejectingWorld : World :=
  {| settings := projectsSettings;
     pendingTimers := ∅;
     armedTimers := ∅;
     nextTimerId := 1;
     inFlight := ∅;
     markdownFiles := ["index/projects/a.md"; "index/projects/b.md"];
     frontmatterOf :=
       <["index/projects/a.md" := <["projects__priority" := JStr "high"]> ∅]>
         (<["index/projects/b.md" := <["projects__priority" := JStr "low"]> ∅]> ∅);
     cacheOf := ∅;
     contentOf := ∅;
     parseYaml := fun _ => None;
     rejecting := {["index/projects/a.md"]} |}.

(** A note under the projects rule whose alias key still waits to be
    synchronised, in a vault whose metadata collaborator rejects the write. *)
Definition rejectedSyncWorld : World :=
  {| settings := projectsSettings;
     pendingTimers := ∅;
     armedTimers := ∅;
     nextTimerId := 1;
     inFlight := ∅;
     markdownFiles := ["index/projects/a.md"];
     frontmatterOf := <["index/projects/a.md" := highPriorityFrontmatter]> ∅;
     cacheOf := <["index/projects/a.md" := highPriorityFrontmatter]> ∅;
     contentOf := ∅;
     parseYaml := fun _ => None;
     rejecting := {["index/projects/a.md"]} |}.

(** ** Further operations of the plugin *)

(** The loop of [normalizeAllFilesUnderPrefix]; like the bulk restore it has
    no handler around the awaited per-note operation. *)
Fixpoint normalizeAllLoop (w : World) (prefix : string) (files : list string) (count : nat)
    : World * Settled nat :=
  match files with
  | [] => (w, Resolved count)
  | f :: rest =>
      if negb (Js.startsWith (Js.slashes f) prefix) then normalizeAllLoop w prefix rest count
      else
        match normalizeFileNow w f ReasonManual with
        | (w1, Resolved _) => normalizeAllLoop w1 prefix rest (S count)
        | (w1, Rejected) => (w1, Rejected)
        end
  end.

Definition normalizeAllFilesUnderPrefix (w : World) (folderPrefix : string)
    : World * Settled nat :=
  let prefix := normalizePrefix folderPrefix in
  if Js.isEmpty prefix then (w, Resolved 0)
  else normalizeAllLoop w prefix (markdownFiles w) 0.

(** The callback [scheduleNormalize] hands to [window.setTimeout]: it takes
    the note's entry out of the timer table and starts the sync with the
    reason it was created with; a rejection is caught and only logged. *)
Definition timerCallback (w : World) (filePath : string) (reason : SyncReason) : World :=
  fst (normalizeFileNow (withPendingTimers w (delete filePath (pendingTimers w)))
         filePath reason).

(** An armed timer of the host fires: it is armed no longer and its callback
    runs. *)
Definition fireTimer (w : World) (id : nat) : World :=
  match armedTimers w !! id with
  | None => w
  | Some (filePath, reason) =>
      timerCallback (withArmedTimers w (delete id (armedTimers w)) (nextTimerId w))
        filePath reason
  end.

(** The timer the table holds for a path fires. *)
Definition timerFires (w : World) (filePath : string) : World :=
  match pendingTimers w !! filePath with
  | None => w
  | Some id => fireTimer w id
  end.

(** A burst of triggers for one path, in the order they arrive. *)
Definition scheduleAll (w : World) (filePath : string) (reasons : list SyncReason) : World :=
  foldl (fun w' reason => scheduleNormalize w' filePath reason) w reasons.

(** [onunload]: every timer of the table is cleared, the table and the
    in-flight set are emptied. *)
Definition onunload (w : World) : World :=
  let armed := map_fold (fun _ id acc => delete id acc) (armedTimers w) (pendingTimers w) in
  withInFlight (withPendingTimers (withArmedTimers w armed (nextTimerId w)) ∅) ∅.

(** *** Legacy rules *)

(** The loop of [safeJsonParseLegacyRules] over the items of the parsed
    array. *)
Fixpoint legacyRulesOfItems (items : list JsValue) : list FolderRule :=
  match items with
  | [] => []
  | item :: rest =>
      if negb (isObjectLike item) then legacyRulesOfItems rest
      else
        let prefix := match Js.getField item "folderPrefix" with JStr s => s | _ => "" end in
        let slug := match Js.getField item "namespaceSlug" with JStr s => s | _ => "" end in
        if Js.isEmpty (Js.trim prefix) || Js.isEmpty (Js.trim slug)
        then legacyRulesOfItems rest
        else
          {| folderPrefix := normalizePrefix prefix;
             namespaceSlug := Js.trim slug;
             templateEnabled := false;
             templateYaml := "" |} :: legacyRulesOfItems rest
  end.

(** [safeJsonParseLegacyRules]; [jsonParse] stands for [JSON.parse], [None]
    when it throws.  The result is the rule list and the error message, if
    any. *)
Definition safeJsonParseLegacyRules (jsonParse : string -> option JsValue) (raw : string)
    : list FolderRule * option string :=
  let text := Js.trim raw in
  if Js.isEmpty text then ([], None)
  else
    match jsonParse text with
    | None => ([], Some "Invalid legacy Folder Rules JSON.")
    | Some (JArr items) => (legacyRulesOfItems items, None)
    | Some _ => ([], Some "Folder Rules JSON must be an array.")
    end.

(** *** Suggestion filtering *)

(** One entry of a suggestion list: the text of its [.suggestion-content]
    child when it has one, its own text, and whether it is hidden
    ([display: none] with the attribute [data-softalias-hidden]). *)
Record SuggestItem : Type := {
  contentText : option string;
  itemText : string;
  itemHidden : bool
}.

(** Where the focus is, as far as [filterSuggestContainer] looks. *)
Record Focus : Type := {
  inBases : bool;
  inNoteProperties : bool
}.

(** [(content?.textContent || it.textContent || "").replace(/\s+/g, " ").trim()] *)
Definition suggestionText (it : SuggestItem) : string :=
  let source :=
    match contentText it with
    | Some c => if Js.isEmpty c then itemText it else c
    | None => itemText it
    end in
  Js.trim (Js.collapseSpaces source).

(** The decision the loop of [filterSuggestContainer] takes for an entry
    with the non-empty text [raw]: [true] when it hides it. *)
Definition suggestionHidden (st : SoftAliasSettings) (managed : list string) (raw : string)
    : bool :=
  let sep := separator st in
  let prefix := Js.trim (storagePrefix st) in
  if bool_decide (raw ∈ managed) then false
  else if existsb (fun alias => Js.endsWith raw (sep ++ alias)) managed then true
  else if negb (Js.isEmpty prefix) && Js.startsWith raw prefix then true
  else if Js.startsWith raw "ba__" then true
  else false.

Definition filterSuggestItem (st : SoftAliasSettings) (managed : list string)
    (it : SuggestItem) : SuggestItem :=
  let raw := suggestionText it in
  if Js.isEmpty raw then it
  else {| contentText := contentText it;
          itemText := itemText it;
          itemHidden := suggestionHidden st managed raw |}.

(** [filterSuggestContainer] on the entries of one container; [active] is
    [document.activeElement]. *)
Definition filterSuggestContainer (st : SoftAliasSettings) (active : option Focus)
    (items : list SuggestItem) : list SuggestItem :=
  let managed := getManagedAliasKeys st in
  if bool_decide (managed = []) then items
  else
    match active with
    | None => items
    | Some focus =>
        if inBases focus then items
        else if negb (inNoteProperties focus) then items
        else map (filterSuggestItem st managed) items
    end.

(** *** Notions used in the further statements *)

(** What every key of a parsed managed-key list satisfies. *)
Definition isCleanKey (k : string) : Prop :=
  Js.isEmpty k = false ∧ Js.trim k = k ∧ Js.hasComma k = false.

(** A legacy rule list as [JSON.parse] returns it: a rule written with
    backslashes and padded with blanks, a null entry, and a rule without a
    slug. *)
Definition legacyJson : JsValue :=
  JArr [JObj [("folderPrefix", JStr " index\projects "); ("namespaceSlug", JStr " projects ")];
        JNull;
        JObj [("folderPrefix", JStr "index/misc/"); ("namespaceSlug", JNum 3)]].

Definition legacyRule : FolderRule :=
  {| folderPrefix := "index/projects/"; namespaceSlug := "projects";
     templateEnabled := false; templateYaml := "" |}.

(** Settings with the removal policy replaced. *)
Definition setRemovePlainAliasKeysOnSync (st : SoftAliasSettings) (r : bool)
    : SoftAliasSettings :=
  {| folderRules := folderRules st;
     managedAliasKeys := managedAliasKeys st;
     removePlainAliasKeysOnSync := r;
     storagePrefix := storagePrefix st;
     storageSeparator := storageSeparator st;
     deleteStorageKeysOnRestore := deleteStorageKeysOnRestore st;
     hideStorageKeysInPropertyNameSuggest := hideStorageKeysInPropertyNameSuggest st;
     enableQuickAddManagedProperty := enableQuickAddManagedProperty st;
     enableAutoTemplateOnCreate := enableAutoTemplateOnCreate st;
     applyTemplateOnlyIfNoFrontmatter := applyTemplateOnlyIfNoFrontmatter st;
     debounceMs := debounceMs st;
     debugLogs := debugLogs st |}.

(** Default settings with the removal policy off. *)
Definition keepAliasSettings : SoftAliasSettings :=
  setRemovePlainAliasKeysOnSync DEFAULT_SETTINGS false.

(** A note that also carries a property the plugin does not manage. *)
Definition taggedFrontmatter : Frontmatter :=
  <["tags" := JArr [JStr "work"]]> divergedFrontmatter.

(** A vault in which the read-modify-write of a note is still running. *)
Definition busyWorld : World :=
  {| settings := projectsSettings;
     pendingTimers := ∅;
     armedTimers := ∅;
     nextTimerId := 1;
     inFlight := {["index/projects/a.md"]};
     markdownFiles := ["index/projects/a.md"];
     frontmatterOf := <["index/projects/a.md" := highPriorityFrontmatter]> ∅;
     cacheOf := <["index/projects/a.md" := highPriorityFrontmatter]> ∅;
     contentOf := ∅;
     parseYaml := fun _ => Some projectsTemplate;
     rejecting := ∅ |}.

(** A note whose cached frontmatter is already synchronised while the note
    itself carries a fresh alias key. *)
Definition staleCacheWorld : World :=
  {| settings := projectsSettings;
     pendingTimers := ∅;
     armedTimers := ∅;
     nextTimerId := 1;
     inFlight := ∅;
     markdownFiles := ["index/projects/a.md"];
     frontmatterOf := <["index/projects/a.md" := highPriorityFrontmatter]> ∅;
     cacheOf := <["index/projects/a.md" := <["projects__priority" := JStr "low"]> ∅]> ∅;
     contentOf := ∅;
     parseYaml := fun _ => None;
     rejecting := ∅ |}.

(** Three notes, two of them under the projects rule, all waiting to be
    synchronised. *)
Definition threeNotesWorld : World :=
  {| settings := projectsSettings;
     pendingTimers := ∅;
     armedTimers := ∅;
     nextTimerId := 1;
     inFlight := ∅;
     markdownFiles := ["index/projects/a.md"; "journal/today.md"; "index/projects/b.md"];
     frontmatterOf :=
       <["index/projects/a.md" := highPriorityFrontmatter]>
         (<["journal/today.md" := highPriorityFrontmatter]>
            (<["index/projects/b.md" := divergedFrontmatter]> ∅));
     cacheOf :=
       <["index/projects/a.md" := highPriorityFrontmatter]>
         (<["journal/today.md" := highPriorityFrontmatter]>
            (<["index/projects/b.md" := divergedFrontmatter]> ∅));
     contentOf := ∅;
     parseYaml := fun _ => None;
     rejecting := ∅ |}.

(** The focus inside the properties of a note, outside any Bases view. *)
Definition notePropertiesFocus : Focus :=
  {| inBases := false; inNoteProperties := true |}.

(** Three entries of a property-name suggestion list: a storage key, a
    managed alias key shown with stray white space, and an unrelated name. *)
Definition suggestionList : list SuggestItem :=
  [ {| contentText := Some "projects__priority"; itemText := "projects__priority";
       itemHidden := false |};
    {| contentText := None; itemText := "  priority "; itemHidden := true |};
    {| contentText := Some ""; itemText := "tags"; itemHidden := false |} ].

(** Settings with the storage separator replaced. *)
Definition setStorageSeparator (st : SoftAliasSettings) (sep : string) : SoftAliasSettings :=
  {| folderRules := folderRules st;
     managedAliasKeys := managedAliasKeys st;
     removePlainAliasKeysOnSync := removePlainAliasKeysOnSync st;
     storagePrefix := storagePrefix st;
     storageSeparator := sep;
     deleteStorageKeysOnRestore := deleteStorageKeysOnRestore st;
     hideStorageKeysInPropertyNameSuggest := hideStorageKeysInPropertyNameSuggest st;
     enableQuickAddManagedProperty := enableQuickAddManagedProperty st;
     enableAutoTemplateOnCreate := enableAutoTemplateOnCreate st;
     applyTemplateOnlyIfNoFrontmatter := applyTemplateOnlyIfNoFrontmatter st;
     debounceMs := debounceMs st;
     debugLogs := debugLogs st |}.


Definition protoRevertSettings : SoftAliasSettings :=
  setStorageSeparator (setManagedAliasKeys fullRevertSettings "proto__") "_".

Definition protoAliasFrontmatter : Frontmatter :=
  <["proto__" := JStr "x"]> ∅.

(** A template whose second key is an array index and trims to the same
    alias key as the first; one whose only key is blank; one whose only key
    is a managed key with a space in front; one whose only key has
    ["__proto__"] as storage key under the slug ["_"] and the separator
    ["_"]. *)
Definition numberedTemplate : JsValue :=
  JObj [(" 1", JStr "first"); ("1", JStr "second")].

Definition blankKeyTemplate : JsValue :=
  JObj [(" ", JStr "draft")].

Definition paddedKeyTemplate : JsValue :=
  JObj [(" owner", JNull)].

Definition protoTemplate : JsValue :=
  JObj [("proto__", JStr "x")].

(** The timer table and the timers of the host agree: every armed timer has
    a positive identifier below the next one to be handed out and is the
    timer the table holds for its note, and every timer of the table is
    armed for that note. *)
Definition timersCoherent (w : World) : Prop :=
  (0 < nextTimerId w)%nat
  ∧ (∀ id filePath reason,
       armedTimers w !! id = Some (filePath, reason) →
       (0 < id < nextTimerId w)%nat ∧ pendingTimers w !! filePath = Some id)
  ∧ (∀ filePath id,
       pendingTimers w !! filePath = Some id →
       ∃ reason, armedTimers w !! id = Some (filePath, reason)).

(** A managed key with a run of two spaces inside, and the entry of a
    suggestion list that shows its storage key. *)
Definition spacedKeySettings : SoftAliasSettings :=
  setManagedAliasKeys DEFAULT_SETTINGS "due  date".

Definition spacedKeyItem : SuggestItem :=
  {| contentText := Some "projects__due  date"; itemText := ""; itemHidden := false |}.

(** * Properties *)

(** ** The key format *)

Section KeyFormat.
Variable st : SoftAliasSettings.
Variable slug : string.

Lemma separator_nonempty : Js.isEmpty (separator st) = false.
Proof.
  unfold separator.
  destruct (Js.isEmpty (Js.trim _)) eqn:E; [reflexivity | exact E].
Qed.

Lemma string_length_append (s t : string) :
  String.length (s ++ t) = String.length s + String.length t.
Proof. induction s as [|c s IH]; simpl; [reflexivity | by rewrite IH]. Qed.

(** A storage key is strictly longer than its alias key. *)
Lemma makeStorageKey_length (a : string) :
  String.length a < String.length (makeStorageKey st slug a).
Proof.
  unfold makeStorageKey. rewrite !string_length_append.
  pose proof separator_nonempty as Hs.
  destruct (separator st); simpl in *; [discriminate | lia].
Qed.

Lemma makeStorageKey_ne (a : string) : makeStorageKey st slug a ≠ a.
Proof.
  intros E. pose proof (makeStorageKey_length a) as H. rewrite E in H. lia.
Qed.

Lemma makeStorageKey_inj (a b : string) :
  makeStorageKey st slug a = makeStorageKey st slug b → a = b.
Proof.
  unfold makeStorageKey. intros E.
  by repeat apply (inj (String.app _)) in E.
Qed.

End KeyFormat.

(** ** Assignment *)

Lemma hasOwn_true (fm : Frontmatter) (k : string) :
  hasOwn fm k = true ↔ is_Some (fm !! k).
Proof. unfold hasOwn. apply bool_decide_eq_true. Qed.

Lemma hasOwn_false (fm : Frontmatter) (k : string) :
  hasOwn fm k = false ↔ fm !! k = None.
Proof.
  unfold hasOwn. rewrite bool_decide_eq_false. symmetry. apply eq_None_not_Some.
Qed.

Lemma getProp_lookup (fm : Frontmatter) (k : string) (v : JsValue) :
  fm !! k = Some v → getProp fm k = v.
Proof. unfold getProp. by intros ->. Qed.

(** An assignment either writes the own property or, for ["__proto__"] on
    an object without such a property whose chain reaches the setter, changes
    the prototype and nothing else. *)
Lemma assign_cases o key v :
  assign o key v = {| own := <[key := v]> (own o); proto := proto o |}
  ∨ (key = protoKey ∧ own o !! key = None ∧ reachesProtoSetter (proto o) = true
     ∧ assign o key v = {| own := own o; proto := setPrototypeOf (proto o) v |}).
Proof.
  unfold assign.
  destruct (hasOwn (own o) key) eqn:Hown; [by left|].
  destruct (String.eqb key protoKey) eqn:Hkey; [|by left].
  destruct (reachesProtoSetter (proto o)) eqn:Hset; [|by left].
  right. apply String.eqb_eq in Hkey. apply hasOwn_false in Hown. done.
Qed.

Lemma assign_plain o key v :
  key ≠ protoKey →
  assign o key v = {| own := <[key := v]> (own o); proto := proto o |}.
Proof. intros Hne. by destruct (assign_cases o key v) as [?|(? & _)]. Qed.

Lemma assign_present o key v :
  is_Some (own o !! key) →
  assign o key v = {| own := <[key := v]> (own o); proto := proto o |}.
Proof.
  intros [u Hu]. destruct (assign_cases o key v) as [?|(_ & Hnone & _)]; [done|].
  congruence.
Qed.

Lemma assign_lookup_ne o key v k :
  k ≠ key → own (assign o key v) !! k = own o !! k.
Proof.
  intros Hne. destruct (assign_cases o key v) as [->|(_ & _ & _ & ->)]; cbn [own];
    [by rewrite lookup_insert_ne | done].
Qed.

(** ** What one turn of the sync loop does *)

Lemma computeNeedsNormalization_cons st fm slug a managed :
  computeNeedsNormalization st fm slug (a :: managed)
  = needsKey st slug fm a || computeNeedsNormalization st fm slug managed.
Proof.
  simpl. unfold needsKey.
  destruct (hasOwn fm (makeStorageKey st slug a)), (hasOwn fm a),
    (removePlainAliasKeysOnSync st); reflexivity.
Qed.

Lemma computeNeedsNormalization_false st fm slug managed :
  computeNeedsNormalization st fm slug managed = false
  ↔ ∀ a, a ∈ managed → needsKey st slug fm a = false.
Proof.
  induction managed as [|b managed IH].
  - split; [intros _ a Ha; inversion Ha | reflexivity].
  - rewrite computeNeedsNormalization_cons, orb_false_iff, IH. split.
    + intros [Hb Hm] a [->|Ha]%elem_of_cons; auto.
    + intros H. split; [apply H; left | intros a Ha; apply H; by right].
Qed.

Lemma syncStep_quiet st slug o a :
  needsKey st slug (own o) a = false → syncStep st slug o a = o.
Proof.
  unfold needsKey, syncStep.
  destruct (hasOwn (own o) (makeStorageKey st slug a)), (hasOwn (own o) a),
    (removePlainAliasKeysOnSync st); simpl; done.
Qed.

Lemma keyWeight_insert (fm : Frontmatter) k v :
  fm !! k = None → keyWeight (<[k := v]> fm) = String.length k + keyWeight fm.
Proof.
  intros H. unfold keyWeight. by rewrite (map_to_list_insert fm k v H).
Qed.

Lemma keyWeight_delete (fm : Frontmatter) k v :
  fm !! k = Some v → String.length k + keyWeight (delete k fm) = keyWeight fm.
Proof.
  intros H. unfold keyWeight. by rewrite <- (map_to_list_delete fm k v H).
Qed.

Lemma size_delete_present (fm : Frontmatter) k v :
  fm !! k = Some v → S (size (delete k fm)) = size fm.
Proof.
  intros H. rewrite map_size_delete, H. simpl.
  assert (size fm ≠ 0); [|lia].
  intros E. apply map_size_empty_inv in E. subst. by rewrite lookup_empty in H.
Qed.


Lemma advanced_trans r fm1 fm2 fm3 :
  advanced r fm1 fm2 → advanced r fm2 fm3 → advanced r fm1 fm3.
Proof. unfold advanced. destruct r; lia. Qed.

(** A turn that acts moves the frontmatter on, unless all it does is a
    write to ["__proto__"] that creates nothing. *)
Lemma syncStep_advanced st slug o a :
  needsKey st slug (own o) a = true →
  removePlainAliasKeysOnSync st = true ∨ makeStorageKey st slug a ≠ protoKey →
  advanced (removePlainAliasKeysOnSync st) (own o) (own (syncStep st slug o a)).
Proof.
  unfold needsKey, syncStep, advanced.
  pose proof (makeStorageKey_length st slug a) as Hlen.
  pose proof (makeStorageKey_ne st slug a) as Hne.
  set (sk := makeStorageKey st slug a) in *.
  destruct (hasOwn (own o) sk) eqn:Hs, (hasOwn (own o) a) eqn:Ha,
    (removePlainAliasKeysOnSync st) eqn:Hr; simpl; try discriminate; intros _ Hor.
  - apply hasOwn_true in Ha as [v Hv].
    left. pose proof (size_delete_present (own o) a v Hv). lia.
  - apply hasOwn_false in Hs. apply hasOwn_true in Ha as [v Hv].
    destruct (assign_cases o sk (getProp (own o) a)) as [->|(_ & _ & _ & ->)]; cbn [own].
    + right.
      assert (<[sk := getProp (own o) a]> (own o) !! a = Some v) as Hv'
        by (by rewrite lookup_insert_ne).
      pose proof (size_delete_present _ a v Hv') as Hsz.
      pose proof (keyWeight_delete _ a v Hv') as Hw.
      rewrite (map_size_insert_None _ _ _ Hs) in Hsz.
      rewrite (keyWeight_insert _ _ _ Hs) in Hw. lia.
    + left. pose proof (size_delete_present (own o) a v Hv). lia.
  - apply hasOwn_false in Hs.
    destruct Hor as [?|Hplain]; [done|].
    rewrite (assign_plain _ _ _ Hplain). cbn [own].
    rewrite (map_size_insert_None _ _ _ Hs). lia.
Qed.

Lemma syncStep_reach st slug o a :
  own (syncStep st slug o a) = own o
  ∨ advanced (removePlainAliasKeysOnSync st) (own o) (own (syncStep st slug o a)).
Proof.
  destruct (needsKey st slug (own o) a) eqn:Hn;
    [|left; by rewrite (syncStep_quiet _ _ _ _ Hn)].
  destruct (removePlainAliasKeysOnSync st) eqn:Hr.
  - right. rewrite <- Hr. apply syncStep_advanced; [done | by left].
  - destruct (decide (makeStorageKey st slug a = protoKey)) as [Hp|Hp].
    + unfold needsKey, syncStep in *. rewrite Hr in *.
      destruct (hasOwn (own o) (makeStorageKey st slug a)) eqn:Hs; simpl in *;
        [by left|].
      destruct (hasOwn (own o) a); [|by left].
      destruct (assign_cases o (makeStorageKey st slug a) (getProp (own o) a))
        as [->|(_ & _ & _ & ->)]; cbn [own]; [|by left].
      right. unfold advanced. apply hasOwn_false in Hs.
      rewrite (map_size_insert_None _ _ _ Hs). lia.
    + right. rewrite <- Hr. apply syncStep_advanced; [done | by right].
Qed.

Lemma foldl_syncStep_reach st slug managed o :
  own (foldl (syncStep st slug) o managed) = own o
  ∨ advanced (removePlainAliasKeysOnSync st) (own o)
      (own (foldl (syncStep st slug) o managed)).
Proof.
  revert o. induction managed as [|a managed IH]; intros o; [by left|].
  cbn [foldl].
  destruct (syncStep_reach st slug o a) as [Hsame|Hadv],
    (IH (syncStep st slug o a)) as [Hrest|Hrest].
  - left. congruence.
  - right. by rewrite <- Hsame.
  - right. by rewrite Hrest.
  - right. eapply advanced_trans; eauto.
Qed.







(** ** Properties that survive a pass *)

(** A turn of the sync loop removes nothing but its own alias key, and that
    only under the removal policy. *)
Lemma syncStep_preserves st slug o a x v :
  own o !! x = Some v →
  removePlainAliasKeysOnSync st = false ∨ x ≠ a →
  own (syncStep st slug o a) !! x = Some v.
Proof.
  intros Hx Hor. unfold syncStep.
  set (sk := makeStorageKey st slug a).
  destruct (hasOwn (own o) sk) eqn:Hs.
  - destruct (removePlainAliasKeysOnSync st) eqn:Hr; simpl; [|done].
    destruct (hasOwn (own o) a); [|done].
    destruct Hor as [?|Hne]; [done|]. cbn [deleteProp own]. by rewrite lookup_delete_ne.
  - apply hasOwn_false in Hs.
    destruct (hasOwn (own o) a); [|done].
    assert (x ≠ sk) as Hne by (intros ->; congruence).
    assert (own (assign o sk (getProp (own o) a)) !! x = Some v) as Hx1
      by (by rewrite assign_lookup_ne).
    destruct (removePlainAliasKeysOnSync st) eqn:Hr; [|done].
    destruct Hor as [?|Hne']; [done|].
    cbn [deleteProp own]. by rewrite lookup_delete_ne.
Qed.

Lemma foldl_syncStep_preserves st slug managed o x v :
  own o !! x = Some v →
  removePlainAliasKeysOnSync st = false ∨ x ∉ managed →
  own (foldl (syncStep st slug) o managed) !! x = Some v.
Proof.
  revert o. induction managed as [|a managed IH]; intros o Hx Hor; [done|].
  cbn [foldl]. apply IH.
  - apply syncStep_preserves; [done|].
    destruct Hor as [?|Hn]; [by left | right]. intros ->. apply Hn. by left.
  - destruct Hor as [?|Hn]; [by left | right]. intros ?. apply Hn. by right.
Qed.

Lemma applySync_preserves st slug managed fm x v :
  fm !! x = Some v →
  removePlainAliasKeysOnSync st = false ∨ x ∉ managed →
  applySync st slug managed fm !! x = Some v.
Proof. intros Hx Hor. by apply foldl_syncStep_preserves. Qed.

(** A turn of the template loop never touches a property that exists. *)
Lemma templateStep_preserves st slug managed o entry x v :
  own o !! x = Some v → own (templateStep st slug managed o entry) !! x = Some v.
Proof.
  intros Hx. destruct entry as [k w]. unfold templateStep.
  set (a := Js.trim k). set (sk := makeStorageKey st slug a).
  destruct (Js.isEmpty a); [done|].
  destruct (negb (bool_decide (managed = [])) && negb (bool_decide (a ∈ managed))); [done|].
  destruct (hasOwn (own o) sk) eqn:Hs; [done|].
  apply hasOwn_false in Hs.
  assert (x ≠ sk) as Hne by (intros ->; congruence).
  assert (own (assign o sk w) !! x = Some v) as Hx1 by (by rewrite assign_lookup_ne).
  destruct (negb (removePlainAliasKeysOnSync st)); [|done].
  destruct (hasOwn (own (assign o sk w)) a) eqn:Ha; simpl; [done|].
  apply hasOwn_false in Ha.
  assert (x ≠ a) by (intros ->; congruence).
  by rewrite assign_lookup_ne.
Qed.

Lemma foldl_templateStep_preserves st slug managed es o x v :
  own o !! x = Some v →
  own (foldl (templateStep st slug managed) o es) !! x = Some v.
Proof.
  revert o. induction es as [|e es IH]; intros o Hx; [done|].
  cbn [foldl]. apply IH. by apply templateStep_preserves.
Qed.

Lemma applyTemplate_preserves st slug managed obj fm x v :
  fm !! x = Some v → applyTemplate st slug managed obj fm !! x = Some v.
Proof. intros Hx. by apply foldl_templateStep_preserves. Qed.

(** Every value bound after a turn of the sync loop was bound before it. *)
Lemma syncStep_provenance st slug o a x v :
  own (syncStep st slug o a) !! x = Some v → ∃ y, own o !! y = Some v.
Proof.
  unfold syncStep. set (sk := makeStorageKey st slug a).
  assert (∀ o', (∀ k w, own o' !! k = Some w → ∃ y, own o !! y = Some w) →
          ∀ k w, own (deleteProp o' a) !! k = Some w → ∃ y, own o !! y = Some w) as Hdel.
  { intros o' Hm k w Hk. cbn [deleteProp own] in Hk.
    apply lookup_delete_Some in Hk as [_ Hk]. eauto. }
  assert (hasOwn (own o) a = true →
          ∀ k w, own (assign o sk (getProp (own o) a)) !! k = Some w →
                 ∃ y, own o !! y = Some w) as Hins.
  { intros [u Hu]%hasOwn_true k w Hk.
    destruct (assign_cases o sk (getProp (own o) a)) as [E|(_ & _ & _ & E)];
      rewrite E in Hk; cbn [own] in Hk; [|eauto].
    apply lookup_insert_Some in Hk as [[_ <-]|[_ Hk]]; [|eauto].
    exists a. by rewrite (getProp_lookup _ _ _ Hu). }
  destruct (hasOwn (own o) sk), (hasOwn (own o) a) eqn:Ha, (removePlainAliasKeysOnSync st);
    simpl; eauto.
Qed.

Lemma applySync_provenance st slug managed fm x v :
  applySync st slug managed fm !! x = Some v → ∃ y, fm !! y = Some v.
Proof.
  unfold applySync.
  assert (∀ o', own (foldl (syncStep st slug) o' managed) !! x = Some v →
                ∃ y, own o' !! y = Some v) as H;
    [|intros Hx; apply (H (ordinary fm) Hx)].
  induction managed as [|a managed IH]; intros o' Hx; [eauto|].
  cbn [foldl] in Hx. apply IH in Hx as [y Hy].
  by apply syncStep_provenance in Hy.
Qed.

(** ** Passes over keys that do not collide *)

(** What a pass does to an observation of the object that only the turns of
    one key [a] change: each occurrence of [a] in the list applies the effect
    of its turn once more. *)
Section PerKey.
Context {X : Type}.
Variable step : JsObject → string → JsObject.
Variable obs : JsObject → X.
Variable onObs : X → X.
Variable a : string.
Variable apart : string → Prop.

Hypothesis step_other : ∀ o b, b ≠ a → apart b → obs (step o b) = obs o.
Hypothesis step_self : ∀ o, obs (step o a) = onObs (obs o).

Lemma foldl_obs keys o :
  (∀ b, b ∈ keys → b ≠ a → apart b) →
  obs (foldl step o keys)
  = Nat.iter (length (filter (fun b => b = a) keys)) onObs (obs o).
Proof.
  revert o. induction keys as [|b keys IH]; intros o Hsep; [done|].
  cbn [foldl]. rewrite IH by (intros c Hc; apply Hsep; by right).
  destruct (decide (b = a)) as [->|Hne].
  - rewrite filter_cons_True by done. cbn [length].
    by rewrite Nat.iter_succ_r, step_self.
  - rewrite filter_cons_False by done.
    rewrite step_other; [done | done | apply Hsep; [by left | done]].
Qed.

Hypothesis onObs_idem : ∀ x, onObs (onObs x) = onObs x.

Lemma iter_idem n x : Nat.iter (S n) onObs x = onObs x.
Proof.
  induction n as [|n IH]; [done|].
  change (onObs (Nat.iter (S n) onObs x) = onObs x). by rewrite IH.
Qed.

Lemma foldl_obs_idem keys o :
  (∀ b, b ∈ keys → b ≠ a → apart b) →
  a ∈ keys →
  obs (foldl step o keys) = onObs (obs o).
Proof.
  intros Hsep Ha. rewrite foldl_obs by done.
  destruct (length (filter (fun b => b = a) keys)) as [|n] eqn:Hn; [|apply iter_idem].
  apply length_zero_iff_nil in Hn.
  assert (a ∈ filter (fun b => b = a) keys) as Hin by (by apply list_elem_of_filter).
  rewrite Hn in Hin. by apply elem_of_nil in Hin.
Qed.

End PerKey.

Lemma syncStep_local st slug o b k :
  k ≠ b → k ≠ makeStorageKey st slug b → own (syncStep st slug o b) !! k = own o !! k.
Proof.
  intros H1 H2. unfold syncStep.
  repeat match goal with |- context [if ?c then _ else _] => destruct c end;
    cbn [deleteProp own]; by rewrite ?lookup_delete_ne, ?assign_lookup_ne.
Qed.

Lemma syncStep_other_view st slug o a b :
  b ≠ a → b ≠ makeStorageKey st slug a → makeStorageKey st slug b ≠ a →
  view st slug (own (syncStep st slug o b)) a = view st slug (own o) a.
Proof.
  intros Hab H1 H2. unfold view. rewrite !syncStep_local; try done.
  intros E. by apply makeStorageKey_inj in E.
Qed.

Lemma syncStep_view st slug o a :
  makeStorageKey st slug a ≠ protoKey →
  view st slug (own (syncStep st slug o a)) a
  = syncView (removePlainAliasKeysOnSync st) (view st slug (own o) a).
Proof.
  intros Hplain. pose proof (makeStorageKey_ne st slug a) as Hne.
  unfold view, syncStep. set (sk := makeStorageKey st slug a) in *.
  rewrite (assign_plain _ _ _ Hplain).
  destruct (own o !! sk) as [s|] eqn:Hs, (own o !! a) as [u|] eqn:Ha.
  all: repeat match goal with
       | |- context [hasOwn ?m ?k] =>
           first [ rewrite (proj2 (hasOwn_true m k)) by eauto
                 | rewrite (proj2 (hasOwn_false m k)) by done ]
       end.
  all: destruct (removePlainAliasKeysOnSync st); simpl.
  all: rewrite ?(getProp_lookup _ _ _ Ha).
  all: rewrite ?lookup_delete_eq, ?lookup_delete_ne, ?lookup_insert_eq,
         ?lookup_insert_ne by done.
  all: by rewrite ?Hs, ?Ha.
Qed.

Lemma syncView_idem r p : syncView r (syncView r p) = syncView r p.
Proof. destruct p as [[?|] [?|]], r; reflexivity. Qed.

Lemma restoreStep_local st slug o b k :
  k ≠ b → k ≠ makeStorageKey st slug b → own (restoreStep st slug o b) !! k = own o !! k.
Proof.
  intros H1 H2. unfold restoreStep.
  repeat match goal with |- context [if ?c then _ else _] => destruct c end;
    cbn [deleteProp own]; by rewrite ?lookup_delete_ne, ?assign_lookup_ne.
Qed.

Lemma restoreStep_other_view st slug o a b :
  b ≠ a → b ≠ makeStorageKey st slug a → makeStorageKey st slug b ≠ a →
  view st slug (own (restoreStep st slug o b)) a = view st slug (own o) a.
Proof.
  intros Hab H1 H2. unfold view. rewrite !restoreStep_local; try done.
  intros E. by apply makeStorageKey_inj in E.
Qed.

Lemma restoreStep_view st slug o a :
  a ≠ protoKey →
  view st slug (own (restoreStep st slug o a)) a
  = restoreView (deleteStorageKeysOnRestore st) (view st slug (own o) a).
Proof.
  intros Hplain. pose proof (makeStorageKey_ne st slug a) as Hne.
  unfold view, restoreStep. set (sk := makeStorageKey st slug a) in *.
  rewrite (assign_plain _ _ _ Hplain).
  destruct (own o !! sk) as [s|] eqn:Hs.
  - rewrite (proj2 (hasOwn_true (own o) sk)) by eauto. simpl.
    rewrite (getProp_lookup _ _ _ Hs).
    destruct (deleteStorageKeysOnRestore st); simpl.
    + by rewrite lookup_delete_eq, lookup_delete_ne, lookup_insert_eq.
    + by rewrite lookup_insert_eq, lookup_insert_ne, Hs.
  - rewrite (proj2 (hasOwn_false (own o) sk)) by done. simpl. by rewrite Hs.
Qed.

Lemma restoreView_idem d p : restoreView d (restoreView d p) = restoreView d p.
Proof. destruct p as [[?|] [?|]], d; reflexivity. Qed.

Lemma keysApart_separates st slug (managed : list string) a :
  keysApart st slug managed → a ∈ managed →
  ∀ b, b ∈ managed → b ≠ makeStorageKey st slug a ∧ makeStorageKey st slug b ≠ a.
Proof.
  intros Hap Ha b Hb. split; [intros -> | intros <-].
  - exact (Hap _ Ha Hb).
  - exact (Hap _ Hb Ha).
Qed.

Lemma foldl_syncStep_view st slug managed o a :
  keysApart st slug managed → a ∈ managed →
  makeStorageKey st slug a ≠ protoKey →
  view st slug (own (foldl (syncStep st slug) o managed)) a
  = syncView (removePlainAliasKeysOnSync st) (view st slug (own o) a).
Proof.
  intros Hap Ha Hplain.
  apply (foldl_obs_idem (syncStep st slug) (fun o' => view st slug (own o') a) _ a
           (fun b => b ≠ makeStorageKey st slug a ∧ makeStorageKey st slug b ≠ a)).
  - intros o' b Hne [H1 H2]. by apply syncStep_other_view.
  - intros o'. by apply syncStep_view.
  - apply syncView_idem.
  - intros b Hb _. by apply (keysApart_separates st slug managed).
  - done.
Qed.

Lemma applySync_view st slug managed fm a :
  keysApart st slug managed → a ∈ managed →
  makeStorageKey st slug a ≠ protoKey →
  view st slug (applySync st slug managed fm) a
  = syncView (removePlainAliasKeysOnSync st) (view st slug fm a).
Proof. intros Hap Ha Hplain. by apply (foldl_syncStep_view st slug managed (ordinary fm)). Qed.

Lemma foldl_restoreStep_view st slug managed o a :
  keysApart st slug managed → a ∈ managed →
  a ≠ protoKey →
  view st slug (own (foldl (restoreStep st slug) o managed)) a
  = restoreView (deleteStorageKeysOnRestore st) (view st slug (own o) a).
Proof.
  intros Hap Ha Hplain.
  apply (foldl_obs_idem (restoreStep st slug) (fun o' => view st slug (own o') a) _ a
           (fun b => b ≠ makeStorageKey st slug a ∧ makeStorageKey st slug b ≠ a)).
  - intros o' b Hne [H1 H2]. by apply restoreStep_other_view.
  - intros o'. by apply restoreStep_view.
  - apply restoreView_idem.
  - intros b Hb _. by apply (keysApart_separates st slug managed).
  - done.
Qed.

Lemma restoreAliases_view st slug managed fm a :
  keysApart st slug managed → a ∈ managed →
  a ≠ protoKey →
  view st slug (restoreAliases st slug managed fm) a
  = restoreView (deleteStorageKeysOnRestore st) (view st slug fm a).
Proof.
  intros Hap Ha Hplain. by apply (foldl_restoreStep_view st slug managed (ordinary fm)).
Qed.

Lemma keysApart_Forall st slug managed :
  Forall (fun a => makeStorageKey st slug a ∉ managed) managed → keysApart st slug managed.
Proof. intros H a Ha. by apply (proj1 (Forall_forall _ _) H). Qed.

(** ** The key whose storage key is the prototype accessor *)

Lemma assign_proto o v :
  own o !! protoKey = None →
  assign o protoKey v
  = if reachesProtoSetter (proto o)
    then {| own := own o; proto := setPrototypeOf (proto o) v |}
    else {| own := <[protoKey := v]> (own o); proto := proto o |}.
Proof.
  intros Hnone. unfold assign.
  by rewrite (proj2 (hasOwn_false _ _) Hnone).
Qed.

Lemma setPrototypeOf_idem p v : setPrototypeOf (setPrototypeOf p v) v = setPrototypeOf p v.
Proof. by destruct v. Qed.

Lemma syncStep_other_proto st slug o b :
  makeStorageKey st slug b ≠ protoKey → proto (syncStep st slug o b) = proto o.
Proof.
  intros Hplain. unfold syncStep. rewrite (assign_plain _ _ _ Hplain).
  by repeat match goal with |- context [if ?c then _ else _] => destruct c end.
Qed.

Lemma syncStep_proto_view st slug o a :
  makeStorageKey st slug a = protoKey →
  (view st slug (own (syncStep st slug o a)) a, proto (syncStep st slug o a))
  = syncProtoView (removePlainAliasKeysOnSync st) (view st slug (own o) a, proto o).
Proof.
  intros Hsk. pose proof (makeStorageKey_ne st slug a) as Hne.
  unfold view, syncStep, syncProtoView. rewrite Hsk in *.
  destruct (own o !! protoKey) as [s|] eqn:Hs, (own o !! a) as [u|] eqn:Ha.
  all: repeat match goal with
       | |- context [hasOwn ?m ?k] =>
           first [ rewrite (proj2 (hasOwn_true m k)) by eauto
                 | rewrite (proj2 (hasOwn_false m k)) by done ]
       end.
  all: rewrite ?(assign_proto _ _ Hs), ?(getProp_lookup _ _ _ Ha).
  all: destruct (removePlainAliasKeysOnSync st); try destruct (reachesProtoSetter (proto o));
    cbn [andb deleteProp own proto].
  all: rewrite ?lookup_delete_eq, ?lookup_delete_ne, ?lookup_insert_eq,
         ?lookup_insert_ne by done.
  all: by rewrite ?Hs, ?Ha.
Qed.

Lemma syncProtoView_cubed r s :
  syncProtoView r (syncProtoView r (syncProtoView r s))
  = syncProtoView r (syncProtoView r s).
Proof.
  destruct s as [[[u|] [s|]] p], r; cbn [syncProtoView]; try reflexivity.
  all: destruct (reachesProtoSetter p) eqn:Hp; cbn [syncProtoView]; rewrite ?Hp;
    try reflexivity.
  destruct (reachesProtoSetter (setPrototypeOf p u)) eqn:Hq; cbn [syncProtoView];
    rewrite ?setPrototypeOf_idem, ?Hq; reflexivity.
Qed.

(** Once an effect has settled after two turns, any two or more turns give the
    same as two. *)
Lemma iter_settled {X : Type} (f : X → X) n x :
  (∀ y, f (f (f y)) = f (f y)) → Nat.iter (S (S n)) f x = f (f x).
Proof.
  intros Hf. induction n as [|n IH]; [done|].
  change (f (Nat.iter (S (S n)) f x) = f (f x)). by rewrite IH, Hf.
Qed.

(** A second pass, on a freshly parsed object holding what the first pass
    left, leaves the alias key and the storage key as the first pass did. *)
Lemma syncProtoView_second_pass r n v :
  fst (Nat.iter n (syncProtoView r)
         (fst (Nat.iter n (syncProtoView r) (v, ProtoObject)), ProtoObject))
  = fst (Nat.iter n (syncProtoView r) (v, ProtoObject)).
Proof.
  destruct n as [|[|n]]; [done| |].
  - cbn [Nat.iter nat_rect].
    destruct v as [[u|] [s|]], r; cbn [syncProtoView reachesProtoSetter fst];
      reflexivity.
  - rewrite !(iter_settled _ n) by apply syncProtoView_cubed.
    destruct v as [[u|] [s|]], r; cbn [syncProtoView reachesProtoSetter fst];
      try reflexivity.
    destruct (reachesProtoSetter (setPrototypeOf ProtoObject u)) eqn:Hq;
      cbn [syncProtoView reachesProtoSetter fst]; rewrite ?Hq;
      cbn [syncProtoView reachesProtoSetter fst]; reflexivity.
Qed.

Lemma foldl_syncStep_proto_view st slug managed o a :
  keysApart st slug managed → a ∈ managed →
  makeStorageKey st slug a = protoKey →
  (view st slug (own (foldl (syncStep st slug) o managed)) a,
   proto (foldl (syncStep st slug) o managed))
  = Nat.iter (length (filter (fun b => b = a) managed))
      (syncProtoView (removePlainAliasKeysOnSync st)) (view st slug (own o) a, proto o).
Proof.
  intros Hap Ha Hsk.
  apply (foldl_obs (syncStep st slug)
           (fun o' => (view st slug (own o') a, proto o')) _ a
           (fun b => b ∈ managed)).
  - intros o' b Hne Hb.
    destruct (keysApart_separates st slug managed a Hap Ha b Hb) as [H1 H2].
    rewrite syncStep_other_view by done.
    rewrite syncStep_other_proto; [done|].
    rewrite <- Hsk. intros E. by apply makeStorageKey_inj in E.
  - intros o'. by apply syncStep_proto_view.
  - done.
Qed.

(** ** What the passes leave alone *)

Lemma foldl_frame st slug (step : JsObject → string → JsObject)
    (keys : list string) o x :
  (∀ m b k, k ≠ b → k ≠ makeStorageKey st slug b → own (step m b) !! k = own m !! k) →
  x ∉ keys →
  (∀ a, a ∈ keys → x ≠ makeStorageKey st slug a) →
  own (foldl step o keys) !! x = own o !! x.
Proof.
  intros Hlocal. revert o. induction keys as [|b keys IH]; intros o Hx Hsk; [done|].
  cbn [foldl]. rewrite IH.
  - apply Hlocal; [intros -> | apply Hsk]; [apply Hx|]; by left.
  - intros ?. apply Hx. by right.
  - intros a Ha. apply Hsk. by right.
Qed.

Lemma applySync_frame st slug managed fm x :
  x ∉ managed → (∀ a, a ∈ managed → x ≠ makeStorageKey st slug a) →
  applySync st slug managed fm !! x = fm !! x.
Proof.
  intros Hx Hsk.
  apply (foldl_frame st slug (syncStep st slug) managed (ordinary fm));
    [apply syncStep_local | done | done].
Qed.

Lemma restoreAliases_frame st slug managed fm x :
  x ∉ managed → (∀ a, a ∈ managed → x ≠ makeStorageKey st slug a) →
  restoreAliases st slug managed fm !! x = fm !! x.
Proof.
  intros Hx Hsk.
  apply (foldl_frame st slug (restoreStep st slug) managed (ordinary fm));
    [apply restoreStep_local | done | done].
Qed.

(** Two frontmatter objects are equal when they agree on the alias key and
    storage key of every managed key and on every other key. *)
Lemma frontmatter_eq_by_views st slug (managed : list string) (m1 m2 : Frontmatter) :
  (∀ a, a ∈ managed → view st slug m1 a = view st slug m2 a) →
  (∀ x, x ∉ managed → (∀ a, a ∈ managed → x ≠ makeStorageKey st slug a) →
        m1 !! x = m2 !! x) →
  m1 = m2.
Proof.
  intros Hview Hrest. apply map_eq. intros x.
  destruct (decide (x ∈ managed)) as [Hx|Hx].
  - pose proof (Hview x Hx) as Hv. unfold view in Hv. by injection Hv.
  - destruct (decide (Exists (fun a => x = makeStorageKey st slug a) managed)) as [He|He].
    + apply Exists_exists in He as (a & Ha & ->).
      pose proof (Hview a Ha) as Hv. unfold view in Hv. by injection Hv.
    + apply Hrest; [done|]. intros a Ha ->. apply He, Exists_exists. by exists a.
Qed.

(** ** The storage key as source of truth *)

(** C1 (as stated, refuted).  With the managed keys
    ["projects__priority,priority"] and removal on, the storage key of the
    managed key ["priority"] exists with value ["high"]; the sync first moves
    it away as if it were an alias and then fills it from the alias key, so
    afterwards it holds ["low"]. *)
Lemma sync_overwrites_moved_storage_key :
  "priority" ∈ getManagedAliasKeys storageFirstSettings
  ∧ divergedFrontmatter !! makeStorageKey storageFirstSettings "projects" "priority"
    = Some (JStr "high")
  ∧ applySync storageFirstSettings "projects"
      (getManagedAliasKeys storageFirstSettings) divergedFrontmatter
      !! makeStorageKey storageFirstSettings "projects" "priority"
    = Some (JStr "low").
Proof.
  split; [|split].
  - apply (bool_decide_unpack _). vm_compute. exact I.
  - vm_compute. reflexivity.
  - vm_compute. reflexivity.
Qed.

(** C1 (amended).  A storage key that exists with value [v] still maps to [v]
    after the sync mutator whenever the removal policy is off or the storage
    key is not itself one of the managed alias keys; and it still maps to [v]
    after the template mutator in every case. *)
Theorem storage_key_never_overwritten st slug managed obj fm a v :
  fm !! makeStorageKey st slug a = Some v →
  (removePlainAliasKeysOnSync st = false ∨ makeStorageKey st slug a ∉ managed →
   applySync st slug managed fm !! makeStorageKey st slug a = Some v)
  ∧ applyTemplate st slug managed obj fm !! makeStorageKey st slug a = Some v.
Proof.
  intros Hv. split.
  - intros Hor. by apply applySync_preserves.
  - by apply applyTemplate_preserves.
Qed.

Lemma storage_key_never_overwritten_witness :
  divergedFrontmatter !! makeStorageKey DEFAULT_SETTINGS "projects" "priority"
  = Some (JStr "high")
  ∧ (makeStorageKey DEFAULT_SETTINGS "projects" "priority"
     ∉ getManagedAliasKeys DEFAULT_SETTINGS)
  ∧ applySync DEFAULT_SETTINGS "projects" (getManagedAliasKeys DEFAULT_SETTINGS)
      divergedFrontmatter !! makeStorageKey DEFAULT_SETTINGS "projects" "priority"
    = Some (JStr "high")
  ∧ applyTemplate DEFAULT_SETTINGS "projects" (getManagedAliasKeys DEFAULT_SETTINGS)
      projectsTemplate divergedFrontmatter
      !! makeStorageKey DEFAULT_SETTINGS "projects" "priority"
    = Some (JStr "high").
Proof.
  assert (divergedFrontmatter !! makeStorageKey DEFAULT_SETTINGS "projects" "priority"
          = Some (JStr "high")) as Hv by (vm_compute; reflexivity).
  assert (makeStorageKey DEFAULT_SETTINGS "projects" "priority"
          ∉ getManagedAliasKeys DEFAULT_SETTINGS) as Hout
    by (apply (bool_decide_unpack _); vm_compute; exact I).
  destruct (storage_key_never_overwritten DEFAULT_SETTINGS "projects"
              (getManagedAliasKeys DEFAULT_SETTINGS) projectsTemplate
              divergedFrontmatter "priority" (JStr "high") Hv) as [Hsync Htpl].
  split; [exact Hv | split; [exact Hout | split; [|exact Htpl]]].
  apply Hsync. right. exact Hout.
Defined.

(** ** Idempotence *)

(** C2 (as stated, refuted).  With the managed keys
    ["projects__priority,priority"] a second pass does more work: the first
    pass leaves ["projects__priority"] behind as a fresh storage key, the
    second one treats it as an alias key again. *)
Lemma sync_twice_differs_on_colliding_keys :
  applySync storageFirstSettings "projects" (getManagedAliasKeys storageFirstSettings)
    (applySync storageFirstSettings "projects" (getManagedAliasKeys storageFirstSettings)
       divergedFrontmatter)
  ≠ applySync storageFirstSettings "projects" (getManagedAliasKeys storageFirstSettings)
      divergedFrontmatter.
Proof.
  intros E. apply (f_equal (fun m : Frontmatter => m !! "projects__priority")) in E.
  vm_compute in E. discriminate E.
Qed.

Lemma applySync_second_pass_view st slug managed fm a :
  keysApart st slug managed → a ∈ managed →
  view st slug (applySync st slug managed (applySync st slug managed fm)) a
  = view st slug (applySync st slug managed fm) a.
Proof.
  intros Hap Ha.
  destruct (decide (makeStorageKey st slug a = protoKey)) as [Hsk|Hplain].
  - pose proof (foldl_syncStep_proto_view st slug managed (ordinary fm) a Hap Ha Hsk)
      as H1.
    pose proof (foldl_syncStep_proto_view st slug managed
                  (ordinary (applySync st slug managed fm)) a Hap Ha Hsk) as H2.
    apply (f_equal fst) in H1, H2. cbn [fst ordinary own proto] in H1, H2.
    unfold applySync at 1. rewrite H2. fold (applySync st slug managed fm) in H1.
    rewrite H1. apply syncProtoView_second_pass.
  - by rewrite !applySync_view, syncView_idem.
Qed.

(** C2 (amended).  When no managed key is the storage key of a managed key,
    applying the sync mutator twice with the same slug, managed keys and
    removal flag gives exactly the map that applying it once gives. *)
Theorem applySync_idempotent st slug managed fm :
  keysApart st slug managed →
  applySync st slug managed (applySync st slug managed fm)
  = applySync st slug managed fm.
Proof.
  intros Hap. apply (frontmatter_eq_by_views st slug managed).
  - intros a Ha. by apply applySync_second_pass_view.
  - intros x Hx Hsk. by apply applySync_frame.
Qed.

Lemma applySync_idempotent_witness :
  keysApart DEFAULT_SETTINGS "projects" (getManagedAliasKeys DEFAULT_SETTINGS)
  ∧ applySync DEFAULT_SETTINGS "projects" (getManagedAliasKeys DEFAULT_SETTINGS)
      (applySync DEFAULT_SETTINGS "projects" (getManagedAliasKeys DEFAULT_SETTINGS)
         divergedFrontmatter)
    = applySync DEFAULT_SETTINGS "projects" (getManagedAliasKeys DEFAULT_SETTINGS)
        divergedFrontmatter.
Proof.
  assert (keysApart DEFAULT_SETTINGS "projects" (getManagedAliasKeys DEFAULT_SETTINGS))
    as Hap by (apply keysApart_Forall, (bool_decide_unpack _); vm_compute; exact I).
  split; [exact Hap | exact (applySync_idempotent _ _ _ _ Hap)].
Defined.

(** ** Round trip *)

(** C3 (as stated, refuted).  Three ways the round trip fails to give the
    alias key its value back.  First, with the default managed keys: the
    alias key ["priority"] holds ["low"] and its storage key holds ["high"];
    the sync discards the alias value and the restore brings back ["high"].
    Second, with the managed keys ["priority,projects__priority"]: the sync
    moves the value on to ["projects__projects__priority"], so the restore
    finds no storage key for ["priority"], leaves it absent, and leaves the
    storage key ["projects__priority"] in place.  Third, with the managed key
    ["proto__"], the separator ["_"] and the slug ["_"] the storage key is
    ["__proto__"]: the assignment of the sync creates no property, the alias
    key is deleted, and the restore finds nothing to bring back. *)
Lemma round_trip_loses_alias_value :
  ("priority" ∈ getManagedAliasKeys fullRevertSettings
   ∧ divergedFrontmatter !! "priority" = Some (JStr "low")
   ∧ restoreAliases fullRevertSettings "projects" (getManagedAliasKeys fullRevertSettings)
       (applySync fullRevertSettings "projects" (getManagedAliasKeys fullRevertSettings)
          divergedFrontmatter) !! "priority" = Some (JStr "high"))
  ∧ ("priority" ∈ getManagedAliasKeys aliasFirstSettings
     ∧ highPriorityFrontmatter !! "priority" = Some (JStr "high")
     ∧ restoreAliases aliasFirstSettings "projects" (getManagedAliasKeys aliasFirstSettings)
         (applySync aliasFirstSettings "projects" (getManagedAliasKeys aliasFirstSettings)
            highPriorityFrontmatter) !! "priority" = None
     ∧ restoreAliases aliasFirstSettings "projects" (getManagedAliasKeys aliasFirstSettings)
         (applySync aliasFirstSettings "projects" (getManagedAliasKeys aliasFirstSettings)
            highPriorityFrontmatter)
         !! makeStorageKey aliasFirstSettings "projects" "priority" = Some (JStr "high"))
  ∧ ("proto__" ∈ getManagedAliasKeys protoRevertSettings
     ∧ removePlainAliasKeysOnSync protoRevertSettings = true
     ∧ deleteStorageKeysOnRestore protoRevertSettings = true
     ∧ makeStorageKey protoRevertSettings "_" "proto__" = protoKey
     ∧ protoAliasFrontmatter !! "proto__" = Some (JStr "x")
     ∧ protoAliasFrontmatter !! makeStorageKey protoRevertSettings "_" "proto__" = None
     ∧ restoreAliases protoRevertSettings "_" (getManagedAliasKeys protoRevertSettings)
         (applySync protoRevertSettings "_" (getManagedAliasKeys protoRevertSettings)
            protoAliasFrontmatter) !! "proto__" = None).
Proof.
  repeat split; try (vm_compute; reflexivity);
    apply (bool_decide_unpack _); vm_compute; exact I.
Qed.

(** C3 (amended).  With removal on sync and deletion on restore both on, and
    no managed key being the storage key of a managed key: after sync followed
    by restore every managed key that is not ["__proto__"] and whose storage
    key is not ["__proto__"] has lost its storage key, and its alias key holds
    the value the storage key had before the sync when there was one, and
    otherwise exactly what the alias key held before the sync.  So the
    pre-sync alias value comes back for every such managed key whose storage
    key did not exist before the sync. *)
Theorem sync_then_restore_round_trip st slug managed fm a :
  removePlainAliasKeysOnSync st = true →
  deleteStorageKeysOnRestore st = true →
  keysApart st slug managed →
  a ∈ managed →
  a ≠ protoKey →
  makeStorageKey st slug a ≠ protoKey →
  let out := restoreAliases st slug managed (applySync st slug managed fm) in
  out !! makeStorageKey st slug a = None
  ∧ out !! a = match fm !! makeStorageKey st slug a with
               | Some v => Some v
               | None => fm !! a
               end
  ∧ (fm !! makeStorageKey st slug a = None → out !! a = fm !! a).
Proof.
  intros Hr Hd Hap Ha Hal Hsk out.
  pose proof (restoreAliases_view st slug managed (applySync st slug managed fm) a
                Hap Ha Hal) as Hv.
  rewrite (applySync_view st slug managed fm a Hap Ha Hsk), Hr, Hd in Hv.
  unfold view in Hv. fold out in Hv.
  destruct (fm !! makeStorageKey st slug a) as [s|], (fm !! a) as [u|];
    simpl in Hv; injection Hv as Hal' Hsto; repeat split; try done.
Qed.

Lemma sync_then_restore_round_trip_witness :
  keysApart fullRevertSettings "projects" (getManagedAliasKeys fullRevertSettings)
  ∧ "priority" ∈ getManagedAliasKeys fullRevertSettings
  ∧ restoreAliases fullRevertSettings "projects" (getManagedAliasKeys fullRevertSettings)
      (applySync fullRevertSettings "projects" (getManagedAliasKeys fullRevertSettings)
         highPriorityFrontmatter) !! makeStorageKey fullRevertSettings "projects" "priority"
    = None
  ∧ restoreAliases fullRevertSettings "projects" (getManagedAliasKeys fullRevertSettings)
      (applySync fullRevertSettings "projects" (getManagedAliasKeys fullRevertSettings)
         highPriorityFrontmatter) !! "priority"
    = highPriorityFrontmatter !! "priority".
Proof.
  assert (keysApart fullRevertSettings "projects" (getManagedAliasKeys fullRevertSettings))
    as Hap by (apply keysApart_Forall, (bool_decide_unpack _); vm_compute; exact I).
  assert ("priority" ∈ getManagedAliasKeys fullRevertSettings) as Hin
    by (apply (bool_decide_unpack _); vm_compute; exact I).
  assert ("priority" ≠ protoKey) as Hal by discriminate.
  assert (makeStorageKey fullRevertSettings "projects" "priority" ≠ protoKey) as Hsk
    by (vm_compute; discriminate).
  destruct (sync_then_restore_round_trip fullRevertSettings "projects"
              (getManagedAliasKeys fullRevertSettings) highPriorityFrontmatter "priority"
              eq_refl eq_refl Hap Hin Hal Hsk) as (Hsto & _ & Hback).
  split; [exact Hap | split; [exact Hin | split; [exact Hsto|]]].
  apply Hback. vm_compute. reflexivity.
Defined.

(** ** Null and undefined values *)

(** C5 (as stated, refuted).  The alias key ["priority"] is present with the
    value null and has no storage key; the sync creates the storage key and
    binds it to null. *)
Lemma sync_moves_null_to_storage_key :
  "priority" ∈ getManagedAliasKeys DEFAULT_SETTINGS
  ∧ nullPriorityFrontmatter !! "priority" = Some JNull
  ∧ nullPriorityFrontmatter !! makeStorageKey DEFAULT_SETTINGS "projects" "priority" = None
  ∧ applySync DEFAULT_SETTINGS "projects" (getManagedAliasKeys DEFAULT_SETTINGS)
      nullPriorityFrontmatter !! makeStorageKey DEFAULT_SETTINGS "projects" "priority"
    = Some JNull.
Proof.
  repeat split; try (vm_compute; reflexivity).
  apply (bool_decide_unpack _). vm_compute. exact I.
Qed.

(** C5 (amended).  The sync mutator moves values verbatim and invents none:
    every value bound after the sync was bound to some key before it, so a
    storage key is bound to null or undefined only if that value was already
    in the map; and, when no managed key is the storage key of a managed key,
    a managed key's storage key that was absent and is not ["__proto__"] is
    afterwards bound to exactly what the alias key held (null and undefined
    included) and stays absent when the alias key was absent. *)
Theorem sync_copies_values_verbatim st slug managed fm :
  (∀ x v, applySync st slug managed fm !! x = Some v → ∃ y, fm !! y = Some v)
  ∧ ((∀ y w, fm !! y = Some w → isNullish w = false) →
     ∀ x v, applySync st slug managed fm !! x = Some v → isNullish v = false)
  ∧ (keysApart st slug managed →
     ∀ a, a ∈ managed → makeStorageKey st slug a ≠ protoKey →
          fm !! makeStorageKey st slug a = None →
          applySync st slug managed fm !! makeStorageKey st slug a = fm !! a).
Proof.
  split; [|split].
  - intros x v. apply applySync_provenance.
  - intros Hreal x v Hx. apply applySync_provenance in Hx as [y Hy]. eauto.
  - intros Hap a Ha Hsk Hs.
    pose proof (applySync_view st slug managed fm a Hap Ha Hsk) as Hv.
    unfold view in Hv. rewrite Hs in Hv.
    destruct (fm !! a) as [u|]; simpl in Hv; by injection Hv.
Qed.

Lemma sync_copies_values_verbatim_witness :
  keysApart DEFAULT_SETTINGS "projects" (getManagedAliasKeys DEFAULT_SETTINGS)
  ∧ "priority" ∈ getManagedAliasKeys DEFAULT_SETTINGS
  ∧ nullPriorityFrontmatter !! makeStorageKey DEFAULT_SETTINGS "projects" "priority" = None
  ∧ applySync DEFAULT_SETTINGS "projects" (getManagedAliasKeys DEFAULT_SETTINGS)
      nullPriorityFrontmatter !! makeStorageKey DEFAULT_SETTINGS "projects" "priority"
    = nullPriorityFrontmatter !! "priority"
  ∧ ∃ y, nullPriorityFrontmatter !! y = Some JNull.
Proof.
  assert (keysApart DEFAULT_SETTINGS "projects" (getManagedAliasKeys DEFAULT_SETTINGS))
    as Hap by (apply keysApart_Forall, (bool_decide_unpack _); vm_compute; exact I).
  assert ("priority" ∈ getManagedAliasKeys DEFAULT_SETTINGS) as Hin
    by (apply (bool_decide_unpack _); vm_compute; exact I).
  assert (makeStorageKey DEFAULT_SETTINGS "projects" "priority" ≠ protoKey) as Hsk
    by (vm_compute; discriminate).
  assert (nullPriorityFrontmatter !! makeStorageKey DEFAULT_SETTINGS "projects" "priority"
          = None) as Hs by (vm_compute; reflexivity).
  destruct (sync_copies_values_verbatim DEFAULT_SETTINGS "projects"
              (getManagedAliasKeys DEFAULT_SETTINGS) nullPriorityFrontmatter)
    as (Hprov & _ & Hcopy).
  split; [exact Hap | split; [exact Hin | split; [exact Hs | split]]].
  - exact (Hcopy Hap "priority" Hin Hsk Hs).
  - apply (Hprov (makeStorageKey DEFAULT_SETTINGS "projects" "priority") JNull).
    vm_compute. reflexivity.
Defined.

(** ** Rule resolution *)

Lemma slashes_isEmpty s : Js.isEmpty (Js.slashes s) = Js.isEmpty s.
Proof. by destruct s. Qed.

Lemma append_isEmpty s t : Js.isEmpty s = false → Js.isEmpty (s ++ t) = false.
Proof. by destruct s. Qed.

Lemma normalizePrefix_isEmpty s :
  Js.isEmpty (normalizePrefix s) = Js.isEmpty (Js.trim s).
Proof.
  unfold normalizePrefix. destruct (Js.isEmpty (Js.trim s)) eqn:E; [done|].
  destruct (Js.endsWithSlash _).
  - by rewrite slashes_isEmpty.
  - apply append_isEmpty. by rewrite slashes_isEmpty.
Qed.

Lemma slugOfRules_cons path rule rest :
  slugOfRules path (rule :: rest)
  = if ruleIsComplete rule && Js.startsWith path (normalizePrefix (folderPrefix rule))
    then Some (Js.trim (namespaceSlug rule))
    else slugOfRules path rest.
Proof.
  simpl. unfold ruleIsComplete. rewrite normalizePrefix_isEmpty.
  destruct (Js.isEmpty (Js.trim (folderPrefix rule))),
    (Js.isEmpty (Js.trim (namespaceSlug rule))); simpl; try done.
Qed.

Lemma slugOfRules_find path rules :
  slugOfRules path rules
  = (fun rule => Js.trim (namespaceSlug rule))
      <$> List.find (fun rule => Js.startsWith path (normalizePrefix (folderPrefix rule)))
            (List.filter ruleIsComplete rules).
Proof.
  induction rules as [|rule rest IH]; [done|].
  rewrite slugOfRules_cons. cbn [List.filter].
  destruct (ruleIsComplete rule); simpl; [|exact IH].
  destruct (Js.startsWith path _); [done | exact IH].
Qed.

Lemma slugOfRules_first_match path pre rule post :
  (∀ r, r ∈ pre →
        ruleIsComplete r && Js.startsWith path (normalizePrefix (folderPrefix r)) = false) →
  ruleIsComplete rule && Js.startsWith path (normalizePrefix (folderPrefix rule)) = true →
  slugOfRules path ((pre ++ rule :: post)%list) = Some (Js.trim (namespaceSlug rule)).
Proof.
  intros Hpre Hrule. induction pre as [|r pre IH].
  - simpl app. by rewrite slugOfRules_cons, Hrule.
  - simpl app. rewrite slugOfRules_cons, (Hpre r) by (by left).
    apply IH. intros r' Hr'. apply Hpre. by right.
Qed.

Lemma startsWith_shorter path :
  Js.startsWith path "a/b/" = true → Js.startsWith path "a/" = true.
Proof.
  unfold Js.startsWith.
  destruct path as [|c1 [|c2 path]]; cbn [String.prefix]; try done.
  all: repeat match goal with
       | |- context [ascii_dec ?x ?y] => destruct (ascii_dec x y)
       end; try done.
  intros _. by destruct path.
Qed.

(** C6. Rule resolution is first-match-wins over the ordered rule list.
    [getNamespaceSlugForFile] normalises the path's separators, skips every
    rule whose trimmed folder prefix or trimmed namespace slug is empty, and
    returns the (trimmed) slug of the first remaining rule whose normalised
    folder prefix is a literal prefix of the path, or nothing when there is
    none; a rule that matches and has no matching rule before it decides the
    outcome whatever comes after it; in particular a rule with prefix ["a/"]
    listed before one with prefix ["a/b/"] wins on every path under
    ["a/b/"]. *)
Theorem rule_resolution_first_match st filePath :
  getNamespaceSlugForFile st filePath
  = (fun rule => Js.trim (namespaceSlug rule)) <$> resolveRule filePath (folderRules st)
  ∧ (∀ pre rule post,
       folderRules st = (pre ++ rule :: post)%list →
       (∀ r, r ∈ pre → ruleMatches filePath r = false) →
       ruleMatches filePath rule = true →
       getNamespaceSlugForFile st filePath = Some (Js.trim (namespaceSlug rule)))
  ∧ (∀ general specific rest,
       folderRules st = general :: specific :: rest →
       folderPrefix general = "a/" →
       folderPrefix specific = "a/b/" →
       Js.isEmpty (Js.trim (namespaceSlug general)) = false →
       Js.isEmpty (Js.trim (namespaceSlug specific)) = false →
       ruleMatches filePath specific = true →
       ruleMatches filePath general = true
       ∧ getNamespaceSlugForFile st filePath = Some (Js.trim (namespaceSlug general))).
Proof.
  unfold getNamespaceSlugForFile, resolveRule, ruleMatches. split; [|split].
  - apply slugOfRules_find.
  - intros pre rule post -> Hpre Hrule. by apply slugOfRules_first_match.
  - intros general specific rest -> Hg Hs Hgs Hss Hm.
    assert (ruleIsComplete general
            && Js.startsWith (Js.slashes filePath) (normalizePrefix (folderPrefix general))
            = true) as Hgm.
    { apply andb_true_iff in Hm as [_ Hm]. rewrite Hs in Hm.
      unfold ruleIsComplete. rewrite Hg, Hgs. simpl.
      by apply startsWith_shorter. }
    split; [exact Hgm|].
    apply (slugOfRules_first_match _ [] general (specific :: rest)); [|exact Hgm].
    intros r Hr. by apply elem_of_nil in Hr.
Qed.

Lemma rule_resolution_first_match_witness :
  ruleMatches "a\b\note.md" narrowRule = true
  ∧ ruleMatches "a\b\note.md" broadRule = true
  ∧ getNamespaceSlugForFile overlappingSettings "a\b\note.md" = Some "outer".
Proof.
  assert (ruleMatches "a\b\note.md" narrowRule = true) as Hm by (vm_compute; reflexivity).
  destruct (rule_resolution_first_match overlappingSettings "a\b\note.md")
    as (_ & _ & Hprio).
  destruct (Hprio broadRule narrowRule [] eq_refl eq_refl eq_refl eq_refl eq_refl Hm)
    as [Hb Hslug].
  split; [exact Hm | split; [exact Hb | exact Hslug]].
Defined.

(** ** An empty managed-key list *)

(** C7 (as stated, refuted).  The managed-key list is empty, the new note has
    no frontmatter, and yet applying the rule's template gives the note the
    storage key ["projects__priority"]: with no managed keys the template is
    not restricted at all. *)
Lemma template_applies_without_managed_keys :
  getManagedAliasKeys (settings noManagedKeysWorld) = []
  ∧ docFrontmatter noManagedKeysWorld "index/projects/a.md" = ∅
  ∧ snd (applyTemplateToNewFile noManagedKeysWorld "index/projects/a.md") = Resolved tt
  ∧ docFrontmatter (fst (applyTemplateToNewFile noManagedKeysWorld "index/projects/a.md"))
      "index/projects/a.md" !! "projects__priority" = Some (JStr "medium")
  ∧ docFrontmatter (fst (applyTemplateToNewFile noManagedKeysWorld "index/projects/a.md"))
      "index/projects/a.md"
    ≠ docFrontmatter noManagedKeysWorld "index/projects/a.md".
Proof.
  repeat split; try (vm_compute; reflexivity).
  intros E.
  apply (f_equal (fun m : Frontmatter => m !! "projects__priority")) in E.
  vm_compute in E. discriminate E.
Qed.

Lemma applyTemplate_unrestricted st slug keys es fm :
  (∀ e, e ∈ es → Js.trim (fst e) ∈ keys) →
  foldl (templateStep st slug []) fm es = foldl (templateStep st slug keys) fm es.
Proof.
  revert fm. induction es as [|[k v] es IH]; intros fm Hin; [done|].
  cbn [foldl]. rewrite <- IH by (intros e He; apply Hin; by right).
  f_equal. unfold templateStep.
  assert (Js.trim k ∈ keys) as Hk by (apply (Hin (k, v)); by left).
  rewrite (bool_decide_eq_true_2 ([] = [])) by done.
  rewrite (bool_decide_eq_true_2 (Js.trim k ∈ keys)) by done.
  simpl. by rewrite andb_false_r.
Qed.

(** C7 (amended).  When the parsed managed-key list is empty, the sync
    operation and the restore operation return at once: they change nothing
    in the plugin or the vault and resolve without failure.  The template
    operation has no such guard: its mutator then treats every key the
    template declares as managed. *)
Theorem empty_managed_keys_noop w filePath reason :
  getManagedAliasKeys (settings w) = [] →
  normalizeFileNow w filePath reason = (w, Resolved tt)
  ∧ restoreAliasesForFile w filePath = (w, Resolved tt)
  ∧ (∀ slug obj fm,
       applyTemplate (settings w) slug (getManagedAliasKeys (settings w)) obj fm
       = applyTemplate (settings w) slug ((fun e => Js.trim (fst e)) <$> Js.entries obj) obj fm).
Proof.
  intros Hempty. split; [|split].
  - unfold normalizeFileNow, normalizeEnter. rewrite Hempty.
    destruct (getNamespaceSlugForFile _ _); [|done].
    destruct (bool_decide (filePath ∈ inFlight w)); [done|].
    by rewrite bool_decide_eq_true_2.
  - unfold restoreAliasesForFile. rewrite Hempty.
    destruct (getRuleForFile _ _); [|done].
    by rewrite bool_decide_eq_true_2.
  - intros slug obj fm. rewrite Hempty. unfold applyTemplate. f_equal.
    apply applyTemplate_unrestricted. intros e He.
    apply list_elem_of_fmap. by exists e.
Qed.

Lemma empty_managed_keys_noop_witness :
  getManagedAliasKeys (settings noManagedKeysWorld) = []
  ∧ normalizeFileNow noManagedKeysWorld "index/projects/a.md" ReasonManual
    = (noManagedKeysWorld, Resolved tt)
  ∧ restoreAliasesForFile noManagedKeysWorld "index/projects/a.md"
    = (noManagedKeysWorld, Resolved tt).
Proof.
  assert (getManagedAliasKeys (settings noManagedKeysWorld) = []) as Hempty
    by (vm_compute; reflexivity).
  destruct (empty_managed_keys_noop noManagedKeysWorld "index/projects/a.md"
              ReasonManual Hempty) as (Hsync & Hrestore & _).
  split; [exact Hempty | split; [exact Hsync | exact Hrestore]].
Defined.

(** ** Bulk restore *)

(** C8 (as stated, refuted).  The first of two scoped notes fails; the bulk
    restore settles as rejected, returns no count, and the second note, which
    a restore of its own would have changed, is left as it was. *)
Lemma bulk_restore_stops_at_first_failure :
  snd (restoreAliasesForAllScopedFiles firstNoteRejectingWorld) = Rejected
  ∧ docFrontmatter (fst (restoreAliasesForAllScopedFiles firstNoteRejectingWorld))
      "index/projects/b.md" !! "priority" = None
  ∧ snd (restoreAliasesForFile firstNoteRejectingWorld "index/projects/b.md") = Resolved tt
  ∧ docFrontmatter (fst (restoreAliasesForFile firstNoteRejectingWorld "index/projects/b.md"))
      "index/projects/b.md" !! "priority" = Some (JStr "low").
Proof. repeat split; vm_compute; reflexivity. Qed.

(** What a single restore leaves alone. *)
Lemma restoreAliasesForFile_frame w f :
  let w' := fst (restoreAliasesForFile w f) in
  settings w' = settings w
  ∧ rejecting w' = rejecting w
  ∧ inFlight w' = inFlight w
  ∧ (∀ g, g ≠ f → docFrontmatter w' g = docFrontmatter w g)
  ∧ (f ∈ rejecting w → w' = w).
Proof.
  unfold restoreAliasesForFile.
  destruct (getRuleForFile (settings w) f) as [rule|]; [|done].
  destruct (bool_decide (getManagedAliasKeys (settings w) = [])); [done|].
  destruct (bool_decide (f ∈ inFlight w)) eqn:Hfl; [done|].
  apply bool_decide_eq_false in Hfl.
  assert ((({[f]} ∪ inFlight w) ∖ {[f]} : gset string) = inFlight w) as Hset.
  { apply set_eq. intros x.
    rewrite elem_of_difference, elem_of_union, elem_of_singleton.
    split; [by intros [[?|?] ?] | intros ?; split; [by right | by intros ->]]. }
  unfold tryFinallyRelease, processFrontMatter, release, acquire, docFrontmatter.
  cbn [rejecting withInFlight].
  destruct (bool_decide (f ∈ rejecting w)) eqn:Hrej; cbn; rewrite Hset.
  - repeat split; try done. intros _. by destruct w.
  - apply bool_decide_eq_false in Hrej. repeat split; try done.
    intros g Hg. by rewrite lookup_insert_ne.
Qed.

Lemma restoreAliasesForFile_rejects w f :
  isScoped (settings w) f = true →
  getManagedAliasKeys (settings w) ≠ [] →
  f ∉ inFlight w →
  f ∈ rejecting w →
  snd (restoreAliasesForFile w f) = Rejected.
Proof.
  unfold isScoped, restoreAliasesForFile. intros Hsc Hm Hfl Hrej.
  destruct (getRuleForFile (settings w) f); [|done].
  rewrite (bool_decide_eq_false_2 _ Hm), (bool_decide_eq_false_2 _ Hfl).
  unfold tryFinallyRelease, processFrontMatter. cbn [rejecting acquire withInFlight].
  by rewrite (bool_decide_eq_true_2 _ Hrej).
Qed.

Lemma restoreAliasesForFile_resolves w f :
  f ∉ rejecting w → snd (restoreAliasesForFile w f) = Resolved tt.
Proof.
  unfold restoreAliasesForFile. intros Hrej.
  destruct (getRuleForFile (settings w) f); [|done].
  destruct (bool_decide (getManagedAliasKeys (settings w) = [])); [done|].
  destruct (bool_decide (f ∈ inFlight w)); [done|].
  unfold tryFinallyRelease, processFrontMatter. cbn [rejecting acquire withInFlight].
  by rewrite (bool_decide_eq_false_2 _ Hrej).
Qed.

Lemma restoreAllLoop_resolves w files count :
  (∀ f, f ∈ files → f ∉ rejecting w) →
  snd (restoreAllLoop w files count)
  = Resolved (count + length (List.filter (isScoped (settings w)) files)).
Proof.
  revert w count. induction files as [|f files IH]; intros w count Hok.
  - simpl. f_equal. lia.
  - cbn [restoreAllLoop List.filter]. unfold isScoped at 1.
    destruct (getRuleForFile (settings w) f) as [rule|] eqn:Hrule.
    + pose proof (restoreAliasesForFile_resolves w f (Hok f ltac:(by left))) as Hres.
      pose proof (restoreAliasesForFile_frame w f) as (Hst & Hrj & _).
      destruct (restoreAliasesForFile w f) as [w1 [[]|]]; [|done].
      cbn [fst] in *. rewrite IH.
      * rewrite Hst. cbn [length]. f_equal. lia.
      * intros g Hg. rewrite Hrj. apply Hok. by right.
    + apply IH. intros g Hg. apply Hok. by right.
Qed.

Lemma restoreAllLoop_rejects w pre f post count :
  (∀ g, g ∈ pre → g ∉ rejecting w) →
  isScoped (settings w) f = true →
  getManagedAliasKeys (settings w) ≠ [] →
  f ∉ inFlight w →
  f ∈ rejecting w →
  snd (restoreAllLoop w (pre ++ f :: post) count) = Rejected
  ∧ ∀ g, g ∉ pre →
         docFrontmatter (fst (restoreAllLoop w (pre ++ f :: post) count)) g
         = docFrontmatter w g.
Proof.
  revert w count. induction pre as [|p pre IH]; intros w count Hok Hsc Hm Hfl Hrej.
  - cbn [app restoreAllLoop].
    pose proof (restoreAliasesForFile_rejects w f Hsc Hm Hfl Hrej) as Hres.
    pose proof (restoreAliasesForFile_frame w f) as (_ & _ & _ & _ & Hsame).
    unfold isScoped in Hsc.
    destruct (getRuleForFile (settings w) f); [|done].
    destruct (restoreAliasesForFile w f) as [w1 [[]|]]; [done|].
    cbn [fst snd] in *. split; [done|]. intros g _. by rewrite (Hsame Hrej).
  - cbn [app restoreAllLoop].
    assert (∀ g, g ∈ pre → g ∉ rejecting w) as Hok' by (intros g Hg; apply Hok; by right).
    destruct (getRuleForFile (settings w) p) as [rule|] eqn:Hrule.
    + pose proof (restoreAliasesForFile_resolves w p (Hok p ltac:(by left))) as Hres.
      pose proof (restoreAliasesForFile_frame w p) as (Hst & Hrj & Hif & Hdoc & _).
      destruct (restoreAliasesForFile w p) as [w1 [[]|]]; [|done].
      cbn [fst] in *.
      destruct (IH w1 (S count)) as [Hrejd Hkeep]; rewrite ?Hst, ?Hrj, ?Hif; try done.
      split; [done|]. intros g Hg.
      rewrite Hkeep by (intros ?; apply Hg; by right).
      apply Hdoc. intros ->. apply Hg. by left.
    + destruct (IH w count Hok' Hsc Hm Hfl Hrej) as [Hrejd Hkeep].
      split; [done|]. intros g Hg. apply Hkeep. intros ?. apply Hg. by right.
Qed.

(** C8 (amended).  The bulk restore visits the notes in vault order and has
    no handler around the awaited per-note restore.  When no note's
    read-modify-write is rejected it resolves with the number of scoped notes.
    When the notes before [f] are not rejected and the restore of the scoped
    note [f] is, the whole operation is rejected at [f]: no count is returned
    and no note outside the ones before [f] is changed, so the notes after
    [f] are not processed. *)
Theorem bulk_restore_propagates_failure w :
  ((∀ f, f ∈ markdownFiles w → f ∉ rejecting w) →
   snd (restoreAliasesForAllScopedFiles w)
   = Resolved (length (List.filter (isScoped (settings w)) (markdownFiles w))))
  ∧ (∀ pre f post,
       markdownFiles w = (pre ++ f :: post)%list →
       (∀ g, g ∈ pre → g ∉ rejecting w) →
       isScoped (settings w) f = true →
       getManagedAliasKeys (settings w) ≠ [] →
       f ∉ inFlight w →
       f ∈ rejecting w →
       snd (restoreAliasesForAllScopedFiles w) = Rejected
       ∧ ∀ g, g ∉ pre →
              docFrontmatter (fst (restoreAliasesForAllScopedFiles w)) g
              = docFrontmatter w g).
Proof.
  unfold restoreAliasesForAllScopedFiles. split.
  - intros Hok. by rewrite restoreAllLoop_resolves.
  - intros pre f post -> Hok Hsc Hm Hfl Hrej. by apply restoreAllLoop_rejects.
Qed.

Lemma bulk_restore_propagates_failure_witness :
  isScoped (settings firstNoteRejectingWorld) "index/projects/a.md" = true
  ∧ "index/projects/a.md" ∈ rejecting firstNoteRejectingWorld
  ∧ snd (restoreAliasesForAllScopedFiles firstNoteRejectingWorld) = Rejected
  ∧ docFrontmatter (fst (restoreAliasesForAllScopedFiles firstNoteRejectingWorld))
      "index/projects/b.md"
    = docFrontmatter firstNoteRejectingWorld "index/projects/b.md".
Proof.
  assert (isScoped (settings firstNoteRejectingWorld) "index/projects/a.md" = true)
    as Hsc by (vm_compute; reflexivity).
  assert ("index/projects/a.md" ∈ rejecting firstNoteRejectingWorld) as Hrej
    by (apply (bool_decide_unpack _); vm_compute; exact I).
  assert (getManagedAliasKeys (settings firstNoteRejectingWorld) ≠ []) as Hm
    by (vm_compute; discriminate).
  assert ("index/projects/a.md" ∉ inFlight firstNoteRejectingWorld) as Hfl
    by (apply (bool_decide_unpack _); vm_compute; exact I).
  assert (∀ g : string, g ∈ @nil string → g ∉ rejecting firstNoteRejectingWorld) as Hpre
    by (intros g Hg; by apply elem_of_nil in Hg).
  destruct (bulk_restore_propagates_failure firstNoteRejectingWorld) as [_ Hfail].
  destruct (Hfail [] "index/projects/a.md" ["index/projects/b.md"]
              eq_refl Hpre Hsc Hm Hfl Hrej) as [Hres Hkeep].
  split; [exact Hsc | split; [exact Hrej | split; [exact Hres|]]].
  apply Hkeep. intros Hg. by apply elem_of_nil in Hg.
Defined.

(** ** The in-flight marker *)

Lemma release_not_in_flight fileKey w : fileKey ∉ inFlight (release fileKey w).
Proof.
  unfold release. cbn [inFlight withInFlight].
  rewrite elem_of_difference, elem_of_singleton. by intros [_ ?].
Qed.

(** C9. Whenever [normalizeFileNow] gets as far as taking the in-flight flag
    of a path, the flag is set while the read-modify-write runs and is
    cleared again when the operation settles, both when the collaborator
    resolves and when it rejects (the rejection being passed on to the
    caller); the [finally] block clears it whatever state and outcome the
    awaited body leaves behind. *)
Theorem in_flight_marker_released w filePath reason slug managed :
  normalizeEnter w filePath = Some (slug, managed) →
  (filePath ∈ inFlight (acquire filePath w))
  ∧ (filePath ∉ inFlight (fst (normalizeFileNow w filePath reason)))
  ∧ (filePath ∉ rejecting w → snd (normalizeFileNow w filePath reason) = Resolved tt)
  ∧ (filePath ∈ rejecting w → snd (normalizeFileNow w filePath reason) = Rejected)
  ∧ (∀ (A : Type) (body : World * Settled A),
       (filePath ∉ inFlight (fst (tryFinallyRelease filePath body)))
       ∧ snd (tryFinallyRelease filePath body) = snd body).
Proof.
  intros Henter. unfold normalizeFileNow. rewrite Henter.
  repeat split.
  - unfold acquire. cbn [inFlight withInFlight].
    apply elem_of_union_l. by apply elem_of_singleton.
  - apply release_not_in_flight.
  - intros Hok. unfold tryFinallyRelease, processFrontMatter.
    cbn [rejecting acquire withInFlight].
    by rewrite (bool_decide_eq_false_2 _ Hok).
  - intros Hrej. unfold tryFinallyRelease, processFrontMatter.
    cbn [rejecting acquire withInFlight].
    by rewrite (bool_decide_eq_true_2 _ Hrej).
  - apply release_not_in_flight.
Qed.

Lemma in_flight_marker_released_witness :
  normalizeEnter rejectedSyncWorld "index/projects/a.md"
  = Some ("projects", ["priority"; "status"; "owner"])
  ∧ ("index/projects/a.md" ∈ inFlight (acquire "index/projects/a.md" rejectedSyncWorld))
  ∧ snd (normalizeFileNow rejectedSyncWorld "index/projects/a.md" ReasonModify) = Rejected
  ∧ ("index/projects/a.md"
     ∉ inFlight (fst (normalizeFileNow rejectedSyncWorld "index/projects/a.md"
                        ReasonModify))).
Proof.
  assert (normalizeEnter rejectedSyncWorld "index/projects/a.md"
          = Some ("projects", ["priority"; "status"; "owner"])) as Henter
    by (vm_compute; reflexivity).
  assert ("index/projects/a.md" ∈ rejecting rejectedSyncWorld) as Hrej
    by (apply (bool_decide_unpack _); vm_compute; exact I).
  destruct (in_flight_marker_released rejectedSyncWorld "index/projects/a.md"
              ReasonModify "projects" ["priority"; "status"; "owner"] Henter)
    as (Hheld & Hfree & _ & Hfail & _).
  split; [exact Henter | split; [exact Hheld | split; [exact (Hfail Hrej) | exact Hfree]]].
Defined.

(** ** Templates *)

Lemma entries_named props :
  (∀ entry, entry ∈ props → Js.arrayIndex (fst entry) = None) →
  Js.entries (JObj props) = props.
Proof.
  intros Hnamed. cbn [Js.entries].
  assert (Js.indexedEntries props = [] ∧ Js.namedEntries props = props) as [-> ->]; [|done].
  induction props as [|entry props IH]; [done|].
  cbn [Js.indexedEntries Js.namedEntries].
  rewrite (Hnamed entry) by (by left).
  destruct IH as [-> ->]; [|done]. intros e He. apply Hnamed. by right.
Qed.

Lemma templateStep_blank st slug managed o k v :
  Js.isEmpty (Js.trim k) = true → templateStep st slug managed o (k, v) = o.
Proof. intros Hk. unfold templateStep. by rewrite Hk. Qed.

Lemma templateStep_unmanaged st slug managed o k v :
  managed ≠ [] → Js.trim k ∉ managed → templateStep st slug managed o (k, v) = o.
Proof.
  intros Hne Hout. unfold templateStep.
  destruct (Js.isEmpty (Js.trim k)); [done|].
  by rewrite (bool_decide_eq_false_2 _ Hne), (bool_decide_eq_false_2 _ Hout).
Qed.

Lemma templateStep_present st slug managed o k v :
  is_Some (own o !! makeStorageKey st slug (Js.trim k)) →
  templateStep st slug managed o (k, v) = o.
Proof.
  intros Hsto. unfold templateStep.
  destruct (Js.isEmpty (Js.trim k)); [done|].
  destruct (negb _ && negb _); [done|].
  by rewrite (proj2 (hasOwn_true _ _) Hsto).
Qed.

(** What a turn that gets past the three tests does. *)
Lemma templateStep_acts st slug managed o k v :
  Js.isEmpty (Js.trim k) = false →
  managed = [] ∨ Js.trim k ∈ managed →
  own o !! makeStorageKey st slug (Js.trim k) = None →
  templateStep st slug managed o (k, v)
  = let o1 := assign o (makeStorageKey st slug (Js.trim k)) v in
    if negb (removePlainAliasKeysOnSync st) && negb (hasOwn (own o1) (Js.trim k))
    then assign o1 (Js.trim k) v else o1.
Proof.
  intros Hk Hin Hsto. unfold templateStep. rewrite Hk.
  assert (negb (bool_decide (managed = [])) && negb (bool_decide (Js.trim k ∈ managed))
          = false) as ->.
  { destruct Hin as [Hm|Hm].
    - by rewrite (bool_decide_eq_true_2 _ Hm).
    - by rewrite (bool_decide_eq_true_2 _ Hm), andb_false_r. }
  rewrite (proj2 (hasOwn_false _ _) Hsto). cbn zeta.
  by destruct (negb (removePlainAliasKeysOnSync st)).
Qed.

Lemma templateStep_sets st slug managed o k v :
  Js.isEmpty (Js.trim k) = false →
  managed = [] ∨ Js.trim k ∈ managed →
  own o !! makeStorageKey st slug (Js.trim k) = None →
  makeStorageKey st slug (Js.trim k) ≠ protoKey →
  own (templateStep st slug managed o (k, v)) !! makeStorageKey st slug (Js.trim k)
  = Some v.
Proof.
  intros Hk Hin Hsto Hplain. rewrite templateStep_acts by done. cbn zeta.
  pose proof (makeStorageKey_ne st slug (Js.trim k)) as Hne.
  assert (own (assign o (makeStorageKey st slug (Js.trim k)) v)
            !! makeStorageKey st slug (Js.trim k) = Some v) as Hset.
  { rewrite (assign_plain _ _ _ Hplain). cbn [own]. apply lookup_insert_eq. }
  destruct (negb _ && negb _); [|done].
  by rewrite assign_lookup_ne.
Qed.

(** C10 (as stated, refuted).  Four templates on a note without
    frontmatter.  The keys [" 1"] and ["1"], declared in this order, both
    stand for the alias key ["1"]; the object lists the array index ["1"]
    first, so the storage key gets ["second"], where the declaration order
    would give ["first"].  A blank key is skipped although the managed-key
    list is empty and its storage key does not exist.  The key [" owner"] is
    not in the managed-key list, yet it is not skipped: it is trimmed first,
    and the storage key set is that of ["owner"].  And a key whose storage
    key is ["__proto__"] passes the three tests, but assigning to that key
    creates no property. *)
Lemma template_not_in_declaration_order :
  (Js.entries numberedTemplate = [("1", JStr "second"); (" 1", JStr "first")]
   ∧ applyTemplate DEFAULT_SETTINGS "projects" ["1"] numberedTemplate ∅
       !! makeStorageKey DEFAULT_SETTINGS "projects" "1" = Some (JStr "second")
   ∧ own (foldl (templateStep DEFAULT_SETTINGS "projects" ["1"]) (ordinary ∅)
            [(" 1", JStr "first"); ("1", JStr "second")])
       !! makeStorageKey DEFAULT_SETTINGS "projects" "1" = Some (JStr "first"))
  ∧ (Js.entries blankKeyTemplate = [(" ", JStr "draft")]
     ∧ (∅ : Frontmatter) !! makeStorageKey DEFAULT_SETTINGS "projects" " " = None
     ∧ (∅ : Frontmatter) !! makeStorageKey DEFAULT_SETTINGS "projects" (Js.trim " ") = None
     ∧ applyTemplate DEFAULT_SETTINGS "projects" [] blankKeyTemplate ∅ = ∅)
  ∧ (Js.entries paddedKeyTemplate = [(" owner", JNull)]
     ∧ getManagedAliasKeys DEFAULT_SETTINGS ≠ []
     ∧ (" owner" ∉ getManagedAliasKeys DEFAULT_SETTINGS)
     ∧ applyTemplate DEFAULT_SETTINGS "projects" (getManagedAliasKeys DEFAULT_SETTINGS)
         paddedKeyTemplate ∅
       = <[makeStorageKey DEFAULT_SETTINGS "projects" "owner" := JNull]> ∅
     ∧ makeStorageKey DEFAULT_SETTINGS "projects" " owner"
       ≠ makeStorageKey DEFAULT_SETTINGS "projects" "owner")
  ∧ (Js.entries protoTemplate = [("proto__", JStr "x")]
     ∧ "proto__" ∈ getManagedAliasKeys protoRevertSettings
     ∧ makeStorageKey protoRevertSettings "_" "proto__" = protoKey
     ∧ (∅ : Frontmatter) !! makeStorageKey protoRevertSettings "_" "proto__" = None
     ∧ applyTemplate protoRevertSettings "_" (getManagedAliasKeys protoRevertSettings)
         protoTemplate ∅ = ∅).
Proof.
  repeat split; try (vm_compute; reflexivity); try (vm_compute; discriminate);
    apply (bool_decide_unpack _); vm_compute; exact I.
Qed.

(** C10 (amended).  Under the default settings and the rule with slug
    ["projects"], the template [{priority: "medium", status: "draft",
    owner: null}] applied to a brand-new note with no frontmatter yields
    exactly [{projects__priority: "medium", projects__status: "draft",
    projects__owner: null}], both through [applyTemplateToNewFile] and through
    its mutator alone.  In general the mutator takes the declared keys in the
    order in which the object lists them, which is the declaration order when
    no key is an array index; a key that is blank after trimming is skipped,
    a key whose trimmed form is outside a non-empty managed-key list is
    skipped, a key whose storage key exists is skipped, and any other key
    gets its storage key, built from the trimmed key, set to the declared
    default unless that storage key is ["__proto__"]. *)
Theorem template_on_fresh_note :
  docFrontmatter (fst (applyTemplateToNewFile (newNoteWorld projectsSettings)
                         "index/projects/a.md")) "index/projects/a.md"
  = <["projects__priority" := JStr "medium"]>
      (<["projects__status" := JStr "draft"]> (<["projects__owner" := JNull]> ∅))
  ∧ applyTemplate DEFAULT_SETTINGS "projects" ["priority"; "status"; "owner"]
      projectsTemplate ∅
    = <["projects__priority" := JStr "medium"]>
        (<["projects__status" := JStr "draft"]> (<["projects__owner" := JNull]> ∅))
  ∧ (∀ st slug managed props fm,
       (∀ entry, entry ∈ props → Js.arrayIndex (fst entry) = None) →
       applyTemplate st slug managed (JObj props) fm
       = own (foldl (templateStep st slug managed) (ordinary fm) props))
  ∧ (∀ st slug managed o k v,
       (Js.isEmpty (Js.trim k) = true → templateStep st slug managed o (k, v) = o)
       ∧ (managed ≠ [] → Js.trim k ∉ managed →
          templateStep st slug managed o (k, v) = o)
       ∧ (is_Some (own o !! makeStorageKey st slug (Js.trim k)) →
          templateStep st slug managed o (k, v) = o)
       ∧ (Js.isEmpty (Js.trim k) = false →
          managed = [] ∨ Js.trim k ∈ managed →
          own o !! makeStorageKey st slug (Js.trim k) = None →
          makeStorageKey st slug (Js.trim k) ≠ protoKey →
          own (templateStep st slug managed o (k, v)) !! makeStorageKey st slug (Js.trim k)
          = Some v)).
Proof.
  split; [vm_compute; reflexivity | split; [vm_compute; reflexivity | split]].
  - intros st slug managed props fm Hnamed. unfold applyTemplate.
    by rewrite entries_named.
  - intros st slug managed o k v. split; [|split; [|split]].
    + apply templateStep_blank.
    + apply templateStep_unmanaged.
    + apply templateStep_present.
    + apply templateStep_sets.
Qed.

Lemma template_on_fresh_note_witness :
  "owner" ∈ getManagedAliasKeys DEFAULT_SETTINGS
  ∧ own (templateStep DEFAULT_SETTINGS "projects" (getManagedAliasKeys DEFAULT_SETTINGS)
           (ordinary ∅) ("owner", JNull))
      !! makeStorageKey DEFAULT_SETTINGS "projects" (Js.trim "owner")
    = Some JNull
  ∧ applyTemplate DEFAULT_SETTINGS "projects" (getManagedAliasKeys DEFAULT_SETTINGS)
      projectsTemplate ∅
    = own (foldl (templateStep DEFAULT_SETTINGS "projects"
                    (getManagedAliasKeys DEFAULT_SETTINGS)) (ordinary ∅)
             [("priority", JStr "medium"); ("status", JStr "draft"); ("owner", JNull)]).
Proof.
  assert ("owner" ∈ getManagedAliasKeys DEFAULT_SETTINGS) as Hin
    by (apply (bool_decide_unpack _); vm_compute; exact I).
  destruct template_on_fresh_note as (_ & _ & Horder & Hgen).
  destruct (Hgen DEFAULT_SETTINGS "projects" (getManagedAliasKeys DEFAULT_SETTINGS)
              (ordinary ∅) "owner" JNull) as (_ & _ & _ & Hset).
  split; [exact Hin | split].
  - apply Hset; [reflexivity | right; exact Hin | apply lookup_empty
                | vm_compute; discriminate].
  - apply (Horder DEFAULT_SETTINGS "projects" (getManagedAliasKeys DEFAULT_SETTINGS)
             [("priority", JStr "medium"); ("status", JStr "draft"); ("owner", JNull)] ∅).
    intros entry Hentry.
    repeat (apply elem_of_cons in Hentry as [->|Hentry]; [vm_compute; reflexivity|]).
    by apply elem_of_nil in Hentry.
Defined.

(** * Further properties *)

(** ** Trimming and prefixes *)

Lemma trimStart_head s :
  Js.trimStart s = EmptyString
  ∨ ∃ c rest, Js.trimStart s = String c rest ∧ Js.isWhite c = false.
Proof.
  induction s as [|c s IH]; [by left|].
  cbn [Js.trimStart]. destruct (Js.isWhite c) eqn:Hc; [exact IH|].
  right. by exists c, s.
Qed.

Lemma trimStart_fixed c rest :
  Js.isWhite c = false → Js.trimStart (String c rest) = String c rest.
Proof. intros Hc. cbn [Js.trimStart]. by rewrite Hc. Qed.

Lemma trimEnd_cons c rest :
  Js.isWhite c = false → Js.trimEnd (String c rest) = String c (Js.trimEnd rest).
Proof. intros Hc. cbn [Js.trimEnd]. by rewrite Hc. Qed.

Lemma trimEnd_idem s : Js.trimEnd (Js.trimEnd s) = Js.trimEnd s.
Proof.
  induction s as [|c s IH]; [done|].
  cbn [Js.trimEnd]. destruct (Js.isWhite c && Js.isEmpty (Js.trimEnd s)) eqn:E; [done|].
  cbn [Js.trimEnd]. by rewrite IH, E.
Qed.

Lemma trim_idem s : Js.trim (Js.trim s) = Js.trim s.
Proof.
  unfold Js.trim. destruct (trimStart_head s) as [->|(c & rest & -> & Hc)]; [done|].
  by rewrite (trimEnd_cons _ _ Hc), (trimStart_fixed _ _ Hc), (trimEnd_cons _ _ Hc),
    trimEnd_idem.
Qed.

Lemma trim_head s :
  Js.trim s = EmptyString ∨ ∃ c rest, Js.trim s = String c rest ∧ Js.isWhite c = false.
Proof.
  unfold Js.trim. destruct (trimStart_head s) as [->|(c & rest & -> & Hc)]; [by left|].
  right. exists c, (Js.trimEnd rest). by rewrite (trimEnd_cons _ _ Hc).
Qed.

Lemma trimEnd_endsWithSlash s : Js.endsWithSlash s = true → Js.trimEnd s = s.
Proof.
  induction s as [|c s IH]; [done|].
  destruct s as [|d s].
  - cbn [Js.endsWithSlash]. intros ->%Ascii.eqb_eq. reflexivity.
  - intros H. change (Js.endsWithSlash (String d s) = true) in H.
    cbn [Js.trimEnd] in *. rewrite (IH H). cbn [Js.isEmpty]. by rewrite andb_false_r.
Qed.

Lemma slashes_idem s : Js.slashes (Js.slashes s) = Js.slashes s.
Proof.
  induction s as [|c s IH]; [done|].
  cbn [Js.slashes]. rewrite IH. f_equal.
  destruct (Ascii.eqb c "\") eqn:E; [done | by rewrite E].
Qed.

Lemma slashes_hasBackslash s : Js.hasBackslash (Js.slashes s) = false.
Proof.
  induction s as [|c s IH]; [done|].
  cbn [Js.slashes Js.hasBackslash]. rewrite IH, orb_false_r.
  destruct (Ascii.eqb c "\") eqn:E; [done | exact E].
Qed.

Lemma slashes_fixed s : Js.hasBackslash s = false → Js.slashes s = s.
Proof.
  induction s as [|c s IH]; [done|].
  cbn [Js.slashes Js.hasBackslash]. intros [Hc Hs]%orb_false_iff.
  by rewrite Hc, (IH Hs).
Qed.

Lemma hasBackslash_append s t :
  Js.hasBackslash (s ++ t) = Js.hasBackslash s || Js.hasBackslash t.
Proof.
  induction s as [|c s IH]; [done|].
  simpl. by rewrite IH, orb_assoc.
Qed.

Lemma endsWithSlash_append s : Js.endsWithSlash (s ++ "/") = true.
Proof.
  induction s as [|c s IH]; [done|].
  simpl. destruct (s ++ "/") eqn:E; [by destruct s|].
  exact IH.
Qed.

(** The shape of a prefix with something in it: it starts with a character
    that is not white space, ends with a slash and holds no backslash. *)
Lemma normalizePrefix_shape p :
  Js.isEmpty (normalizePrefix p) = false →
  (∃ c rest, normalizePrefix p = String c rest ∧ Js.isWhite c = false)
  ∧ Js.endsWithSlash (normalizePrefix p) = true
  ∧ Js.hasBackslash (normalizePrefix p) = false.
Proof.
  unfold normalizePrefix.
  destruct (trim_head p) as [->|(c & rest & -> & Hc)]; [done|]. intros _.
  cbn [Js.isEmpty].
  set (n := Js.slashes (String c rest)).
  assert (∃ c' rest', n = String c' rest' ∧ Js.isWhite c' = false) as (c' & rest' & Hn & Hc').
  { unfold n. cbn [Js.slashes]. eexists _, _. split; [reflexivity|].
    destruct (Ascii.eqb c "\"); [reflexivity | exact Hc]. }
  assert (Js.hasBackslash n = false) as Hb by apply slashes_hasBackslash.
  destruct (Js.endsWithSlash n) eqn:He.
  - split; [by exists c', rest' | by split].
  - split; [|split].
    + exists c', (rest' ++ "/"). by rewrite Hn.
    + apply endsWithSlash_append.
    + by rewrite hasBackslash_append, Hb.
Qed.

Lemma normalizePrefix_trim_fixed p :
  Js.isEmpty (normalizePrefix p) = false → Js.trim (normalizePrefix p) = normalizePrefix p.
Proof.
  intros E. destruct (normalizePrefix_shape p E) as ((c & rest & Hn & Hc) & He & Hb).
  unfold Js.trim. rewrite Hn, (trimStart_fixed _ _ Hc), <- Hn.
  by apply trimEnd_endsWithSlash.
Qed.

Lemma normalizePrefix_twice p :
  normalizePrefix (normalizePrefix p) = normalizePrefix p.
Proof.
  destruct (Js.isEmpty (normalizePrefix p)) eqn:E.
  - destruct (normalizePrefix p); [done | discriminate].
  - destruct (normalizePrefix_shape p E) as (_ & He & Hb).
    pose proof (normalizePrefix_trim_fixed p E) as Ht.
    set (r := normalizePrefix p) in *.
    unfold normalizePrefix at 1. rewrite Ht, E, (slashes_fixed _ Hb), He. done.
Qed.

(** X1. A normalised folder prefix is either empty (exactly when the given
    prefix is blank) or ends with a slash, contains no backslash and carries
    no white space at either end. *)
Theorem normalizePrefix_normal_form p :
  (Js.isEmpty (normalizePrefix p) = Js.isEmpty (Js.trim p))
  ∧ (Js.isEmpty (normalizePrefix p) = true
     ∨ (Js.endsWithSlash (normalizePrefix p) = true
        ∧ Js.hasBackslash (normalizePrefix p) = false
        ∧ Js.trim (normalizePrefix p) = normalizePrefix p)).
Proof.
  split; [apply normalizePrefix_isEmpty|].
  destruct (Js.isEmpty (normalizePrefix p)) eqn:E; [by left | right].
  destruct (normalizePrefix_shape p E) as (_ & He & Hb).
  split; [exact He | split; [exact Hb | by apply normalizePrefix_trim_fixed]].
Qed.

(** X2. Normalising a folder prefix twice gives what normalising it once
    gives: a rule prefix stored in normal form is read back unchanged, and
    the settings button that normalises the prefix before calling
    [normalizeAllFilesUnderPrefix] selects the same notes as the raw prefix
    would. *)
Theorem normalizePrefix_idempotent p :
  normalizePrefix (normalizePrefix p) = normalizePrefix p
  ∧ ∀ w, normalizeAllFilesUnderPrefix w (normalizePrefix p)
         = normalizeAllFilesUnderPrefix w p.
Proof.
  split; [apply normalizePrefix_twice|].
  intros w. unfold normalizeAllFilesUnderPrefix. by rewrite normalizePrefix_twice.
Qed.

(** ** The managed-key list *)

Lemma hasComma_append s t : Js.hasComma (s ++ t) = Js.hasComma s || Js.hasComma t.
Proof.
  induction s as [|c s IH]; [done|]. simpl. by rewrite IH, orb_assoc.
Qed.

Lemma hasComma_trimStart s : Js.hasComma s = false → Js.hasComma (Js.trimStart s) = false.
Proof.
  induction s as [|c s IH]; [done|].
  cbn [Js.trimStart]. destruct (Js.isWhite c); [|done].
  cbn [Js.hasComma]. intros [_ Hs]%orb_false_iff. by apply IH.
Qed.

Lemma hasComma_trimEnd s : Js.hasComma s = false → Js.hasComma (Js.trimEnd s) = false.
Proof.
  induction s as [|c s IH]; [done|].
  cbn [Js.trimEnd Js.hasComma]. intros [Hc Hs]%orb_false_iff.
  destruct (Js.isWhite c && Js.isEmpty (Js.trimEnd s)); [done|].
  cbn [Js.hasComma]. by rewrite Hc, (IH Hs).
Qed.

Lemma splitComma_pieces s x : x ∈ Js.splitComma s → Js.hasComma x = false.
Proof.
  revert x. induction s as [|c s IH]; intros x.
  - cbn [Js.splitComma]. by intros ->%list_elem_of_singleton.
  - cbn [Js.splitComma]. destruct (Ascii.eqb c ",") eqn:Hc.
    + intros [->|Hx]%elem_of_cons; [done | by apply IH].
    + destruct (Js.splitComma s) as [|piece pieces].
      * intros ->%list_elem_of_singleton. cbn [Js.hasComma]. by rewrite Hc.
      * intros [->|Hx]%elem_of_cons.
        -- cbn [Js.hasComma]. rewrite Hc. apply IH. by left.
        -- apply IH. by right.
Qed.

Lemma splitComma_whole s : Js.hasComma s = false → Js.splitComma s = [s].
Proof.
  induction s as [|c s IH]; [done|].
  cbn [Js.hasComma Js.splitComma]. intros [Hc Hs]%orb_false_iff.
  by rewrite Hc, (IH Hs).
Qed.

Lemma splitComma_append s t :
  Js.hasComma s = false → Js.splitComma (s ++ "," ++ t) = s :: Js.splitComma t.
Proof.
  induction s as [|c s IH]; [done|].
  cbn [Js.hasComma]. intros [Hc Hs]%orb_false_iff.
  change (String c s ++ "," ++ t) with (String c (s ++ "," ++ t)).
  cbn [Js.splitComma]. by rewrite Hc, (IH Hs).
Qed.

Lemma parseManagedKeys_clean raw : Forall isCleanKey (parseManagedKeys raw).
Proof.
  apply Forall_forall. intros k Hk. unfold parseManagedKeys in Hk.
  apply list_elem_of_filter in Hk as [Hne Hk].
  apply list_elem_of_fmap in Hk as (x & -> & Hx).
  split; [exact Hne | split; [apply trim_idem|]].
  unfold Js.trim. by apply hasComma_trimEnd, hasComma_trimStart, (splitComma_pieces raw).
Qed.

Lemma trim_after_space s : Js.trim (" " ++ s) = Js.trim s.
Proof. reflexivity. Qed.

Lemma join_cons2 sep k k2 rest :
  Js.join sep (k :: k2 :: rest) = k ++ sep ++ Js.join sep (k2 :: rest).
Proof. reflexivity. Qed.

Lemma split_join_after_space ks :
  Forall isCleanKey ks → ks ≠ [] →
  map Js.trim (Js.splitComma (" " ++ Js.join ", " ks)) = ks.
Proof.
  induction ks as [|k ks IH]; [done|]. intros Hks _.
  apply Forall_cons in Hks as [(Hne & Ht & Hc) Hks].
  destruct ks as [|k2 ks].
  - cbn [Js.join]. rewrite splitComma_whole by (by rewrite hasComma_append, Hc).
    cbn [map]. by rewrite trim_after_space, Ht.
  - rewrite join_cons2.
    change (" " ++ k ++ ", " ++ Js.join ", " (k2 :: ks))
      with ((" " ++ k) ++ "," ++ " " ++ Js.join ", " (k2 :: ks)).
    rewrite splitComma_append by (by rewrite hasComma_append, Hc).
    cbn [map]. by rewrite trim_after_space, Ht, IH.
Qed.

Lemma split_join ks :
  Forall isCleanKey ks → ks ≠ [] →
  map Js.trim (Js.splitComma (Js.join ", " ks)) = ks.
Proof.
  destruct ks as [|k ks]; [done|]. intros Hks _.
  pose proof Hks as [(Hne & Ht & Hc) Hks']%Forall_cons.
  destruct ks as [|k2 ks].
  - cbn [Js.join]. rewrite (splitComma_whole _ Hc). cbn [map]. by rewrite Ht.
  - rewrite join_cons2.
    change (k ++ ", " ++ Js.join ", " (k2 :: ks))
      with (k ++ "," ++ " " ++ Js.join ", " (k2 :: ks)).
    rewrite (splitComma_append _ _ Hc). cbn [map].
    by rewrite Ht, split_join_after_space.
Qed.

Lemma parseManagedKeys_join ks :
  Forall isCleanKey ks → parseManagedKeys (Js.join ", " ks) = ks.
Proof.
  intros Hks. unfold parseManagedKeys. destruct (decide (ks = [])) as [->|Hne]; [done|].
  rewrite (split_join ks Hks Hne).
  induction Hks as [|k ks (Hk & _) Hks IH]; [done|].
  rewrite filter_cons_True by done.
  destruct ks as [|k2 ks]; [done|]. by rewrite IH.
Qed.

(** X3. Every key of the parsed managed-key list is non-empty, carries no
    white space at either end and contains no comma, whatever the settings
    string holds. *)
Theorem parsed_keys_are_clean raw k :
  k ∈ parseManagedKeys raw →
  Js.isEmpty k = false ∧ Js.trim k = k ∧ Js.hasComma k = false.
Proof.
  intros Hk. by apply (proj1 (Forall_forall _ _) (parseManagedKeys_clean raw)).
Qed.

Lemma parsed_keys_are_clean_witness :
  "status" ∈ parseManagedKeys " priority ,,status , owner"
  ∧ Js.isEmpty "status" = false ∧ Js.trim "status" = "status"
  ∧ Js.hasComma "status" = false.
Proof.
  assert ("status" ∈ parseManagedKeys " priority ,,status , owner") as Hin
    by (apply (bool_decide_unpack _); vm_compute; exact I).
  split; [exact Hin | exact (parsed_keys_are_clean _ _ Hin)].
Defined.

(** X4. The parsed managed-key list survives being shown and read again:
    joining the keys with [", "], as the inspector displays them, and parsing
    the result gives the same list; a list of clean keys is what parsing its
    joined form returns. *)
Theorem parse_join_round_trip raw :
  parseManagedKeys (Js.join ", " (parseManagedKeys raw)) = parseManagedKeys raw
  ∧ ∀ ks, Forall (fun k => Js.isEmpty k = false ∧ Js.trim k = k ∧ Js.hasComma k = false) ks →
          parseManagedKeys (Js.join ", " ks) = ks.
Proof.
  split; [apply parseManagedKeys_join, parseManagedKeys_clean|].
  intros ks Hks. by apply parseManagedKeys_join.
Qed.

Lemma parse_join_round_trip_witness :
  parseManagedKeys (Js.join ", " ["priority"; "due date"; "owner"])
  = ["priority"; "due date"; "owner"].
Proof.
  destruct (parse_join_round_trip "") as [_ Hks]. apply Hks.
  repeat constructor.
Defined.

(** ** The two rule lookups *)

Lemma ruleOfRules_cons path rule rest :
  ruleOfRules path (rule :: rest)
  = if ruleIsComplete rule && Js.startsWith path (normalizePrefix (folderPrefix rule))
    then Some rule
    else ruleOfRules path rest.
Proof.
  simpl. unfold ruleIsComplete. rewrite normalizePrefix_isEmpty.
  destruct (Js.isEmpty (Js.trim (folderPrefix rule))),
    (Js.isEmpty (Js.trim (namespaceSlug rule))); simpl; try done.
Qed.

Lemma slugOfRules_ruleOfRules path rules :
  slugOfRules path rules
  = (fun rule => Js.trim (namespaceSlug rule)) <$> ruleOfRules path rules.
Proof.
  induction rules as [|rule rest IH]; [done|].
  rewrite slugOfRules_cons, ruleOfRules_cons.
  by destruct (ruleIsComplete rule && Js.startsWith path _).
Qed.

Lemma ruleOfRules_Some path rules rule :
  ruleOfRules path rules = Some rule →
  rule ∈ rules
  ∧ ruleIsComplete rule && Js.startsWith path (normalizePrefix (folderPrefix rule)) = true.
Proof.
  induction rules as [|r rest IH]; [done|].
  rewrite ruleOfRules_cons.
  destruct (ruleIsComplete r && Js.startsWith path _) eqn:E.
  - intros [= <-]. split; [by left | done].
  - intros H. destruct (IH H) as [Hin Hm]. split; [by right | done].
Qed.

(** X5. The slug lookup used by the sync and the rule lookup used by restore
    and templates always pick the same rule: the slug found is the trimmed
    slug of the rule found.  The rule found is one of the configured rules
    and matches the path, and the slug found is never blank and has no white
    space left to trim, so [rule.namespaceSlug.trim()] in the restore is the
    slug the sync used. *)
Theorem slug_lookup_agrees_with_rule_lookup st filePath :
  getNamespaceSlugForFile st filePath
  = (fun rule => Js.trim (namespaceSlug rule)) <$> getRuleForFile st filePath
  ∧ (∀ rule, getRuleForFile st filePath = Some rule →
       rule ∈ folderRules st
       ∧ ruleMatches filePath rule = true
       ∧ getNamespaceSlugForFile st filePath = Some (Js.trim (namespaceSlug rule)))
  ∧ (∀ slug, getNamespaceSlugForFile st filePath = Some slug →
       Js.isEmpty slug = false ∧ Js.trim slug = slug).
Proof.
  unfold getNamespaceSlugForFile, getRuleForFile, ruleMatches.
  rewrite slugOfRules_ruleOfRules. split; [done | split].
  - intros rule Hr. rewrite Hr. destruct (ruleOfRules_Some _ _ _ Hr) as [Hin Hm].
    by repeat split.
  - intros slug Hs.
    destruct (ruleOfRules (Js.slashes filePath) (folderRules st)) as [rule|] eqn:Hr;
      [|done].
    injection Hs as <-. destruct (ruleOfRules_Some _ _ _ Hr) as [_ Hm].
    apply andb_true_iff in Hm as [Hc _]. unfold ruleIsComplete in Hc.
    apply andb_true_iff in Hc as [_ Hc]. apply negb_true_iff in Hc.
    split; [exact Hc | apply trim_idem].
Qed.

Lemma slug_lookup_agrees_with_rule_lookup_witness :
  getRuleForFile projectsSettings "index\projects\a.md" = Some projectsRule
  ∧ projectsRule ∈ folderRules projectsSettings
  ∧ ruleMatches "index\projects\a.md" projectsRule = true
  ∧ getNamespaceSlugForFile projectsSettings "index\projects\a.md" = Some "projects".
Proof.
  assert (getRuleForFile projectsSettings "index\projects\a.md" = Some projectsRule) as Hr
    by (vm_compute; reflexivity).
  destruct (slug_lookup_agrees_with_rule_lookup projectsSettings "index\projects\a.md")
    as (_ & Hrule & _).
  destruct (Hrule projectsRule Hr) as (Hin & Hm & Hs).
  split; [exact Hr | split; [exact Hin | split; [exact Hm | exact Hs]]].
Defined.

(** ** Legacy rules *)

Lemma legacyRulesOfItems_complete items rule :
  rule ∈ legacyRulesOfItems items →
  ruleIsComplete rule = true
  ∧ normalizePrefix (folderPrefix rule) = folderPrefix rule
  ∧ Js.trim (namespaceSlug rule) = namespaceSlug rule
  ∧ templateEnabled rule = false
  ∧ templateYaml rule = "".
Proof.
  induction items as [|item items IH]; [by intros ?%elem_of_nil|].
  cbn [legacyRulesOfItems].
  destruct (negb (isObjectLike item)); [exact IH|].
  set (prefix := match Js.getField item "folderPrefix" with JStr s => s | _ => "" end).
  set (slug := match Js.getField item "namespaceSlug" with JStr s => s | _ => "" end).
  destruct (Js.isEmpty (Js.trim prefix)) eqn:Hp; [exact IH|].
  destruct (Js.isEmpty (Js.trim slug)) eqn:Hs; [exact IH|].
  cbn [orb]. intros [->|Hin]%elem_of_cons; [|by apply IH].
  unfold ruleIsComplete. cbn [folderPrefix namespaceSlug templateEnabled templateYaml].
  pose proof (normalizePrefix_isEmpty prefix) as Hempty. rewrite Hp in Hempty.
  rewrite (normalizePrefix_trim_fixed _ Hempty), Hempty, !trim_idem, Hs,
    normalizePrefix_twice. done.
Qed.

(** X6. Every rule that [safeJsonParseLegacyRules] returns is complete
    (neither prefix nor slug blank), is stored in normal form (normalising
    its prefix or trimming its slug again changes nothing) and has its
    template switched off; and whenever an error is reported no rule is
    returned. *)
Theorem legacy_rules_are_complete_and_normal jsonParse raw :
  (∀ rule, rule ∈ fst (safeJsonParseLegacyRules jsonParse raw) →
     ruleIsComplete rule = true
     ∧ normalizePrefix (folderPrefix rule) = folderPrefix rule
     ∧ Js.trim (namespaceSlug rule) = namespaceSlug rule
     ∧ templateEnabled rule = false
     ∧ templateYaml rule = "")
  ∧ (∀ message, snd (safeJsonParseLegacyRules jsonParse raw) = Some message →
       fst (safeJsonParseLegacyRules jsonParse raw) = []).
Proof.
  unfold safeJsonParseLegacyRules.
  destruct (Js.isEmpty (Js.trim raw)); [split; [by intros ? ?%elem_of_nil | done]|].
  destruct (jsonParse (Js.trim raw)) as [[]|]; cbn [fst snd];
    try (split; [by intros ? ?%elem_of_nil | done]).
  split; [apply legacyRulesOfItems_complete | done].
Qed.

Lemma legacy_rules_are_complete_and_normal_witness :
  legacyRule ∈ fst (safeJsonParseLegacyRules (fun _ => Some legacyJson) "[...]")
  ∧ ruleIsComplete legacyRule = true
  ∧ normalizePrefix (folderPrefix legacyRule) = folderPrefix legacyRule.
Proof.
  assert (legacyRule ∈ fst (safeJsonParseLegacyRules (fun _ => Some legacyJson) "[...]"))
    as Hin by (vm_compute; apply list_elem_of_singleton; reflexivity).
  destruct (legacy_rules_are_complete_and_normal (fun _ => Some legacyJson) "[...]")
    as [Hrules _].
  destruct (Hrules legacyRule Hin) as (Hc & Hn & _).
  split; [exact Hin | split; [exact Hc | exact Hn]].
Defined.

(** ** What the passes leave alone *)

(** X7. Keys outside the managed list are never touched: a key that is
    neither a managed alias key nor the storage key of one has, after the
    sync mutator and after the restore mutator, exactly the binding (or the
    absence) it had before. *)
Theorem passes_touch_only_managed_keys st slug (managed : list string) fm x :
  x ∉ managed →
  (∀ a, a ∈ managed → x ≠ makeStorageKey st slug a) →
  applySync st slug managed fm !! x = fm !! x
  ∧ restoreAliases st slug managed fm !! x = fm !! x.
Proof.
  intros Hx Hsk. split.
  - by apply applySync_frame.
  - by apply restoreAliases_frame.
Qed.

Lemma passes_touch_only_managed_keys_witness :
  applySync DEFAULT_SETTINGS "projects" (getManagedAliasKeys DEFAULT_SETTINGS)
    taggedFrontmatter !! "tags" = taggedFrontmatter !! "tags"
  ∧ restoreAliases DEFAULT_SETTINGS "projects" (getManagedAliasKeys DEFAULT_SETTINGS)
      taggedFrontmatter !! "tags" = taggedFrontmatter !! "tags".
Proof.
  apply passes_touch_only_managed_keys.
  - apply (bool_decide_unpack _). vm_compute. exact I.
  - intros a Ha. apply (bool_decide_unpack _).
    repeat (apply elem_of_cons in Ha as [->|Ha]; [vm_compute; exact I|]).
    by apply elem_of_nil in Ha.
Defined.

(** ** The two removal policies *)

(** X8. With the removal policy off the sync mutator only adds: every
    binding of the input is still there afterwards, so the map it returns
    contains the map it was given. *)
Theorem sync_without_removal_only_adds st slug managed fm :
  removePlainAliasKeysOnSync st = false →
  fm ⊆ applySync st slug managed fm.
Proof.
  intros Hr. apply map_subseteq_spec. intros x v Hx.
  apply applySync_preserves; [done | by left].
Qed.

Lemma sync_without_removal_only_adds_witness :
  removePlainAliasKeysOnSync keepAliasSettings = false
  ∧ divergedFrontmatter
    ⊆ applySync keepAliasSettings "projects" (getManagedAliasKeys keepAliasSettings)
        divergedFrontmatter.
Proof.
  split; [reflexivity|]. by apply sync_without_removal_only_adds.
Defined.

Lemma applySync_size st slug managed fm :
  removePlainAliasKeysOnSync st = true →
  (size (applySync st slug managed fm) ≤ size fm)%nat.
Proof.
  intros Hr. unfold applySync.
  destruct (foldl_syncStep_reach st slug managed (ordinary fm)) as [->|Hadv]; [done|].
  rewrite Hr in Hadv. unfold advanced in Hadv. cbn [ordinary own] in Hadv. lia.
Qed.

Lemma syncProtoView_alias_gone n s :
  fst (fst (Nat.iter (S n) (syncProtoView true) s)) = None.
Proof.
  cbn [Nat.iter nat_rect].
  destruct (nat_rect _ s _ n) as [[[u|] [v|]] p]; cbn [syncProtoView]; try done.
  by destruct (reachesProtoSetter p).
Qed.

Lemma applySync_alias_gone st slug managed fm a :
  removePlainAliasKeysOnSync st = true →
  keysApart st slug managed → a ∈ managed →
  applySync st slug managed fm !! a = None.
Proof.
  intros Hr Hap Ha.
  destruct (decide (makeStorageKey st slug a = protoKey)) as [Hsk|Hplain].
  - change (fst (fst (view st slug (own (foldl (syncStep st slug) (ordinary fm) managed)) a,
                      proto (foldl (syncStep st slug) (ordinary fm) managed))) = None).
    rewrite (foldl_syncStep_proto_view st slug managed (ordinary fm) a Hap Ha Hsk), Hr.
    destruct (length (filter (fun b => b = a) managed)) as [|n] eqn:Hn;
      [|apply syncProtoView_alias_gone].
    apply length_zero_iff_nil in Hn.
    assert (a ∈ filter (fun b => b = a) managed) as Hin by (by apply list_elem_of_filter).
    rewrite Hn in Hin. by apply elem_of_nil in Hin.
  - pose proof (applySync_view st slug managed fm a Hap Ha Hplain) as Hv.
    rewrite Hr in Hv. unfold view in Hv.
    destruct (fm !! a) as [u|], (fm !! makeStorageKey st slug a) as [s|];
      simpl in Hv; by injection Hv.
Qed.

(** X9. With the removal policy on the sync mutator never makes the
    frontmatter larger, and, when no managed key is the storage key of a
    managed key, it leaves no managed alias key behind: each one that was
    present has been moved to, or dropped in favour of, its storage key,
    unless that storage key is ["__proto__"]. *)
Theorem sync_with_removal_cleans_aliases st slug managed fm :
  removePlainAliasKeysOnSync st = true →
  (size (applySync st slug managed fm) ≤ size fm)%nat
  ∧ (keysApart st slug managed →
     ∀ a, a ∈ managed →
          applySync st slug managed fm !! a = None
          ∧ (makeStorageKey st slug a ≠ protoKey →
             is_Some (fm !! a) →
             is_Some (applySync st slug managed fm !! makeStorageKey st slug a))).
Proof.
  intros Hr. split; [by apply applySync_size|]. intros Hap a Ha.
  split; [by apply applySync_alias_gone|]. intros Hplain.
  pose proof (applySync_view st slug managed fm a Hap Ha Hplain) as Hv.
  rewrite Hr in Hv. unfold view in Hv.
  destruct (fm !! a) as [u|], (fm !! makeStorageKey st slug a) as [s|];
    simpl in Hv; injection Hv as _ ->; try done; by intros [? [=]].
Qed.

Lemma sync_with_removal_cleans_aliases_witness :
  keysApart DEFAULT_SETTINGS "projects" (getManagedAliasKeys DEFAULT_SETTINGS)
  ∧ applySync DEFAULT_SETTINGS "projects" (getManagedAliasKeys DEFAULT_SETTINGS)
      divergedFrontmatter !! "priority" = None
  ∧ is_Some (applySync DEFAULT_SETTINGS "projects" (getManagedAliasKeys DEFAULT_SETTINGS)
               divergedFrontmatter !! makeStorageKey DEFAULT_SETTINGS "projects" "priority").
Proof.
  assert (keysApart DEFAULT_SETTINGS "projects" (getManagedAliasKeys DEFAULT_SETTINGS))
    as Hap by (apply keysApart_Forall, (bool_decide_unpack _); vm_compute; exact I).
  assert ("priority" ∈ getManagedAliasKeys DEFAULT_SETTINGS) as Hin
    by (apply (bool_decide_unpack _); vm_compute; exact I).
  destruct (sync_with_removal_cleans_aliases DEFAULT_SETTINGS "projects"
              (getManagedAliasKeys DEFAULT_SETTINGS) divergedFrontmatter eq_refl)
    as [_ Hclean].
  destruct (Hclean Hap "priority" Hin) as [Hgone Hmoved].
  split; [exact Hap | split; [exact Hgone|]].
  apply Hmoved; [vm_compute; discriminate | vm_compute; eauto].
Defined.

(** ** Restore *)

Lemma restoreStep_other_proto st slug o b :
  b ≠ protoKey → proto (restoreStep st slug o b) = proto o.
Proof.
  intros Hplain. unfold restoreStep. rewrite (assign_plain _ _ _ Hplain).
  by repeat match goal with |- context [if ?c then _ else _] => destruct c end.
Qed.

Lemma restoreStep_proto_view st slug o :
  (view st slug (own (restoreStep st slug o protoKey)) protoKey,
   proto (restoreStep st slug o protoKey))
  = restoreProtoView (deleteStorageKeysOnRestore st) (view st slug (own o) protoKey, proto o).
Proof.
  pose proof (makeStorageKey_ne st slug protoKey) as Hne.
  unfold view, restoreStep, restoreProtoView.
  set (sk := makeStorageKey st slug protoKey) in *.
  destruct (own o !! sk) as [s|] eqn:Hs.
  - rewrite (proj2 (hasOwn_true (own o) sk)) by eauto. cbn [negb].
    rewrite (getProp_lookup _ _ _ Hs).
    destruct (own o !! protoKey) as [u|] eqn:Hu.
    + rewrite assign_present by eauto.
      destruct (deleteStorageKeysOnRestore st); cbn [negb andb deleteProp own proto].
      * by rewrite lookup_delete_eq, lookup_delete_ne, lookup_insert_eq.
      * by rewrite lookup_insert_eq, lookup_insert_ne, Hs.
    + rewrite (assign_proto _ _ Hu).
      destruct (reachesProtoSetter (proto o)), (deleteStorageKeysOnRestore st);
        cbn [negb andb deleteProp own proto].
      all: rewrite ?lookup_delete_eq, ?lookup_delete_ne, ?lookup_insert_eq,
             ?lookup_insert_ne by done.
      all: by rewrite ?Hs, ?Hu.
  - rewrite (proj2 (hasOwn_false (own o) sk)) by done. cbn [negb].
    destruct (own o !! protoKey); by rewrite ?Hs.
Qed.

Lemma restoreProtoView_cubed d s :
  restoreProtoView d (restoreProtoView d (restoreProtoView d s))
  = restoreProtoView d (restoreProtoView d s).
Proof.
  destruct s as [[[u|] [s|]] p], d; cbn [restoreProtoView]; try reflexivity.
  all: destruct (reachesProtoSetter p) eqn:Hp; cbn [restoreProtoView]; rewrite ?Hp;
    try reflexivity.
  destruct (reachesProtoSetter (setPrototypeOf p s)) eqn:Hq; cbn [restoreProtoView];
    rewrite ?setPrototypeOf_idem, ?Hq; reflexivity.
Qed.

Lemma restoreProtoView_second_pass d n v :
  fst (Nat.iter n (restoreProtoView d)
         (fst (Nat.iter n (restoreProtoView d) (v, ProtoObject)), ProtoObject))
  = fst (Nat.iter n (restoreProtoView d) (v, ProtoObject)).
Proof.
  destruct n as [|[|n]]; [done| |].
  - cbn [Nat.iter nat_rect].
    destruct v as [[u|] [s|]], d; cbn [restoreProtoView reachesProtoSetter fst];
      reflexivity.
  - rewrite !(iter_settled _ n) by apply restoreProtoView_cubed.
    destruct v as [[u|] [s|]], d; cbn [restoreProtoView reachesProtoSetter fst];
      try reflexivity.
    destruct (reachesProtoSetter (setPrototypeOf ProtoObject s)) eqn:Hq;
      cbn [restoreProtoView reachesProtoSetter fst]; rewrite ?Hq;
      cbn [restoreProtoView reachesProtoSetter fst]; reflexivity.
Qed.

Lemma foldl_restoreStep_proto_view st slug managed o :
  keysApart st slug managed → protoKey ∈ managed →
  (view st slug (own (foldl (restoreStep st slug) o managed)) protoKey,
   proto (foldl (restoreStep st slug) o managed))
  = Nat.iter (length (filter (fun b => b = protoKey) managed))
      (restoreProtoView (deleteStorageKeysOnRestore st))
      (view st slug (own o) protoKey, proto o).
Proof.
  intros Hap Ha.
  apply (foldl_obs (restoreStep st slug)
           (fun o' => (view st slug (own o') protoKey, proto o')) _ protoKey
           (fun b => b ∈ managed)).
  - intros o' b Hne Hb.
    destruct (keysApart_separates st slug managed protoKey Hap Ha b Hb) as [H1 H2].
    rewrite restoreStep_other_view by done.
    by rewrite restoreStep_other_proto.
  - intros o'. apply restoreStep_proto_view.
  - done.
Qed.

Lemma restoreAliases_second_pass_view st slug managed fm a :
  keysApart st slug managed → a ∈ managed →
  view st slug (restoreAliases st slug managed (restoreAliases st slug managed fm)) a
  = view st slug (restoreAliases st slug managed fm) a.
Proof.
  intros Hap Ha.
  destruct (decide (a = protoKey)) as [->|Hplain].
  - pose proof (foldl_restoreStep_proto_view st slug managed (ordinary fm) Hap Ha) as H1.
    pose proof (foldl_restoreStep_proto_view st slug managed
                  (ordinary (restoreAliases st slug managed fm)) Hap Ha) as H2.
    apply (f_equal fst) in H1, H2. cbn [fst ordinary own proto] in H1, H2.
    unfold restoreAliases at 1. rewrite H2.
    fold (restoreAliases st slug managed fm) in H1.
    rewrite H1. apply restoreProtoView_second_pass.
  - by rewrite !restoreAliases_view, restoreView_idem.
Qed.

(** X10. When no managed key is the storage key of a managed key, restoring
    twice is restoring once, with storage keys deleted or kept: the second
    call finds nothing left to do (deleting) or copies the same values again
    (keeping). *)
Theorem restoreAliases_idempotent st slug managed fm :
  keysApart st slug managed →
  restoreAliases st slug managed (restoreAliases st slug managed fm)
  = restoreAliases st slug managed fm.
Proof.
  intros Hap. apply (frontmatter_eq_by_views st slug managed).
  - intros a Ha. by apply restoreAliases_second_pass_view.
  - intros x Hx Hsk. by apply restoreAliases_frame.
Qed.

Lemma restoreAliases_idempotent_witness :
  keysApart fullRevertSettings "projects" (getManagedAliasKeys fullRevertSettings)
  ∧ restoreAliases fullRevertSettings "projects" (getManagedAliasKeys fullRevertSettings)
      (restoreAliases fullRevertSettings "projects" (getManagedAliasKeys fullRevertSettings)
         divergedFrontmatter)
    = restoreAliases fullRevertSettings "projects" (getManagedAliasKeys fullRevertSettings)
        divergedFrontmatter.
Proof.
  assert (keysApart fullRevertSettings "projects" (getManagedAliasKeys fullRevertSettings))
    as Hap by (apply keysApart_Forall, (bool_decide_unpack _); vm_compute; exact I).
  split; [exact Hap | exact (restoreAliases_idempotent _ _ _ _ Hap)].
Defined.

(** X11. A restore is undone by the next sync: with the removal policy on, no
    managed key being the storage key of a managed key, and ["__proto__"]
    being neither a managed key nor the storage key of one, syncing a note,
    restoring its aliases (deleting the storage keys or not) and syncing
    again gives exactly the note the first sync gave. *)
Theorem sync_undoes_restore st slug managed fm :
  removePlainAliasKeysOnSync st = true →
  keysApart st slug managed →
  protoKey ∉ managed →
  (∀ a, a ∈ managed → makeStorageKey st slug a ≠ protoKey) →
  applySync st slug managed
    (restoreAliases st slug managed (applySync st slug managed fm))
  = applySync st slug managed fm.
Proof.
  intros Hr Hap Hal Hsk. apply (frontmatter_eq_by_views st slug managed).
  - intros a Ha.
    assert (a ≠ protoKey) as Hne by (by intros ->).
    rewrite applySync_view, restoreAliases_view, (applySync_view _ _ _ fm)
      by (done || by apply Hsk).
    rewrite Hr.
    destruct (view st slug fm a) as [[u|] [s|]], (deleteStorageKeysOnRestore st);
      reflexivity.
  - intros x Hx Hout.
    rewrite applySync_frame, restoreAliases_frame by done.
    by rewrite applySync_frame.
Qed.

Lemma sync_undoes_restore_witness :
  keysApart DEFAULT_SETTINGS "projects" (getManagedAliasKeys DEFAULT_SETTINGS)
  ∧ (protoKey ∉ getManagedAliasKeys DEFAULT_SETTINGS)
  ∧ applySync DEFAULT_SETTINGS "projects" (getManagedAliasKeys DEFAULT_SETTINGS)
      (restoreAliases DEFAULT_SETTINGS "projects" (getManagedAliasKeys DEFAULT_SETTINGS)
         (applySync DEFAULT_SETTINGS "projects" (getManagedAliasKeys DEFAULT_SETTINGS)
            taggedFrontmatter))
    = applySync DEFAULT_SETTINGS "projects" (getManagedAliasKeys DEFAULT_SETTINGS)
        taggedFrontmatter.
Proof.
  assert (keysApart DEFAULT_SETTINGS "projects" (getManagedAliasKeys DEFAULT_SETTINGS))
    as Hap by (apply keysApart_Forall, (bool_decide_unpack _); vm_compute; exact I).
  assert (protoKey ∉ getManagedAliasKeys DEFAULT_SETTINGS) as Hal
    by (apply (bool_decide_unpack _); vm_compute; exact I).
  assert (∀ a, a ∈ getManagedAliasKeys DEFAULT_SETTINGS →
               makeStorageKey DEFAULT_SETTINGS "projects" a ≠ protoKey) as Hsk.
  { intros a Ha.
    repeat (apply elem_of_cons in Ha as [->|Ha]; [vm_compute; discriminate|]).
    by apply elem_of_nil in Ha. }
  split; [exact Hap | split; [exact Hal|]].
  exact (sync_undoes_restore DEFAULT_SETTINGS "projects"
           (getManagedAliasKeys DEFAULT_SETTINGS) taggedFrontmatter eq_refl Hap Hal Hsk).
Defined.

(** ** Templates and added properties *)

Lemma assign_reach_back o key v :
  reachesProtoSetter (proto (assign o key v)) = true →
  reachesProtoSetter (proto o) = true.
Proof.
  destruct (assign_cases o key v) as [->|(_ & _ & Hreach & _)]; [|done].
  by cbn [proto].
Qed.

(** A turn changes the prototype only through an assignment that got as far
    as the setter of [Object.prototype]. *)
Lemma templateStep_reach_back st slug managed o entry :
  reachesProtoSetter (proto (templateStep st slug managed o entry)) = true →
  reachesProtoSetter (proto o) = true.
Proof.
  destruct entry as [k v]. unfold templateStep.
  destruct (Js.isEmpty _); [done|].
  destruct (negb _ && negb _); [done|].
  destruct (hasOwn (own o) _); [done|].
  destruct (negb (removePlainAliasKeysOnSync st)); [|apply assign_reach_back].
  destruct (negb (hasOwn _ _)); [|apply assign_reach_back].
  intros H. by apply assign_reach_back, assign_reach_back in H.
Qed.

Lemma setPrototypeOf_reach p q v :
  (reachesProtoSetter p = true → reachesProtoSetter q = true) →
  reachesProtoSetter (setPrototypeOf p v) = true →
  reachesProtoSetter (setPrototypeOf q v) = true.
Proof. intros Hpq. destruct v; cbn [setPrototypeOf]; done || apply Hpq. Qed.

(** The second pass in step with the first: [q] holds what the first pass
    will have left, [o] is where the first pass stands; the turn that the
    first pass takes from [o] is one the second pass has no effect with. *)
Lemma templateStep_lockstep st slug managed o q entry :
  (∀ x v, own (templateStep st slug managed o entry) !! x = Some v → is_Some (own q !! x)) →
  (reachesProtoSetter (proto o) = true → reachesProtoSetter (proto q) = true) →
  own (templateStep st slug managed q entry) = own q
  ∧ (reachesProtoSetter (proto (templateStep st slug managed o entry)) = true →
     reachesProtoSetter (proto (templateStep st slug managed q entry)) = true).
Proof.
  intros Hsub Hreach. destruct entry as [k v].
  destruct (Js.isEmpty (Js.trim k)) eqn:Hk.
  { by rewrite !templateStep_blank. }
  destruct (decide (managed = [] ∨ Js.trim k ∈ managed)) as [Hin|Hout].
  2: { assert (managed ≠ [] ∧ Js.trim k ∉ managed) as [Hne Hnot]
         by (split; [intros ?; apply Hout; by left | intros ?; apply Hout; by right]).
       by rewrite !templateStep_unmanaged. }
  set (sk := makeStorageKey st slug (Js.trim k)) in *.
  destruct (own q !! sk) as [s|] eqn:Hqs.
  { rewrite (templateStep_present st slug managed q) by (fold sk; eauto).
    split; [done|]. intros H. by apply templateStep_reach_back, Hreach in H. }
  assert (own o !! sk = None) as Hos.
  { destruct (own o !! sk) as [s|] eqn:Hos; [|done].
    rewrite (templateStep_present st slug managed o) in Hsub by (fold sk; eauto).
    destruct (Hsub sk s Hos) as [? ?]. congruence. }
  pose proof (makeStorageKey_ne st slug (Js.trim k)) as Hne. fold sk in Hne.
  rewrite (templateStep_acts st slug managed o) in Hsub |- * by done.
  rewrite (templateStep_acts st slug managed q) by done.
  fold sk in Hsub |- *. cbn zeta in Hsub |- *.
  destruct (assign_cases o sk v) as [Ho|(Hsk & _ & Hro & Ho)].
  { exfalso.
    assert (is_Some (own q !! sk)) as [? ?]; [|congruence].
    destruct (negb (removePlainAliasKeysOnSync st) && negb (hasOwn (own (assign o sk v)) (Js.trim k))).
    - apply (Hsub sk v). rewrite assign_lookup_ne by done.
      rewrite Ho. cbn [own]. apply lookup_insert_eq.
    - apply (Hsub sk v). rewrite Ho. cbn [own]. apply lookup_insert_eq. }
  assert (Js.trim k ≠ protoKey) as Hal by (by rewrite <- Hsk).
  rewrite Hsk in Hqs.
  rewrite Ho in Hsub |- *. rewrite Hsk, (assign_proto _ _ Hqs), (Hreach Hro).
  cbn [own proto] in Hsub |- *.
  destruct (removePlainAliasKeysOnSync st); cbn [negb andb] in Hsub |- *.
  { split; [done|]. by apply setPrototypeOf_reach. }
  assert (is_Some (own q !! Js.trim k)) as Hqa.
  { destruct (hasOwn (own o) (Js.trim k)) eqn:Hoa; cbn [negb] in Hsub.
    - apply hasOwn_true in Hoa as [u Hu]. by apply (Hsub _ u).
    - apply (Hsub _ v). rewrite (assign_plain _ _ _ Hal). cbn [own].
      apply lookup_insert_eq. }
  rewrite (proj2 (hasOwn_true _ _) Hqa). cbn [negb own proto].
  split; [done|].
  destruct (hasOwn (own o) (Js.trim k)); cbn [negb];
    rewrite ?(assign_plain _ _ _ Hal); cbn [proto]; by apply setPrototypeOf_reach.
Qed.

Lemma foldl_templateStep_lockstep st slug managed es o q :
  own q = own (foldl (templateStep st slug managed) o es) →
  (reachesProtoSetter (proto o) = true → reachesProtoSetter (proto q) = true) →
  own (foldl (templateStep st slug managed) q es) = own q.
Proof.
  revert o q. induction es as [|entry es IH]; intros o q Hown Hreach; [done|].
  cbn [foldl] in Hown |- *.
  destruct (templateStep_lockstep st slug managed o q entry) as [Hsame Hnext].
  - intros x v Hx. rewrite Hown. exists v. by apply foldl_templateStep_preserves.
  - done.
  - rewrite (IH (templateStep st slug managed o entry)); [done | congruence | done].
Qed.

(** X12. Applying a template twice is applying it once, whatever the
    settings, the managed keys and the note: after one pass every declared
    key is blank, unmanaged or has its storage key, or else its storage key
    is ["__proto__"], which the first pass could not create and the second
    cannot either; so a second pass, on the note as persisted, creates no
    property. *)
Theorem applyTemplate_idempotent st slug managed obj fm :
  applyTemplate st slug managed obj (applyTemplate st slug managed obj fm)
  = applyTemplate st slug managed obj fm.
Proof.
  unfold applyTemplate at 1.
  by apply (foldl_templateStep_lockstep st slug managed (Js.entries obj) (ordinary fm)).
Qed.

(** X13. The mutator of "Add managed property" never overwrites: the alias
    key keeps the value it had, or becomes null when it was absent and is not
    ["__proto__"], for which nothing is added; every other key is left as it
    was; adding the same property again changes nothing. *)
Theorem addManagedProperty_only_fills_gap aliasKey fm :
  (aliasKey ≠ protoKey →
   addManagedProperty aliasKey fm !! aliasKey = Some (default JNull (fm !! aliasKey)))
  ∧ addManagedProperty protoKey fm = fm
  ∧ (∀ x, x ≠ aliasKey → addManagedProperty aliasKey fm !! x = fm !! x)
  ∧ addManagedProperty aliasKey (addManagedProperty aliasKey fm)
    = addManagedProperty aliasKey fm.
Proof.
  assert (addManagedProperty protoKey fm = fm) as Hproto.
  { unfold addManagedProperty. destruct (fm !! protoKey) as [v|] eqn:Hv.
    - by rewrite (proj2 (hasOwn_true fm protoKey)) by eauto.
    - rewrite (proj2 (hasOwn_false fm protoKey)) by done. cbn [negb].
      by rewrite (assign_proto (ordinary fm) JNull Hv). }
  split; [|split; [done|]].
  - intros Hplain. unfold addManagedProperty.
    destruct (fm !! aliasKey) as [v|] eqn:Hv.
    + rewrite (proj2 (hasOwn_true fm aliasKey)) by eauto. cbn [negb default]. done.
    + rewrite (proj2 (hasOwn_false fm aliasKey)) by done. cbn [negb default].
      rewrite (assign_plain _ _ _ Hplain). cbn [own ordinary]. apply lookup_insert_eq.
  - destruct (decide (aliasKey = protoKey)) as [->|Hplain].
    { rewrite !Hproto. done. }
    unfold addManagedProperty.
    destruct (fm !! aliasKey) as [v|] eqn:Hv.
    + rewrite (proj2 (hasOwn_true fm aliasKey)) by eauto. cbn [negb].
      rewrite (proj2 (hasOwn_true fm aliasKey)) by eauto. done.
    + rewrite (proj2 (hasOwn_false fm aliasKey)) by done. cbn [negb].
      rewrite (assign_plain _ _ _ Hplain). cbn [own ordinary].
      rewrite (proj2 (hasOwn_true _ aliasKey)) by (rewrite lookup_insert_eq; eauto).
      split; [|done]. intros x Hx. by rewrite lookup_insert_ne.
Qed.

Lemma addManagedProperty_only_fills_gap_witness :
  "tags" ≠ "owner"
  ∧ addManagedProperty "owner" taggedFrontmatter !! "tags" = taggedFrontmatter !! "tags"
  ∧ addManagedProperty "owner" taggedFrontmatter !! "owner" = Some JNull.
Proof.
  assert ("tags" ≠ "owner") as Hne by discriminate.
  assert ("owner" ≠ protoKey) as Hplain by discriminate.
  destruct (addManagedProperty_only_fills_gap "owner" taggedFrontmatter)
    as (Hal & _ & Hother & _).
  split; [exact Hne | split; [exact (Hother "tags" Hne) | exact (Hal Hplain)]].
Defined.

(** X14. What the sync scheduled by "Add managed property" makes of the added
    key (removal policy on, no managed key being the storage key of a managed
    key, neither the key nor its storage key being ["__proto__"]): the alias
    key is gone again, and the storage key holds the value it already had, or
    else the alias key's value, or else, when the note had neither, null. *)
Theorem added_property_after_sync st slug managed fm a :
  removePlainAliasKeysOnSync st = true →
  keysApart st slug managed →
  a ∈ managed →
  a ≠ protoKey →
  makeStorageKey st slug a ≠ protoKey →
  applySync st slug managed (addManagedProperty a fm) !! a = None
  ∧ applySync st slug managed (addManagedProperty a fm) !! makeStorageKey st slug a
    = match fm !! makeStorageKey st slug a with
      | Some v => Some v
      | None => Some (default JNull (fm !! a))
      end.
Proof.
  intros Hr Hap Ha Hal Hsk.
  pose proof (applySync_view st slug managed (addManagedProperty a fm) a Hap Ha Hsk) as Hv.
  pose proof (makeStorageKey_ne st slug a) as Hne.
  assert (view st slug (addManagedProperty a fm) a
          = (Some (default JNull (fm !! a)), fm !! makeStorageKey st slug a)) as Hview.
  { unfold view, addManagedProperty.
    destruct (fm !! a) as [u|] eqn:Hu.
    - rewrite (proj2 (hasOwn_true fm a)) by eauto. cbn [negb default]. by rewrite Hu.
    - rewrite (proj2 (hasOwn_false fm a)) by done. cbn [negb default].
      rewrite (assign_plain _ _ _ Hal). cbn [own ordinary].
      by rewrite lookup_insert_eq, lookup_insert_ne. }
  rewrite Hview, Hr in Hv. unfold view in Hv.
  destruct (fm !! makeStorageKey st slug a) as [s|]; simpl in Hv;
    by injection Hv as -> ->.
Qed.

Lemma added_property_after_sync_witness :
  keysApart DEFAULT_SETTINGS "projects" (getManagedAliasKeys DEFAULT_SETTINGS)
  ∧ "owner" ∈ getManagedAliasKeys DEFAULT_SETTINGS
  ∧ applySync DEFAULT_SETTINGS "projects" (getManagedAliasKeys DEFAULT_SETTINGS)
      (addManagedProperty "owner" taggedFrontmatter) !! "owner" = None
  ∧ applySync DEFAULT_SETTINGS "projects" (getManagedAliasKeys DEFAULT_SETTINGS)
      (addManagedProperty "owner" taggedFrontmatter) !! "projects__owner" = Some JNull.
Proof.
  assert (keysApart DEFAULT_SETTINGS "projects" (getManagedAliasKeys DEFAULT_SETTINGS))
    as Hap by (apply keysApart_Forall, (bool_decide_unpack _); vm_compute; exact I).
  assert ("owner" ∈ getManagedAliasKeys DEFAULT_SETTINGS) as Hin
    by (apply (bool_decide_unpack _); vm_compute; exact I).
  assert ("owner" ≠ protoKey) as Hal by discriminate.
  assert (makeStorageKey DEFAULT_SETTINGS "projects" "owner" ≠ protoKey) as Hsk
    by (vm_compute; discriminate).
  destruct (added_property_after_sync DEFAULT_SETTINGS "projects"
              (getManagedAliasKeys DEFAULT_SETTINGS) taggedFrontmatter "owner"
              eq_refl Hap Hin Hal Hsk) as [Hgone Hsto].
  split; [exact Hap | split; [exact Hin | split; [exact Hgone | exact Hsto]]].
Defined.

(** ** The operations and the in-flight set *)

Lemma release_acquire_inFlight (f : string) (s : gset string) :
  f ∉ s → ({[f]} ∪ s) ∖ {[f]} = s.
Proof.
  intros Hf. apply set_eq. intros x.
  rewrite elem_of_difference, elem_of_union, elem_of_singleton.
  split; [by intros [[?|?] ?] | intros ?; split; [by right | by intros ->]].
Qed.

Lemma processFrontMatter_frame w f mutator :
  let w' := fst (processFrontMatter w f mutator) in
  settings w' = settings w ∧ rejecting w' = rejecting w ∧ inFlight w' = inFlight w
  ∧ pendingTimers w' = pendingTimers w ∧ markdownFiles w' = markdownFiles w
  ∧ cacheOf w' = cacheOf w
  ∧ (∀ g, g ≠ f → docFrontmatter w' g = docFrontmatter w g).
Proof.
  unfold processFrontMatter. destruct (bool_decide (f ∈ rejecting w)); cbn.
  - done.
  - repeat split. intros g Hg. unfold docFrontmatter. cbn. by rewrite lookup_insert_ne.
Qed.

Lemma processFrontMatter_timers w f mutator :
  let w' := fst (processFrontMatter w f mutator) in
  armedTimers w' = armedTimers w ∧ nextTimerId w' = nextTimerId w.
Proof. unfold processFrontMatter. by destruct (bool_decide (f ∈ rejecting w)). Qed.

Lemma scheduleNormalize_frame w f reason :
  let w' := scheduleNormalize w f reason in
  settings w' = settings w ∧ rejecting w' = rejecting w ∧ inFlight w' = inFlight w
  ∧ markdownFiles w' = markdownFiles w ∧ cacheOf w' = cacheOf w
  ∧ frontmatterOf w' = frontmatterOf w.
Proof.
  unfold scheduleNormalize. destruct (getNamespaceSlugForFile _ _); [|done].
  destruct (pendingTimers w !! f) as [existing|]; [|done].
  by destruct (Nat.eqb existing 0).
Qed.

Lemma normalizeEnter_not_in_flight w f slug managed :
  normalizeEnter w f = Some (slug, managed) → f ∉ inFlight w.
Proof.
  unfold normalizeEnter. destruct (getNamespaceSlugForFile _ _); [|done].
  destruct (bool_decide (f ∈ inFlight w)) eqn:E; [done|].
  intros _. by apply bool_decide_eq_false in E.
Qed.

Lemma normalizeFileNow_frame w f reason :
  let w' := fst (normalizeFileNow w f reason) in
  settings w' = settings w ∧ rejecting w' = rejecting w ∧ inFlight w' = inFlight w
  ∧ pendingTimers w' = pendingTimers w ∧ markdownFiles w' = markdownFiles w
  ∧ cacheOf w' = cacheOf w
  ∧ (∀ g, g ≠ f → docFrontmatter w' g = docFrontmatter w g).
Proof.
  unfold normalizeFileNow.
  destruct (normalizeEnter w f) as [[slug managed]|] eqn:Henter; [|done].
  pose proof (normalizeEnter_not_in_flight _ _ _ _ Henter) as Hfl.
  pose proof (processFrontMatter_frame (acquire f w) f
                (applySync (settings w) slug managed))
    as (Hst & Hrj & Hif & Hpt & Hmd & Hca & Hdoc).
  unfold tryFinallyRelease, release. cbn [fst settings rejecting inFlight pendingTimers
    markdownFiles cacheOf withInFlight docFrontmatter frontmatterOf].
  rewrite Hif. cbn [acquire inFlight withInFlight].
  rewrite (release_acquire_inFlight _ _ Hfl).
  repeat split; try done; intros g Hg; by apply Hdoc.
Qed.

Lemma normalizeFileNow_timers w f reason :
  let w' := fst (normalizeFileNow w f reason) in
  armedTimers w' = armedTimers w ∧ nextTimerId w' = nextTimerId w.
Proof.
  unfold normalizeFileNow.
  destruct (normalizeEnter w f) as [[slug managed]|]; [|done].
  pose proof (processFrontMatter_timers (acquire f w) f
                (applySync (settings w) slug managed)) as [Harmed Hnext].
  unfold tryFinallyRelease, release.
  cbn [fst armedTimers nextTimerId withInFlight]. by rewrite Harmed, Hnext.
Qed.

Lemma normalizeFileNow_resolves w f reason :
  f ∉ rejecting w → snd (normalizeFileNow w f reason) = Resolved tt.
Proof.
  intros Hrej. unfold normalizeFileNow.
  destruct (normalizeEnter w f) as [[slug managed]|]; [|done].
  unfold tryFinallyRelease, processFrontMatter. cbn [rejecting acquire withInFlight].
  by rewrite (bool_decide_eq_false_2 _ Hrej).
Qed.

(** A read-modify-write followed, when it resolves, by a scheduled sync, all
    under the in-flight flag of the note. *)
Lemma write_then_schedule_inFlight w f mutator :
  f ∉ inFlight w →
  inFlight (fst (tryFinallyRelease f
                   (match processFrontMatter (acquire f w) f mutator with
                    | (w2, Resolved _) => (scheduleNormalize w2 f ReasonManual, Resolved tt)
                    | (w2, Rejected) => (w2, Rejected)
                    end)))
  = inFlight w.
Proof.
  intros Hfl.
  pose proof (processFrontMatter_frame (acquire f w) f mutator) as (_ & _ & Hif & _).
  unfold tryFinallyRelease, release. cbn [fst inFlight withInFlight].
  destruct (processFrontMatter (acquire f w) f mutator) as [w2 [[]|]]; cbn [fst] in *.
  - destruct (scheduleNormalize_frame w2 f ReasonManual) as (_ & _ & -> & _).
    rewrite Hif. cbn. by apply release_acquire_inFlight.
  - rewrite Hif. cbn. by apply release_acquire_inFlight.
Qed.

Lemma addManagedPropertyToFile_inFlight w f aliasKey :
  inFlight (fst (addManagedPropertyToFile w f aliasKey)) = inFlight w.
Proof.
  unfold addManagedPropertyToFile.
  destruct (getNamespaceSlugForFile _ _); [|done].
  destruct (bool_decide (f ∈ inFlight w)) eqn:E; [done|].
  apply bool_decide_eq_false in E. by apply write_then_schedule_inFlight.
Qed.

Lemma applyTemplateParsed_inFlight w f rule yamlText :
  inFlight (fst (applyTemplateParsed w f rule yamlText)) = inFlight w.
Proof.
  unfold applyTemplateParsed.
  destruct (parseYaml w _) as [obj|]; [|done].
  destruct (negb (isObjectLike obj)); [done|].
  destruct (bool_decide (f ∈ inFlight w)) eqn:E; [done|].
  apply bool_decide_eq_false in E. by apply write_then_schedule_inFlight.
Qed.

Lemma applyTemplateToNewFile_inFlight w f :
  inFlight (fst (applyTemplateToNewFile w f)) = inFlight w.
Proof.
  unfold applyTemplateToNewFile, applyTemplateAfterRead.
  destruct (applyTemplateStart w f) as [|rule yamlText|rule yamlText]; [done| |].
  - destruct (Js.startsWith _ _); [done|]. apply applyTemplateParsed_inFlight.
  - apply applyTemplateParsed_inFlight.
Qed.

Lemma restoreAllLoop_inFlight w files count :
  inFlight (fst (restoreAllLoop w files count)) = inFlight w.
Proof.
  revert w count. induction files as [|f files IH]; intros w count; [done|].
  cbn [restoreAllLoop]. destruct (getRuleForFile (settings w) f); [|apply IH].
  pose proof (restoreAliasesForFile_frame w f) as (_ & _ & Hif & _).
  destruct (restoreAliasesForFile w f) as [w1 [[]|]]; cbn [fst] in *; [|done].
  by rewrite IH.
Qed.

Lemma normalizeAllLoop_inFlight w prefix files count :
  inFlight (fst (normalizeAllLoop w prefix files count)) = inFlight w.
Proof.
  revert w count. induction files as [|f files IH]; intros w count; [done|].
  cbn [normalizeAllLoop]. destruct (negb (Js.startsWith _ _)); [apply IH|].
  pose proof (normalizeFileNow_frame w f ReasonManual) as (_ & _ & Hif & _).
  destruct (normalizeFileNow w f ReasonManual) as [w1 [[]|]]; cbn [fst] in *; [|done].
  by rewrite IH.
Qed.

Lemma applyTemplateParsed_dropped w filePath rule yamlText :
  filePath ∈ inFlight w →
  applyTemplateParsed w filePath rule yamlText = (w, Resolved tt).
Proof.
  intros Hfl. unfold applyTemplateParsed.
  destruct (parseYaml w _) as [obj|]; [|done].
  destruct (negb (isObjectLike obj)); [done|].
  by rewrite (bool_decide_eq_true_2 _ Hfl).
Qed.

(** X15. A trigger for a note whose read-modify-write is in flight is
    dropped, not queued: the sync, the restore and "Add managed property"
    each return at once, change nothing and resolve without failure.  The
    template application does not look at the in-flight set before it has
    read the note (when the settings make it read): whatever the set, its
    first stretch is the same; it is dropped when the note is in flight in
    the world in which it goes on after the read.  So a template triggered
    while the note is in flight is still applied when the flag has been
    released by the time the read completes, as for the note of
    [busyWorld]. *)
Theorem in_flight_trigger_is_dropped w filePath reason aliasKey :
  filePath ∈ inFlight w →
  normalizeFileNow w filePath reason = (w, Resolved tt)
  ∧ restoreAliasesForFile w filePath = (w, Resolved tt)
  ∧ addManagedPropertyToFile w filePath aliasKey = (w, Resolved tt)
  ∧ (∀ flags, applyTemplateStart (withInFlight w flags) filePath
              = applyTemplateStart w filePath)
  ∧ (∀ rule yamlText content,
       applyTemplateAfterRead w filePath rule yamlText content = (w, Resolved tt)
       ∧ applyTemplateParsed w filePath rule yamlText = (w, Resolved tt))
  ∧ ("index/projects/a.md" ∈ inFlight busyWorld
     ∧ applyTemplateStart busyWorld "index/projects/a.md"
       = ReadsNote projectsRule (Js.trim (templateYaml projectsRule))
     ∧ docFrontmatter
         (fst (applyTemplateAfterRead (release "index/projects/a.md" busyWorld)
                 "index/projects/a.md" projectsRule
                 (Js.trim (templateYaml projectsRule)) ""))
         "index/projects/a.md" !! "projects__status"
       = Some (JStr "draft")
     ∧ docFrontmatter busyWorld "index/projects/a.md" !! "projects__status" = None).
Proof.
  intros Hfl. split; [|split; [|split; [|split; [|split]]]].
  - unfold normalizeFileNow, normalizeEnter.
    destruct (getNamespaceSlugForFile _ _); [|done].
    by rewrite (bool_decide_eq_true_2 _ Hfl).
  - unfold restoreAliasesForFile.
    destruct (getRuleForFile _ _); [|done].
    destruct (bool_decide (_ = [])); [done|].
    by rewrite (bool_decide_eq_true_2 _ Hfl).
  - unfold addManagedPropertyToFile.
    destruct (getNamespaceSlugForFile _ _); [|done].
    by rewrite (bool_decide_eq_true_2 _ Hfl).
  - done.
  - intros rule yamlText content. unfold applyTemplateAfterRead.
    rewrite applyTemplateParsed_dropped by done.
    by destruct (Js.startsWith _ _).
  - split; [apply (bool_decide_unpack _); vm_compute; exact I|].
    split; [vm_compute; reflexivity|].
    split; vm_compute; reflexivity.
Qed.

Lemma in_flight_trigger_is_dropped_witness :
  ("index/projects/a.md" ∈ inFlight busyWorld)
  ∧ normalizeFileNow busyWorld "index/projects/a.md" ReasonModify
    = (busyWorld, Resolved tt)
  ∧ restoreAliasesForFile busyWorld "index/projects/a.md" = (busyWorld, Resolved tt)
  ∧ applyTemplateParsed busyWorld "index/projects/a.md" projectsRule
      (Js.trim (templateYaml projectsRule))
    = (busyWorld, Resolved tt).
Proof.
  assert ("index/projects/a.md" ∈ inFlight busyWorld) as Hfl
    by (apply (bool_decide_unpack _); vm_compute; exact I).
  destruct (in_flight_trigger_is_dropped busyWorld "index/projects/a.md" ReasonModify
              "owner" Hfl) as (Hsync & Hrestore & _ & _ & Hresume & _).
  destruct (Hresume projectsRule (Js.trim (templateYaml projectsRule)) "") as [_ Hparsed].
  split; [exact Hfl | split; [exact Hsync | split; [exact Hrestore | exact Hparsed]]].
Defined.

(** X16. Every operation hands the in-flight set back exactly as it found
    it, whether it returned early, resolved or was rejected: the single-note
    operations, the two bulk operations and a firing timer. *)
Theorem operations_restore_in_flight_set w filePath reason aliasKey folderPrefix :
  inFlight (fst (normalizeFileNow w filePath reason)) = inFlight w
  ∧ inFlight (fst (restoreAliasesForFile w filePath)) = inFlight w
  ∧ inFlight (fst (addManagedPropertyToFile w filePath aliasKey)) = inFlight w
  ∧ inFlight (fst (applyTemplateToNewFile w filePath)) = inFlight w
  ∧ inFlight (fst (restoreAliasesForAllScopedFiles w)) = inFlight w
  ∧ inFlight (fst (normalizeAllFilesUnderPrefix w folderPrefix)) = inFlight w
  ∧ inFlight (timerFires w filePath) = inFlight w.
Proof.
  repeat split.
  - by destruct (normalizeFileNow_frame w filePath reason) as (_ & _ & ? & _).
  - by destruct (restoreAliasesForFile_frame w filePath) as (_ & _ & ? & _).
  - apply addManagedPropertyToFile_inFlight.
  - apply applyTemplateToNewFile_inFlight.
  - apply restoreAllLoop_inFlight.
  - unfold normalizeAllFilesUnderPrefix. destruct (Js.isEmpty _); [done|].
    apply normalizeAllLoop_inFlight.
  - unfold timerFires. destruct (pendingTimers w !! filePath) as [id|]; [|done].
    unfold fireTimer. destruct (armedTimers w !! id) as [[path r]|]; [|done].
    unfold timerCallback.
    match goal with |- inFlight (fst (normalizeFileNow ?w' ?f ?r')) = _ =>
      by destruct (normalizeFileNow_frame w' f r') as (_ & _ & -> & _) end.
Qed.

(** ** The sync operation *)

(** X17. The sync operation decides on the cached frontmatter and writes on
    the note: when the cache shows nothing to do (or no rule governs the
    note) it returns without touching anything, even if the note itself holds
    an alias key; when it does go ahead and the write is accepted, the note's
    real frontmatter is replaced by its image under the sync mutator; and in
    no case is another note's frontmatter changed. *)
Theorem sync_decides_on_cache_and_writes_on_note w filePath reason :
  (∀ g, g ≠ filePath →
        docFrontmatter (fst (normalizeFileNow w filePath reason)) g = docFrontmatter w g)
  ∧ (getNamespaceSlugForFile (settings w) filePath = None →
     normalizeFileNow w filePath reason = (w, Resolved tt))
  ∧ (∀ slug, getNamespaceSlugForFile (settings w) filePath = Some slug →
       computeNeedsNormalization (settings w) (default ∅ (cacheOf w !! filePath)) slug
         (getManagedAliasKeys (settings w)) = false →
       normalizeFileNow w filePath reason = (w, Resolved tt))
  ∧ (∀ slug managed, normalizeEnter w filePath = Some (slug, managed) →
       filePath ∉ rejecting w →
       snd (normalizeFileNow w filePath reason) = Resolved tt
       ∧ docFrontmatter (fst (normalizeFileNow w filePath reason)) filePath
         = applySync (settings w) slug managed (docFrontmatter w filePath)).
Proof.
  split; [|split; [|split]].
  - by destruct (normalizeFileNow_frame w filePath reason) as (_ & _ & _ & _ & _ & _ & ?).
  - intros Hnone. unfold normalizeFileNow, normalizeEnter. by rewrite Hnone.
  - intros slug Hslug Hquiet. unfold normalizeFileNow, normalizeEnter. rewrite Hslug.
    destruct (bool_decide (filePath ∈ inFlight w)); [done|].
    destruct (bool_decide (getManagedAliasKeys (settings w) = [])); [done|].
    by rewrite Hquiet.
  - intros slug managed Henter Hok. unfold normalizeFileNow. rewrite Henter.
    unfold tryFinallyRelease, processFrontMatter. cbn [rejecting acquire withInFlight].
    rewrite (bool_decide_eq_false_2 _ Hok). cbn.
    split; [done|]. unfold docFrontmatter. cbn. by rewrite lookup_insert_eq.
Qed.

Lemma sync_decides_on_cache_and_writes_on_note_witness :
  getNamespaceSlugForFile (settings staleCacheWorld) "index/projects/a.md" = Some "projects"
  ∧ computeNeedsNormalization (settings staleCacheWorld)
      (docFrontmatter staleCacheWorld "index/projects/a.md") "projects"
      (getManagedAliasKeys (settings staleCacheWorld)) = true
  ∧ normalizeFileNow staleCacheWorld "index/projects/a.md" ReasonOpen
    = (staleCacheWorld, Resolved tt).
Proof.
  assert (getNamespaceSlugForFile (settings staleCacheWorld) "index/projects/a.md"
          = Some "projects") as Hslug by (vm_compute; reflexivity).
  destruct (sync_decides_on_cache_and_writes_on_note staleCacheWorld
              "index/projects/a.md" ReasonOpen) as (_ & _ & Hquiet & _).
  split; [exact Hslug | split; [vm_compute; reflexivity|]].
  apply (Hquiet "projects" Hslug). vm_compute. reflexivity.
Defined.

(** ** Debouncing *)

(** What one trigger does to the timers of a note some rule governs: the
    timer the table holds for the note, if any, is cleared, a new one is
    armed and entered in the table. *)
Lemma scheduleNormalize_governed w f reason :
  is_Some (getNamespaceSlugForFile (settings w) f) →
  timersCoherent w →
  scheduleNormalize w f reason
  = withPendingTimers
      (withArmedTimers w
         (<[nextTimerId w := (f, reason)]>
            (match pendingTimers w !! f with
             | Some existing => delete existing (armedTimers w)
             | None => armedTimers w
             end))
         (S (nextTimerId w)))
      (<[f := nextTimerId w]> (pendingTimers w)).
Proof.
  intros [slug Hslug] (_ & Harmed & Htable). unfold scheduleNormalize. rewrite Hslug.
  destruct (pendingTimers w !! f) as [existing|] eqn:Hex; [|done].
  destruct (Htable f existing Hex) as [r Hr].
  destruct (Harmed existing f r Hr) as [[Hpos _] _].
  destruct existing as [|existing]; [lia|]. done.
Qed.

Lemma scheduleNormalize_spec w f reason :
  is_Some (getNamespaceSlugForFile (settings w) f) →
  timersCoherent w →
  timersCoherent (scheduleNormalize w f reason)
  ∧ settings (scheduleNormalize w f reason) = settings w
  ∧ (∃ id, pendingTimers (scheduleNormalize w f reason) !! f = Some id
           ∧ armedTimers (scheduleNormalize w f reason) !! id = Some (f, reason))
  ∧ (∀ q, q ≠ f →
          pendingTimers (scheduleNormalize w f reason) !! q = pendingTimers w !! q)
  ∧ (∀ id q r, q ≠ f →
       armedTimers (scheduleNormalize w f reason) !! id = Some (q, r)
       ↔ armedTimers w !! id = Some (q, r)).
Proof.
  intros Hslug Hco. rewrite (scheduleNormalize_governed w f reason Hslug Hco).
  destruct Hco as (Hnext & Harmed & Htable).
  set (rest := match pendingTimers w !! f with
               | Some existing => delete existing (armedTimers w)
               | None => armedTimers w
               end).
  assert (∀ id q r, rest !! id = Some (q, r) → armedTimers w !! id = Some (q, r) ∧ q ≠ f)
    as Hrest.
  { intros id q r. unfold rest.
    destruct (pendingTimers w !! f) as [existing|] eqn:Hex.
    - intros [Hne Hid]%lookup_delete_Some. split; [done|]. intros ->.
      destruct (Harmed id f r Hid) as [_ Hp]. congruence.
    - intros Hid. split; [done|]. intros ->.
      destruct (Harmed id f r Hid) as [_ Hp]. congruence. }
  assert (∀ id q r, q ≠ f → armedTimers w !! id = Some (q, r) → rest !! id = Some (q, r))
    as Hkept.
  { intros id q r Hq Hid. unfold rest.
    destruct (pendingTimers w !! f) as [existing|] eqn:Hex; [|done].
    apply lookup_delete_Some. split; [|done]. intros ->.
    destruct (Htable f id Hex) as [r' Hr']. congruence. }
  cbn [settings pendingTimers armedTimers nextTimerId withPendingTimers withArmedTimers].
  split; [|split; [done | split; [|split]]].
  - unfold timersCoherent.
    cbn [settings pendingTimers armedTimers nextTimerId withPendingTimers withArmedTimers].
    split; [lia | split].
    + intros id q r [[<- [= <- <-]]|[Hne Hid]]%lookup_insert_Some.
      * split; [lia | apply lookup_insert_eq].
      * destruct (Hrest id q r Hid) as [Hid' Hq].
        destruct (Harmed id q r Hid') as [Hbound Hp].
        split; [lia|]. by rewrite lookup_insert_ne.
    + intros q id [[<- <-]|[Hq Hp]]%lookup_insert_Some.
      * exists reason. apply lookup_insert_eq.
      * destruct (Htable q id Hp) as [r Hr]. exists r.
        destruct (Harmed id q r Hr) as [Hbound _].
        rewrite lookup_insert_ne by lia. apply Hkept; [done | done].
  - exists (nextTimerId w). by rewrite !lookup_insert_eq.
  - intros q Hq. by rewrite lookup_insert_ne.
  - intros id q r Hq. split.
    + intros [[_ [= -> _]]|[_ Hid]]%lookup_insert_Some; [done|].
      by destruct (Hrest id q r Hid).
    + intros Hid. destruct (Harmed id q r Hid) as [Hbound _].
      rewrite lookup_insert_ne by lia. by apply Hkept.
Qed.

Lemma scheduleAll_spec w f reasons :
  is_Some (getNamespaceSlugForFile (settings w) f) →
  timersCoherent w →
  timersCoherent (scheduleAll w f reasons)
  ∧ settings (scheduleAll w f reasons) = settings w
  ∧ (∀ q, q ≠ f → pendingTimers (scheduleAll w f reasons) !! q = pendingTimers w !! q)
  ∧ (∀ id q r, q ≠ f →
       armedTimers (scheduleAll w f reasons) !! id = Some (q, r)
       ↔ armedTimers w !! id = Some (q, r)).
Proof.
  unfold scheduleAll. revert w.
  induction reasons as [|reason reasons IH]; intros w Hslug Hco; [done|].
  cbn [foldl].
  destruct (scheduleNormalize_spec w f reason Hslug Hco) as (Hco1 & Hst1 & _ & Hp1 & Ha1).
  destruct (IH (scheduleNormalize w f reason)) as (Hco2 & Hst2 & Hp2 & Ha2);
    [by rewrite Hst1 | done |].
  split; [done | split; [congruence | split]].
  - intros q Hq. by rewrite Hp2, Hp1.
  - intros id q r Hq. by rewrite Ha2, Ha1.
Qed.

Lemma scheduleAll_ungoverned w f reasons :
  getNamespaceSlugForFile (settings w) f = None → scheduleAll w f reasons = w.
Proof.
  intros Hnone. unfold scheduleAll.
  induction reasons as [|reason reasons IH]; [done|].
  cbn [foldl]. unfold scheduleNormalize at 2. by rewrite Hnone.
Qed.

(** The timer the table holds for a note fires. *)
Lemma fireTimer_spec w f id reason :
  timersCoherent w →
  pendingTimers w !! f = Some id →
  armedTimers w !! id = Some (f, reason) →
  timerFires w f = fireTimer w id
  ∧ fireTimer w id
    = fst (normalizeFileNow
             (withPendingTimers
                (withArmedTimers w (delete id (armedTimers w)) (nextTimerId w))
                (delete f (pendingTimers w)))
             f reason)
  ∧ timersCoherent (fireTimer w id)
  ∧ (∀ id' r, armedTimers (fireTimer w id) !! id' ≠ Some (f, r))
  ∧ pendingTimers (fireTimer w id) !! f = None.
Proof.
  intros (Hnext & Harmed & Htable) Hp Ha.
  assert (timerFires w f = fireTimer w id) as Hfires
    by (unfold timerFires; by rewrite Hp).
  assert (fireTimer w id
          = fst (normalizeFileNow
                   (withPendingTimers
                      (withArmedTimers w (delete id (armedTimers w)) (nextTimerId w))
                      (delete f (pendingTimers w)))
                   f reason)) as Hfire
    by (unfold fireTimer; by rewrite Ha).
  split; [done | split; [done|]].
  rewrite Hfire.
  match goal with |- context [normalizeFileNow ?w0 f reason] =>
    destruct (normalizeFileNow_frame w0 f reason) as (_ & _ & _ & Hpend & _);
    destruct (normalizeFileNow_timers w0 f reason) as [Harm Hnxt]
  end.
  cbn [pendingTimers armedTimers nextTimerId withPendingTimers withArmedTimers]
    in Hpend, Harm, Hnxt.
  split; [|split].
  - unfold timersCoherent. rewrite Hpend, Harm, Hnxt.
    split; [done | split].
    + intros id' q r [Hne Hid]%lookup_delete_Some.
      destruct (Harmed id' q r Hid) as [Hbound Hq].
      split; [done|]. apply lookup_delete_Some. split; [|done].
      intros <-. congruence.
    + intros q id' [Hq Hid]%lookup_delete_Some.
      destruct (Htable q id' Hid) as [r Hr]. exists r.
      apply lookup_delete_Some. split; [|done]. intros <-. congruence.
  - intros id' r. rewrite Harm. intros [Hne Hid]%lookup_delete_Some.
    destruct (Harmed id' f r Hid) as [_ Hq]. congruence.
  - rewrite Hpend. apply lookup_delete_eq.
Qed.

(** X18. A burst of triggers for one note collapses into one armed timer:
    for a note some rule governs, starting with a timer table that agrees
    with the timers of the host, after any number of triggers the table holds
    one timer for the note, it is the only armed timer for the note and
    carries the reason of the last trigger (the timers of the earlier triggers
    have been cleared), and the timers of other notes are as before; when that
    timer fires one sync runs with that reason, no timer for the note is left
    armed and the table has no entry for it.  Triggers for a note no rule
    governs change nothing. *)
Theorem debounce_collapses_triggers w filePath reasons reason :
  timersCoherent w →
  (is_Some (getNamespaceSlugForFile (settings w) filePath) →
   timersCoherent (scheduleAll w filePath (reasons ++ [reason]))
   ∧ (∃ id,
        pendingTimers (scheduleAll w filePath (reasons ++ [reason])) !! filePath = Some id
        ∧ (∀ id' r,
             armedTimers (scheduleAll w filePath (reasons ++ [reason])) !! id'
             = Some (filePath, r)
             ↔ id' = id ∧ r = reason)
        ∧ timerFires (scheduleAll w filePath (reasons ++ [reason])) filePath
          = fireTimer (scheduleAll w filePath (reasons ++ [reason])) id
        ∧ fireTimer (scheduleAll w filePath (reasons ++ [reason])) id
          = fst (normalizeFileNow
                   (withPendingTimers
                      (withArmedTimers (scheduleAll w filePath (reasons ++ [reason]))
                         (delete id
                            (armedTimers (scheduleAll w filePath (reasons ++ [reason]))))
                         (nextTimerId (scheduleAll w filePath (reasons ++ [reason]))))
                      (delete filePath
                         (pendingTimers (scheduleAll w filePath (reasons ++ [reason])))))
                   filePath reason)
        ∧ (∀ id' r,
             armedTimers (fireTimer (scheduleAll w filePath (reasons ++ [reason])) id)
               !! id' ≠ Some (filePath, r))
        ∧ pendingTimers (fireTimer (scheduleAll w filePath (reasons ++ [reason])) id)
            !! filePath = None)
   ∧ (∀ q, q ≠ filePath →
           pendingTimers (scheduleAll w filePath (reasons ++ [reason])) !! q
           = pendingTimers w !! q)
   ∧ (∀ id q r, q ≠ filePath →
        armedTimers (scheduleAll w filePath (reasons ++ [reason])) !! id = Some (q, r)
        ↔ armedTimers w !! id = Some (q, r)))
  ∧ (getNamespaceSlugForFile (settings w) filePath = None →
     scheduleAll w filePath (reasons ++ [reason]) = w).
Proof.
  intros Hco. split; [|apply scheduleAll_ungoverned].
  intros Hslug.
  destruct (scheduleAll_spec w filePath (reasons ++ [reason]) Hslug Hco)
    as (Hco' & _ & Hpend & Harm).
  split; [done | split; [|done]].
  assert (scheduleAll w filePath (reasons ++ [reason])
          = scheduleNormalize (scheduleAll w filePath reasons) filePath reason) as Hlast
    by (unfold scheduleAll; by rewrite foldl_app).
  destruct (scheduleAll_spec w filePath reasons Hslug Hco) as (Hco0 & Hst0 & _).
  destruct (scheduleNormalize_spec (scheduleAll w filePath reasons) filePath reason)
    as (_ & _ & (id & Hid & Hentry) & _); [by rewrite Hst0 | done |].
  rewrite <- Hlast in Hid, Hentry.
  destruct (fireTimer_spec _ filePath id reason Hco' Hid Hentry)
    as (Hfires & Hfire & _ & Hnone & Hgone).
  exists id. split; [done | split; [|done]].
  intros id' r. split.
  - intros Hid'. destruct Hco' as (_ & Harmed & _).
    destruct (Harmed id' filePath r Hid') as [_ Hp].
    assert (id' = id) as -> by congruence. split; [done | congruence].
  - by intros [-> ->].
Qed.

Lemma debounce_collapses_triggers_witness :
  timersCoherent staleCacheWorld
  ∧ is_Some (getNamespaceSlugForFile (settings staleCacheWorld) "index/projects/a.md")
  ∧ timersCoherent (scheduleAll staleCacheWorld "index/projects/a.md"
                      ([ReasonOpen; ReasonModify] ++ [ReasonMetadataChanged]))
  ∧ pendingTimers (scheduleAll staleCacheWorld "index/projects/a.md"
                     ([ReasonOpen; ReasonModify] ++ [ReasonMetadataChanged]))
      !! "index/projects/a.md" = Some 3
  ∧ armedTimers (scheduleAll staleCacheWorld "index/projects/a.md"
                   ([ReasonOpen; ReasonModify] ++ [ReasonMetadataChanged]))
      !! 3 = Some ("index/projects/a.md", ReasonMetadataChanged)
  ∧ armedTimers (scheduleAll staleCacheWorld "index/projects/a.md"
                   ([ReasonOpen; ReasonModify] ++ [ReasonMetadataChanged]))
      !! 2 = None.
Proof.
  assert (timersCoherent staleCacheWorld) as Hco.
  { split; [vm_compute; lia | split].
    - intros id q r Hid.
      change ((∅ : gmap nat (string * SyncReason)) !! id = Some (q, r)) in Hid.
      by rewrite lookup_empty in Hid.
    - intros q id Hid.
      change ((∅ : gmap string nat) !! q = Some id) in Hid.
      by rewrite lookup_empty in Hid. }
  assert (is_Some (getNamespaceSlugForFile (settings staleCacheWorld) "index/projects/a.md"))
    as Hscope by (eexists; vm_compute; reflexivity).
  destruct (debounce_collapses_triggers staleCacheWorld "index/projects/a.md"
              [ReasonOpen; ReasonModify] ReasonMetadataChanged Hco) as [Hin _].
  destruct (Hin Hscope) as (Hco' & _).
  split; [exact Hco | split; [exact Hscope | split; [exact Hco'|]]].
  repeat split; vm_compute; reflexivity.
Defined.

(** ** Bulk normalisation *)

Lemma normalizeAllLoop_outside w prefix files count g :
  Js.startsWith (Js.slashes g) prefix = false →
  docFrontmatter (fst (normalizeAllLoop w prefix files count)) g = docFrontmatter w g.
Proof.
  intros Hg. revert w count. induction files as [|f files IH]; intros w count; [done|].
  cbn [normalizeAllLoop].
  destruct (Js.startsWith (Js.slashes f) prefix) eqn:Hf; cbn [negb]; [|apply IH].
  pose proof (normalizeFileNow_frame w f ReasonManual) as (_ & _ & _ & _ & _ & _ & Hdoc).
  assert (g ≠ f) as Hne by (intros ->; congruence).
  destruct (normalizeFileNow w f ReasonManual) as [w1 [[]|]]; cbn [fst] in *.
  - rewrite IH. by apply Hdoc.
  - by apply Hdoc.
Qed.

Lemma normalizeAllLoop_resolves w prefix files count :
  (∀ f, f ∈ files → f ∉ rejecting w) →
  snd (normalizeAllLoop w prefix files count)
  = Resolved (count
              + length (List.filter (fun f => Js.startsWith (Js.slashes f) prefix) files)).
Proof.
  revert w count. induction files as [|f files IH]; intros w count Hok.
  - simpl. f_equal. lia.
  - cbn [normalizeAllLoop List.filter].
    destruct (Js.startsWith (Js.slashes f) prefix) eqn:Hf; cbn [negb].
    + pose proof (normalizeFileNow_resolves w f ReasonManual (Hok f ltac:(by left))) as Hres.
      pose proof (normalizeFileNow_frame w f ReasonManual) as (_ & Hrj & _).
      destruct (normalizeFileNow w f ReasonManual) as [w1 [[]|]]; [|done].
      cbn [fst] in *. rewrite IH.
      * cbn [length]. f_equal. lia.
      * intros g Hg. rewrite Hrj. apply Hok. by right.
    + apply IH. intros g Hg. apply Hok. by right.
Qed.

(** X19. Bulk normalisation stays inside its folder: a blank prefix does
    nothing and reports 0 notes; otherwise no note whose path does not start
    with the normalised prefix is changed, and, when no write is rejected, the
    number reported is the number of notes under the prefix (each one counted,
    whether or not it needed a sync or is governed by a rule). *)
Theorem bulk_normalize_stays_under_prefix w folderPrefix :
  (Js.isEmpty (Js.trim folderPrefix) = true →
   normalizeAllFilesUnderPrefix w folderPrefix = (w, Resolved 0))
  ∧ (∀ g, Js.startsWith (Js.slashes g) (normalizePrefix folderPrefix) = false →
          docFrontmatter (fst (normalizeAllFilesUnderPrefix w folderPrefix)) g
          = docFrontmatter w g)
  ∧ (Js.isEmpty (Js.trim folderPrefix) = false →
     (∀ f, f ∈ markdownFiles w → f ∉ rejecting w) →
     snd (normalizeAllFilesUnderPrefix w folderPrefix)
     = Resolved (length (List.filter
                           (fun f => Js.startsWith (Js.slashes f)
                                       (normalizePrefix folderPrefix))
                           (markdownFiles w)))).
Proof.
  unfold normalizeAllFilesUnderPrefix. rewrite normalizePrefix_isEmpty.
  split; [|split].
  - by intros ->.
  - intros g Hg. destruct (Js.isEmpty (Js.trim folderPrefix)); [done|].
    by apply normalizeAllLoop_outside.
  - intros -> Hok. by rewrite normalizeAllLoop_resolves.
Qed.

Lemma bulk_normalize_stays_under_prefix_witness :
  Js.startsWith (Js.slashes "journal/today.md") (normalizePrefix "index\projects") = false
  ∧ docFrontmatter (fst (normalizeAllFilesUnderPrefix threeNotesWorld "index\projects"))
      "journal/today.md"
    = docFrontmatter threeNotesWorld "journal/today.md"
  ∧ snd (normalizeAllFilesUnderPrefix threeNotesWorld "index\projects") = Resolved 2.
Proof.
  assert (Js.startsWith (Js.slashes "journal/today.md") (normalizePrefix "index\projects")
          = false) as Hout by (vm_compute; reflexivity).
  destruct (bulk_normalize_stays_under_prefix threeNotesWorld "index\projects")
    as (_ & Hkeep & Hcount).
  split; [exact Hout | split; [exact (Hkeep _ Hout)|]].
  rewrite Hcount; [vm_compute; reflexivity | vm_compute; reflexivity|].
  intros f _. apply (bool_decide_unpack _). vm_compute. exact I.
Defined.

(** ** Storage keys and the suggestion filter *)

Lemma string_append_assoc (s t u : string) : (s ++ t) ++ u = s ++ t ++ u.
Proof.
  induction s as [|c s IH]; [done|].
  change (String c ((s ++ t) ++ u) = String c (s ++ t ++ u)). by rewrite IH.
Qed.

Lemma endsWith_refl s : Js.endsWith s s = true.
Proof. destruct s; cbn [Js.endsWith]; by rewrite String.eqb_refl. Qed.

Lemma endsWith_append p s : Js.endsWith (p ++ s) s = true.
Proof.
  induction p as [|c p IH]; [apply endsWith_refl|].
  change (String c p ++ s) with (String c (p ++ s)).
  cbn [Js.endsWith]. by rewrite IH, orb_true_r.
Qed.

Lemma startsWith_append p s : Js.startsWith (p ++ s) p = true.
Proof.
  unfold Js.startsWith. induction p as [|c p IH]; [by destruct s|].
  simpl. by destruct (ascii_dec c c).
Qed.

Lemma makeStorageKey_suffix st slug a :
  Js.endsWith (makeStorageKey st slug a) (separator st ++ a) = true.
Proof.
  unfold makeStorageKey. rewrite <- string_append_assoc. apply endsWith_append.
Qed.

(** X20. The shape of a storage key: under one slug, different alias keys
    get different storage keys; a storage key is never its own alias key and
    is strictly longer than it; it starts with the trimmed prefix and ends
    with the separator in effect followed by the alias key, and that
    separator is never empty. *)
Theorem storage_key_format st slug a b :
  (makeStorageKey st slug a = makeStorageKey st slug b → a = b)
  ∧ makeStorageKey st slug a ≠ a
  ∧ (String.length a < String.length (makeStorageKey st slug a))%nat
  ∧ Js.startsWith (makeStorageKey st slug a) (Js.trim (storagePrefix st)) = true
  ∧ Js.endsWith (makeStorageKey st slug a) (separator st ++ a) = true
  ∧ Js.isEmpty (separator st) = false.
Proof.
  repeat split.
  - apply makeStorageKey_inj.
  - apply makeStorageKey_ne.
  - apply makeStorageKey_length.
  - apply startsWith_append.
  - apply makeStorageKey_suffix.
  - apply separator_nonempty.
Qed.

Lemma storage_key_format_witness :
  makeStorageKey DEFAULT_SETTINGS "projects" (Js.trim " status")
  = makeStorageKey DEFAULT_SETTINGS "projects" "status"
  ∧ Js.trim " status" = "status"
  ∧ makeStorageKey DEFAULT_SETTINGS "projects" "status" ≠ "status".
Proof.
  assert (makeStorageKey DEFAULT_SETTINGS "projects" (Js.trim " status")
          = makeStorageKey DEFAULT_SETTINGS "projects" "status") as Heq
    by (vm_compute; reflexivity).
  destruct (storage_key_format DEFAULT_SETTINGS "projects" (Js.trim " status") "status")
    as (Hinj & _).
  destruct (storage_key_format DEFAULT_SETTINGS "projects" "status" "status")
    as (_ & Hne & _).
  split; [exact Heq | split; [exact (Hinj Heq) | exact Hne]].
Defined.

Lemma suggestionHidden_storage_key st slug (managed : list string) a :
  a ∈ managed →
  makeStorageKey st slug a ∉ managed →
  suggestionHidden st managed (makeStorageKey st slug a) = true.
Proof.
  intros Ha Hout. unfold suggestionHidden.
  rewrite (bool_decide_eq_false_2 _ Hout).
  assert (existsb
            (fun alias => Js.endsWith (makeStorageKey st slug a) (separator st ++ alias))
            managed = true) as ->; [|done].
  apply existsb_exists. exists a. split; [by apply list_elem_of_In|].
  apply makeStorageKey_suffix.
Qed.

(** X21. What the suggestion filter does in the properties of a note.  It
    decides on the normalised text of an entry (runs of white space collapsed
    to one space, then trimmed): an entry whose normalised text is exactly a
    managed alias key is shown, even if it looks like a storage key; an entry
    whose normalised text is the storage key of a managed alias key, under any
    slug, is hidden unless that text is itself a managed alias key; an entry
    whose normalised text is blank is left as it is.  So an entry that shows
    the storage key of a managed key is hidden when normalising leaves that
    storage key as it is, and need not be otherwise: with the managed key
    ["due  date"] the entry ["projects__due  date"] stays visible.  With the
    focus in a Bases view, or with no managed keys, the list is left as it
    is. *)
Theorem suggestions_hide_storage_keys_only st (items : list SuggestItem) :
  (getManagedAliasKeys st ≠ [] →
   filterSuggestContainer st (Some notePropertiesFocus) items
   = map (filterSuggestItem st (getManagedAliasKeys st)) items)
  ∧ (∀ it, suggestionText it ∈ getManagedAliasKeys st →
           itemHidden (filterSuggestItem st (getManagedAliasKeys st) it) = false)
  ∧ (∀ it slug a,
       a ∈ getManagedAliasKeys st →
       suggestionText it = makeStorageKey st slug a →
       makeStorageKey st slug a ∉ getManagedAliasKeys st →
       itemHidden (filterSuggestItem st (getManagedAliasKeys st) it) = true)
  ∧ (∀ it slug a,
       a ∈ getManagedAliasKeys st →
       contentText it = Some (makeStorageKey st slug a) →
       Js.trim (Js.collapseSpaces (makeStorageKey st slug a)) = makeStorageKey st slug a →
       makeStorageKey st slug a ∉ getManagedAliasKeys st →
       itemHidden (filterSuggestItem st (getManagedAliasKeys st) it) = true)
  ∧ ("due  date" ∈ getManagedAliasKeys spacedKeySettings
     ∧ contentText spacedKeyItem
       = Some (makeStorageKey spacedKeySettings "projects" "due  date")
     ∧ itemHidden (filterSuggestItem spacedKeySettings
                     (getManagedAliasKeys spacedKeySettings) spacedKeyItem) = false)
  ∧ (∀ it, Js.isEmpty (suggestionText it) = true →
           filterSuggestItem st (getManagedAliasKeys st) it = it)
  ∧ (∀ focus, inBases focus = true →
              filterSuggestContainer st (Some focus) items = items)
  ∧ (getManagedAliasKeys st = [] →
     ∀ active, filterSuggestContainer st active items = items).
Proof.
  assert (∀ it slug a,
            a ∈ getManagedAliasKeys st →
            suggestionText it = makeStorageKey st slug a →
            makeStorageKey st slug a ∉ getManagedAliasKeys st →
            itemHidden (filterSuggestItem st (getManagedAliasKeys st) it) = true) as Hhide.
  { intros it slug a Ha Htext Hout. unfold filterSuggestItem.
    assert (Js.isEmpty (suggestionText it) = false) as ->.
    { rewrite Htext. pose proof (makeStorageKey_length st slug a).
      destruct (makeStorageKey st slug a); [simpl in *; lia | done]. }
    cbn [itemHidden]. rewrite Htext. by apply suggestionHidden_storage_key. }
  split; [|split; [|split; [|split; [|split; [|split; [|split]]]]]].
  - intros Hm. unfold filterSuggestContainer.
    by rewrite (bool_decide_eq_false_2 _ Hm).
  - intros it Hin. unfold filterSuggestItem.
    pose proof (parseManagedKeys_clean (managedAliasKeys st)) as Hclean.
    destruct (proj1 (Forall_forall _ _) Hclean _ Hin) as (Hne & _).
    rewrite Hne. cbn [itemHidden]. unfold suggestionHidden.
    by rewrite (bool_decide_eq_true_2 _ Hin).
  - exact Hhide.
  - intros it slug a Ha Hcontent Hnormal Hout. apply (Hhide it slug a); [done| |done].
    unfold suggestionText. rewrite Hcontent.
    assert (Js.isEmpty (makeStorageKey st slug a) = false) as ->; [|done].
    pose proof (makeStorageKey_length st slug a).
    destruct (makeStorageKey st slug a); [simpl in *; lia | done].
  - repeat split; try (vm_compute; reflexivity).
    apply (bool_decide_unpack _). vm_compute. exact I.
  - intros it Hblank. unfold filterSuggestItem. by rewrite Hblank.
  - intros focus Hb. unfold filterSuggestContainer.
    destruct (bool_decide _); [done|]. by rewrite Hb.
  - intros Hm active. unfold filterSuggestContainer.
    by rewrite (bool_decide_eq_true_2 _ Hm).
Qed.

Lemma suggestions_hide_storage_keys_only_witness :
  getManagedAliasKeys DEFAULT_SETTINGS ≠ []
  ∧ map itemHidden (filterSuggestContainer DEFAULT_SETTINGS (Some notePropertiesFocus)
                      suggestionList)
    = [true; false; false].
Proof.
  assert (getManagedAliasKeys DEFAULT_SETTINGS ≠ []) as Hm by (vm_compute; discriminate).
  destruct (suggestions_hide_storage_keys_only DEFAULT_SETTINGS suggestionList)
    as (Hrun & _).
  split; [exact Hm|]. rewrite (Hrun Hm). vm_compute. reflexivity.
Defined.

(** ** Defaults against alias values, and what a restore writes *)

(** With the removal policy on, a turn of the template loop touches nothing
    but the storage key of its entry. *)
Lemma templateStep_local st slug managed o k v x :
  removePlainAliasKeysOnSync st = true →
  x ≠ makeStorageKey st slug (Js.trim k) →
  own (templateStep st slug managed o (k, v)) !! x = own o !! x.
Proof.
  intros Hr Hx. unfold templateStep.
  destruct (Js.isEmpty _); [done|].
  destruct (negb _ && negb _); [done|].
  destruct (hasOwn (own o) _); [done|].
  rewrite Hr. cbn [negb]. by rewrite assign_lookup_ne.
Qed.

Lemma foldl_templateStep_local st slug managed es o x :
  removePlainAliasKeysOnSync st = true →
  (∀ entry, entry ∈ es → x ≠ makeStorageKey st slug (Js.trim (fst entry))) →
  own (foldl (templateStep st slug managed) o es) !! x = own o !! x.
Proof.
  intros Hr. revert o. induction es as [|[k v] es IH]; intros o Hx; [done|].
  cbn [foldl]. rewrite IH by (intros e He; apply Hx; by right).
  apply templateStep_local; [done|]. apply (Hx (k, v)). by left.
Qed.

(** X22. A template default wins over an alias value that has not been
    synchronised yet: when a note holds the alias key but not its storage
    key, applying a template and then syncing (removal policy on, no managed
    key being the storage key of a managed key, the storage key not being
    ["__proto__"]) leaves the storage key bound to the default of the first
    entry that the template object lists for that alias key, and the alias
    key, with the value the user had typed, gone. *)
Theorem template_default_wins_over_unsynced_alias st slug managed obj fm pre k v post :
  removePlainAliasKeysOnSync st = true →
  keysApart st slug managed →
  Js.entries obj = (pre ++ (k, v) :: post)%list →
  (∀ entry, entry ∈ pre → Js.trim (fst entry) ≠ Js.trim k) →
  Js.isEmpty (Js.trim k) = false →
  Js.trim k ∈ managed →
  makeStorageKey st slug (Js.trim k) ≠ protoKey →
  fm !! makeStorageKey st slug (Js.trim k) = None →
  applySync st slug managed (applyTemplate st slug managed obj fm)
    !! makeStorageKey st slug (Js.trim k) = Some v
  ∧ applySync st slug managed (applyTemplate st slug managed obj fm)
      !! Js.trim k = None.
Proof.
  intros Hr Hap Hentries Hfirst Hk Hin Hplain Hsto.
  assert (applyTemplate st slug managed obj fm !! makeStorageKey st slug (Js.trim k)
          = Some v) as Hset.
  { unfold applyTemplate. rewrite Hentries, foldl_app. cbn [foldl].
    apply foldl_templateStep_preserves.
    apply templateStep_sets; [done | by right | | done].
    rewrite foldl_templateStep_local; [done | done |].
    intros entry Hentry E. apply makeStorageKey_inj in E. by apply (Hfirst entry). }
  pose proof (applySync_view st slug managed (applyTemplate st slug managed obj fm)
                (Js.trim k) Hap Hin Hplain) as Hv.
  unfold view in Hv. rewrite Hset, Hr in Hv. cbn [syncView] in Hv.
  destruct (applyTemplate st slug managed obj fm !! Js.trim k);
    by injection Hv as -> ->.
Qed.

Lemma template_default_wins_over_unsynced_alias_witness :
  keysApart DEFAULT_SETTINGS "projects" (getManagedAliasKeys DEFAULT_SETTINGS)
  ∧ highPriorityFrontmatter !! "priority" = Some (JStr "high")
  ∧ applySync DEFAULT_SETTINGS "projects" (getManagedAliasKeys DEFAULT_SETTINGS)
      (applyTemplate DEFAULT_SETTINGS "projects" (getManagedAliasKeys DEFAULT_SETTINGS)
         projectsTemplate highPriorityFrontmatter)
      !! makeStorageKey DEFAULT_SETTINGS "projects" (Js.trim "priority")
    = Some (JStr "medium")
  ∧ applySync DEFAULT_SETTINGS "projects" (getManagedAliasKeys DEFAULT_SETTINGS)
      (applyTemplate DEFAULT_SETTINGS "projects" (getManagedAliasKeys DEFAULT_SETTINGS)
         projectsTemplate highPriorityFrontmatter)
      !! Js.trim "priority" = None.
Proof.
  assert (keysApart DEFAULT_SETTINGS "projects" (getManagedAliasKeys DEFAULT_SETTINGS))
    as Hap by (apply keysApart_Forall, (bool_decide_unpack _); vm_compute; exact I).
  assert (Js.trim "priority" ∈ getManagedAliasKeys DEFAULT_SETTINGS) as Hin
    by (apply (bool_decide_unpack _); vm_compute; exact I).
  assert (∀ entry : string * JsValue, entry ∈ @nil (string * JsValue) →
            Js.trim (fst entry) ≠ Js.trim "priority") as Hfirst
    by (intros entry Hentry; by apply elem_of_nil in Hentry).
  assert (makeStorageKey DEFAULT_SETTINGS "projects" (Js.trim "priority") ≠ protoKey)
    as Hplain by (vm_compute; discriminate).
  destruct (template_default_wins_over_unsynced_alias DEFAULT_SETTINGS "projects"
              (getManagedAliasKeys DEFAULT_SETTINGS) projectsTemplate
              highPriorityFrontmatter [] "priority" (JStr "medium")
              [("status", JStr "draft"); ("owner", JNull)]
              eq_refl Hap eq_refl Hfirst eq_refl Hin Hplain) as [Hsto Hal].
  - vm_compute. reflexivity.
  - split; [exact Hap | split; [vm_compute; reflexivity | split; [exact Hsto | exact Hal]]].
Defined.

(** X23. What a restore writes (no managed key being the storage key of a
    managed key): for every managed key other than ["__proto__"] whose
    storage key exists, the alias key ends up with the storage key's value,
    whatever it held before, and the storage key is deleted or kept as the
    setting says; such a managed key without storage key keeps its alias key
    as it was. *)
Theorem restore_overwrites_alias_from_storage st slug managed fm a :
  keysApart st slug managed →
  a ∈ managed →
  a ≠ protoKey →
  restoreAliases st slug managed fm !! a
  = match fm !! makeStorageKey st slug a with
    | Some v => Some v
    | None => fm !! a
    end
  ∧ restoreAliases st slug managed fm !! makeStorageKey st slug a
    = if deleteStorageKeysOnRestore st then None else fm !! makeStorageKey st slug a.
Proof.
  intros Hap Ha Hplain.
  pose proof (restoreAliases_view st slug managed fm a Hap Ha Hplain) as Hv.
  unfold view in Hv.
  destruct (fm !! makeStorageKey st slug a) as [s|], (deleteStorageKeysOnRestore st);
    simpl in Hv; by injection Hv as -> ->.
Qed.

Lemma restore_overwrites_alias_from_storage_witness :
  keysApart DEFAULT_SETTINGS "projects" (getManagedAliasKeys DEFAULT_SETTINGS)
  ∧ divergedFrontmatter !! "priority" = Some (JStr "low")
  ∧ restoreAliases DEFAULT_SETTINGS "projects" (getManagedAliasKeys DEFAULT_SETTINGS)
      divergedFrontmatter !! "priority" = Some (JStr "high").
Proof.
  assert (keysApart DEFAULT_SETTINGS "projects" (getManagedAliasKeys DEFAULT_SETTINGS))
    as Hap by (apply keysApart_Forall, (bool_decide_unpack _); vm_compute; exact I).
  assert ("priority" ∈ getManagedAliasKeys DEFAULT_SETTINGS) as Hin
    by (apply (bool_decide_unpack _); vm_compute; exact I).
  assert ("priority" ≠ protoKey) as Hplain by discriminate.
  destruct (restore_overwrites_alias_from_storage DEFAULT_SETTINGS "projects"
              (getManagedAliasKeys DEFAULT_SETTINGS) divergedFrontmatter "priority"
              Hap Hin Hplain) as [Hal _].
  split; [exact Hap | split; [vm_compute; reflexivity | exact Hal]].
Defined.
